(** * A shallow embedding of the entanglement-forwarding core of mqns

    The development follows the Python sources:
    - [qns/network/proactive/fib.py]            (module [Fib]),
    - [qns/entity/qchannel/link_arch.py]        (module [LinkArch]),
    - [examples/path_gen.py]                    (module [PathGen]),
    - [qns/network/protocol/proactive_routing.py]
                                                (module [ProactiveRoutingApp]),
    - [qns/network/protocol/link_layer.py]      (module [LinkLayerApp]),
    over the quantum memory of module [Memory] and the node of module
    [Net].

    Python dictionaries are finite maps ([gmap]), Python sets are finite
    sets ([gset]), Python [int] is [Z].  A method that mutates [self] is a
    computation in a state-and-exception monad: the state reached so far
    survives a raised exception, exactly as the mutated object does. *)

From Stdlib Require Import ZArith QArith List String Reals Lra Lia Floats Uint63.
From stdpp Require Import base option gmap strings list fin_maps.

Local Open Scope Z_scope.

(** ** Python exceptions and the state-and-exception monad *)

(** The exception classes raised by the embedded code.  The payload of
    [Exception] is the static part of the message of the raise site. *)
Inductive exn : Type :=
  | KeyError
  | IndexError
  | ValueError
  | NameError
  | TypeError
  | StopIteration
  | ZeroDivisionError
  | OverflowError
  | Exception (msg : string).

Inductive outcome (A : Type) : Type :=
  | Returned (a : A)
  | Raised (e : exn).
Arguments Returned {A} a.
Arguments Raised {A} e.

Definition is_KeyError (e : exn) : bool :=
  match e with KeyError => true | _ => false end.

Module PyM.
(** A method on an object of state [S] returning an [A]. *)
Definition M (S A : Type) : Type := S -> outcome A * S.

Definition ret {S A} (a : A) : M S A := fun s => (Returned a, s).
Definition raise {S A} (e : exn) : M S A := fun s => (Raised e, s).
Definition bind {S A B} (m : M S A) (k : A -> M S B) : M S B :=
  fun s =>
    match m s with
    | (Returned a, s') => k a s'
    | (Raised e, s') => (Raised e, s')
    end.
Definition gets {S A} (f : S -> A) : M S A := fun s => (Returned (f s), s).
Definition modify {S} (f : S -> S) : M S unit := fun s => (Returned tt, f s).

(** [try: body except <caught>: handler]. *)
Definition try_except {S A} (body : M S A) (caught : exn -> bool)
    (handler : M S A) : M S A :=
  fun s =>
    match body s with
    | (Raised e, s') => if caught e then handler s' else (Raised e, s')
    | r => r
    end.
End PyM.

Declare Scope py_scope.
Delimit Scope py_scope with py.
Notation "x <- c1 ;; c2" := (PyM.bind c1 (fun x => c2))
  (at level 100, c1 at next level, right associativity) : py_scope.
Notation "c1 ;;; c2" := (PyM.bind c1 (fun _ => c2))
  (at level 100, right associativity) : py_scope.

(** ** Python list primitives *)

(** [xs.index(x)]: the first position of [x], [None] standing for the
    [ValueError] of a missing element. *)
Fixpoint list_index (xs : list string) (x : string) : option nat :=
  match xs with
  | [] => None
  | y :: ys => if String.eqb y x then Some O
               else option_map S (list_index ys x)
  end.

(** [xs[i]] with Python's negative indices, [None] standing for
    [IndexError]. *)
Definition subscript {A} (xs : list A) (i : Z) : option A :=
  if Z.ltb i 0 then
    if Z.ltb (i + Z.of_nat (length xs)) 0 then None
    else xs !! Z.to_nat (i + Z.of_nat (length xs))
  else xs !! Z.to_nat i.

(** ** The forwarding information base ([fib.py]) *)

Module Fib.
Import PyM.

Record FIBEntry : Type := mkFIBEntry {
  path_id : Z;
  request_id : Z;
  path_vector : list string;
  swap_sequence : list Z;
  purification_scheme : gmap string Z;
}.

(** [find_index_and_swapping_rank]: [list.index] raises [ValueError] on a
    missing name, the subscript raises [IndexError] past the end. *)
Definition find_index_and_swapping_rank (fib_entry : FIBEntry)
    (node_name : string) : outcome (nat * Z) :=
  match list_index (path_vector fib_entry) node_name with
  | None => Raised ValueError
  | Some idx =>
      match swap_sequence fib_entry !! idx with
      | None => Raised IndexError
      | Some r => Returned (idx, r)
      end
  end.

(** [is_swap_disabled]: [swap[0] == 0 == swap[-1]]. *)
Definition is_swap_disabled (fib_entry : FIBEntry) : outcome bool :=
  let swap := swap_sequence fib_entry in
  match head swap, last swap with
  | Some a, Some b => Returned (Z.eqb a 0 && Z.eqb 0 b)
  | _, _ => Raised IndexError
  end.

Record ForwardingInformationBase : Type := mkFIB {
  table : gmap Z FIBEntry;
  req_path_map : gmap Z (gset Z);
}.

(** [__init__] *)
Definition init : ForwardingInformationBase :=
  {| table := ∅; req_path_map := ∅ |}.

Abbreviation FibM := (M ForwardingInformationBase).

(** [self.table[path_id]] *)
Definition table_getitem (k : Z) : FibM FIBEntry :=
  fun fib =>
    match table fib !! k with
    | Some e => (Returned e, fib)
    | None => (Raised KeyError, fib)
    end.

(** [self.table.pop(path_id)] *)
Definition table_pop (k : Z) : FibM FIBEntry :=
  fun fib =>
    match table fib !! k with
    | Some e =>
        (Returned e,
         {| table := delete k (table fib); req_path_map := req_path_map fib |})
    | None => (Raised KeyError, fib)
    end.

(** [self.table[path_id] = entry] *)
Definition table_setitem (k : Z) (e : FIBEntry) : FibM unit :=
  modify (fun fib =>
    {| table := <[k := e]> (table fib); req_path_map := req_path_map fib |}).

(** [self.req_path_map[request_id]] *)
Definition req_getitem (r : Z) : FibM (gset Z) :=
  fun fib =>
    match req_path_map fib !! r with
    | Some s => (Returned s, fib)
    | None => (Raised KeyError, fib)
    end.

(** [paths.remove(path_id)] on the set stored under [r]: the set object
    is the one held by the dictionary, so the removal is seen there. *)
Definition paths_remove (r p : Z) (paths : gset Z) : FibM (gset Z) :=
  fun fib =>
    if decide (p ∈ paths) then
      let paths' := paths ∖ {[p]} in
      (Returned paths',
       {| table := table fib;
          req_path_map := <[r := paths']> (req_path_map fib) |})
    else (Raised KeyError, fib).

(** [del self.req_path_map[request_id]] *)
Definition req_delitem (r : Z) : FibM unit :=
  fun fib =>
    match req_path_map fib !! r with
    | Some _ =>
        (Returned tt,
         {| table := table fib; req_path_map := delete r (req_path_map fib) |})
    | None => (Raised KeyError, fib)
    end.

(** [self.req_path_map.setdefault(request_id, set())] followed by
    [paths.add(path_id)], again on the set object held by the dictionary. *)
Definition req_setdefault (r : Z) : FibM (gset Z) :=
  fun fib =>
    match req_path_map fib !! r with
    | Some s => (Returned s, fib)
    | None =>
        (Returned ∅,
         {| table := table fib;
            req_path_map := <[r := ∅]> (req_path_map fib) |})
    end.

Definition paths_add (r p : Z) (paths : gset Z) : FibM unit :=
  modify (fun fib =>
    {| table := table fib;
       req_path_map := <[r := paths ∪ {[p]}]> (req_path_map fib) |}).

(** [get] *)
Definition get (path_id : Z) : FibM FIBEntry :=
  try_except (table_getitem path_id) is_KeyError (raise IndexError).

(** [erase] *)
Definition erase (path_id : Z) : FibM unit :=
  (popped <- try_except
               (e <- table_pop path_id ;; ret (Some e))
               is_KeyError
               (ret None) ;;
   match popped with
   | None => ret tt
   | Some entry =>
       let request_id := request_id entry in
       paths <- req_getitem request_id ;;
       paths' <- paths_remove request_id path_id paths ;;
       if decide (paths' = ∅) then req_delitem request_id else ret tt
   end)%py.

(** [insert_or_replace] *)
Definition insert_or_replace (entry : FIBEntry) : FibM unit :=
  (let path_id := path_id entry in
   erase path_id ;;;
   table_setitem path_id entry ;;;
   let request_id := request_id entry in
   paths <- req_setdefault request_id ;;
   paths_add request_id path_id paths)%py.

(** [list_path_ids_by_request_id] *)
Definition list_path_ids_by_request_id (request_id : Z)
    (fib : ForwardingInformationBase) : gset Z :=
  default ∅ (req_path_map fib !! request_id).

(** The states a [ForwardingInformationBase] object goes through: the
    one built by [__init__], and the ones its methods leave behind. *)
Inductive fib_state : ForwardingInformationBase -> Prop :=
  | fib_state_init : fib_state init
  | fib_state_get fib p :
      fib_state fib -> fib_state (snd (get p fib))
  | fib_state_erase fib p :
      fib_state fib -> fib_state (snd (erase p fib))
  | fib_state_insert fib e :
      fib_state fib -> fib_state (snd (insert_or_replace e fib)).

(** The two indices agree. *)
Record fib_wf (fib : ForwardingInformationBase) : Prop := mk_fib_wf {
  wf_indexed : forall p e,
    table fib !! p = Some e ->
    exists s, req_path_map fib !! request_id e = Some s /\ p ∈ s;
  wf_backed : forall r s p,
    req_path_map fib !! r = Some s -> p ∈ s ->
    exists e, table fib !! p = Some e /\ request_id e = r;
  wf_nonempty : forall r s,
    req_path_map fib !! r = Some s -> s <> ∅;
}.
(** The state [erase] leaves behind when it finds the entry [e] under [p]
    and the set [s] under the entry's request (used in the proofs). *)
Definition erased (p : Z) (e : FIBEntry) (s : gset Z)
    (fib : ForwardingInformationBase) : ForwardingInformationBase :=
  {| table := delete p (table fib);
     req_path_map :=
       if decide (s ∖ {[p]} = ∅)
       then delete (request_id e) (<[request_id e := s ∖ {[p]}]> (req_path_map fib))
       else <[request_id e := s ∖ {[p]}]> (req_path_map fib) |}.

(** The state [insert_or_replace] builds on top of the erased state [fib1]
    (used in the proofs). *)
Definition inserted (e : FIBEntry) (fib1 : ForwardingInformationBase)
    : ForwardingInformationBase :=
  {| table := <[path_id e := e]> (table fib1);
     req_path_map :=
       <[request_id e :=
           default ∅ (req_path_map fib1 !! request_id e) ∪ {[path_id e]}]>
         (req_path_map fib1) |}.
End Fib.

(** ** Link architectures ([link_arch.py]) *)

(** Python [float] values are read as real numbers: [10 ** x] is the real
    power [Rpower 10 x], [x ** 2] the square, and [max] the real maximum.
    Rounding of binary floating point is outside this model. *)
Module LinkArch.
Local Open Scope R_scope.

(** Python [float] is binary64.  The [delays] methods use [+], [-], [*],
    [max] and the conversion of the [int] operands; they are written once
    over these operations and read in two ways: in binary64, as the
    program runs them, and in exact real arithmetic, which leaves the
    rounding of each operation out.  [f_fits k] tells whether the
    conversion of the [int] [k] to a float returns: Python raises
    [OverflowError] when the rounded value is beyond the largest float. *)
Class Arith (T : Type) : Type := mkArith {
  f_of_int : Z -> T;
  f_fits : Z -> bool;
  f_add : T -> T -> T;
  f_sub : T -> T -> T;
  f_mul : T -> T -> T;
  f_lt : T -> T -> bool;
}.

(** The conversion of an [int] to the nearest binary64 value, ties to
    even; the value is an infinity exactly when Python raises. *)
Definition float_of_int (z : Z) : float :=
  SF2Prim (SpecFloat.binary_normalize FloatOps.prec FloatOps.emax z 0 false).


#[export] Instance exact : Arith R := {|
  f_of_int := IZR;
  f_fits := fun _ => true;
  f_add := Rplus;
  f_sub := Rminus;
  f_mul := Rmult;
  f_lt := fun a b => if Rlt_dec a b then true else false;
|}.

(** [max(a, b)]: [b] when [b > a], else [a]. *)
Definition py_max {T : Type} `{Arith T} (a b : T) : T :=
  if f_lt a b then b else a.

(** The abstract base class [LinkArch]: a name and the two abstract
    methods.  [success_prob] takes [length], [alpha], [eta_s], [eta_d];
    [delays] takes [k], [reset_time], [tau_l], [tau_0].  [success_prob]
    raises 10 to a float power, for which there is no binary64 primitive:
    it is read over the real numbers only. *)
Record LinkArch : Type := mkLinkArch {
  name : string;
  success_prob : R -> R -> R -> R -> R;
  delays : forall T : Type, Arith T -> Z -> T -> T -> T -> outcome (T * T * T);
}.

(** [LinkArchDimBk.success_prob] *)
Definition dim_bk_success_prob (length alpha eta_s eta_d : R) : R :=
  let p_bsa := 0.5 in
  let p_l_sb := Rpower 10 (- alpha * length / 2 / 10) in
  let eta_sb := eta_s * eta_d * p_l_sb in
  p_bsa * eta_sb ^ 2.

(** [LinkArchSr.success_prob] *)
Definition sr_success_prob (length alpha eta_s eta_d : R) : R :=
  let p_l_sr := Rpower 10 (- alpha * length / 10) in
  let eta_sr := eta_s * eta_d * p_l_sr in
  eta_sr.

(** [LinkArchSim.success_prob] *)
Definition sim_success_prob (length alpha eta_s eta_d : R) : R :=
  let _unused := eta_s in
  let p_l_sb := Rpower 10 (- alpha * length / 2 / 10) in
  let eta_rr := (eta_d * p_l_sb) ^ 2 in
  eta_rr.

Declare Scope arith_scope.
Delimit Scope arith_scope with arith.
Notation "a + b" := (f_add a b) : arith_scope.
Notation "a - b" := (f_sub a b) : arith_scope.
Notation "a * b" := (f_mul a b) : arith_scope.

Section Delays.
Context {T : Type} `{Arith T}.
Local Open Scope arith_scope.

(** An [int] literal as an operand of a float operation. *)
Definition lit (z : Z) : T := f_of_int z.

(** [k * x] for the [int] [k] and the float [x]. *)
Definition int_times (k : Z) (x : T) : outcome T :=
  if f_fits k then Returned (f_of_int k * x) else Raised OverflowError.

(** [LinkArchDimBk.delays] *)
Definition dim_bk_delays (k : Z) (reset_time tau_l tau_0 : T)
    : outcome (T * T * T) :=
  let attempt_duration := py_max (lit 2 * (tau_l + tau_0)) reset_time in
  match int_times k attempt_duration with
  | Raised e => Raised e
  | Returned ka =>
      Returned (ka - lit 2 * tau_l - tau_0,
                lit 2 * tau_l + tau_0,
                lit 2 * tau_l + tau_0)
  end.

(** [LinkArchDimBkSeq.delays] *)
Definition dim_bk_seq_delays (k : Z) (reset_time tau_l tau_0 : T)
    : outcome (T * T * T) :=
  let attempt_duration := py_max (lit 5 * (tau_l + tau_0)) reset_time in
  match int_times (k - 1)%Z attempt_duration with
  | Raised e => Raised e
  | Returned ka =>
      Returned (ka + tau_l + lit 4 * tau_0,
                lit 4 * tau_l + tau_0,
                lit 4 * tau_l + tau_0)
  end.

(** [LinkArchSr.delays] *)
Definition sr_delays (k : Z) (reset_time tau_l tau_0 : T)
    : outcome (T * T * T) :=
  let attempt_duration := py_max (lit 2 * (tau_l + tau_0)) reset_time in
  match int_times k attempt_duration with
  | Raised e => Raised e
  | Returned ka => Returned (ka - lit 2 * tau_l, tau_l, lit 2 * tau_l)
  end.

(** [LinkArchSim.delays] *)
Definition sim_delays (k : Z) (reset_time tau_l tau_0 : T)
    : outcome (T * T * T) :=
  let attempt_duration := py_max (tau_l + tau_0) reset_time in
  match int_times k attempt_duration with
  | Raised e => Raised e
  | Returned ka => Returned (ka - tau_l, tau_l, tau_l)
  end.

End Delays.

Definition LinkArchDimBk : LinkArch :=
  {| name := "DIM-BK";
     success_prob := dim_bk_success_prob;
     delays := @dim_bk_delays |}.

(** [LinkArchDimBkSeq] subclasses [LinkArchDimBk] and overrides [delays]
    only: [success_prob] is inherited. *)
Definition LinkArchDimBkSeq : LinkArch :=
  {| name := "DIM-BK-SeQUeNCe";
     success_prob := success_prob LinkArchDimBk;
     delays := @dim_bk_seq_delays |}.

Definition LinkArchSr : LinkArch :=
  {| name := "SR"; success_prob := sr_success_prob; delays := @sr_delays |}.

Definition LinkArchSim : LinkArch :=
  {| name := "SIM"; success_prob := sim_success_prob; delays := @sim_delays |}.


End LinkArch.

(** ** Segment lengths of a linear path ([examples/path_gen.py]) *)

Module PathGen.

(** Python [float] arithmetic of this module is binary64 arithmetic, taken
    from the kernel's primitive floats.  [float_of_int] is Python's
    conversion of an [int] operand in mixed arithmetic: the nearest
    binary64 value, ties to even (exact below [2^53]).  For an [int] beyond
    the largest float Python raises [OverflowError] where this conversion
    gives an infinity; and [w / total_weight] on two [int]s is the division
    of their conversions, which is Python's correctly rounded quotient as
    long as both are below [2^53].  [int_of_float] is [int(x)], truncation
    towards zero. *)
Definition float_of_int (z : Z) : float := LinkArch.float_of_int z.

Definition int_of_float (f : float) : Z :=
  match Prim2SF f with
  | S754_finite s m e =>
      let v := if Z.leb 0 e then Z.pos m * 2 ^ e else Z.pos m / 2 ^ (- e) in
      if s then - v else v
  | _ => 0
  end.

(** [[x] * n]: the empty list when [n <= 0]. *)
Definition list_times (x : Z) (n : Z) : list Z := repeat x (Z.to_nat n).

(** [range(n)] *)
Definition range (n : Z) : list Z := map Z.of_nat (seq 0 (Z.to_nat n)).

(** [sum(xs)] *)
Definition sum (xs : list Z) : Z := fold_right Z.add 0 xs.

(** [a // b] *)
Definition floordiv (a b : Z) : outcome Z :=
  if Z.eqb b 0 then Raised ZeroDivisionError else Returned (a / b).

(** [[int(end_to_end_distance * (w / total_weight)) for w in weights]] *)
Definition weighted (end_to_end_distance : Z) (weights : list Z) : list Z :=
  let total_weight := sum weights in
  map (fun w =>
         int_of_float
           (PrimFloat.mul (float_of_int end_to_end_distance)
              (PrimFloat.div (float_of_int w) (float_of_int total_weight))))
      weights.

(** [compute_distances_distribution] *)
Definition compute_distances_distribution (end_to_end_distance : Z)
    (number_of_routers : Z) (distance_proportion : string)
    : outcome (list Z) :=
  let total_segments := number_of_routers + 1 in
  if Z.eqb number_of_routers 0 then Returned [end_to_end_distance]
  else if String.eqb distance_proportion "uniform" then
    match floordiv end_to_end_distance total_segments with
    | Raised e => Raised e
    | Returned segment_length =>
        Returned (list_times segment_length total_segments)
    end
  else if String.eqb distance_proportion "increasing" then
    let weights := map (fun i => 2 * i + 1) (range total_segments) in
    Returned (weighted end_to_end_distance weights)
  else if String.eqb distance_proportion "decreasing" then
    let weights := rev (map (fun i => 2 * i + 1) (range total_segments)) in
    Returned (weighted end_to_end_distance weights)
  else if String.eqb distance_proportion "mid_bottleneck" then
    if Z.leb total_segments 2 then
      match floordiv end_to_end_distance total_segments with
      | Raised e => Raised e
      | Returned d => Returned (list_times d total_segments)
      end
    else
      let is_even := Z.eqb (total_segments mod 2) 0 in
      let num_middle := if is_even then 2 else 1 in
      let num_edges := total_segments - num_middle in
      let base_edge_distance :=
        int_of_float
          (PrimFloat.div (float_of_int end_to_end_distance)
             (PrimFloat.add (float_of_int num_edges)
                (PrimFloat.mul 0x1.3333333333333p+0%float
                   (float_of_int num_middle)))) in
      let middle_distance :=
        int_of_float
          (PrimFloat.mul (float_of_int base_edge_distance)
             0x1.3333333333333p+0%float) in
      Returned (list_times base_edge_distance (num_edges / 2)
                ++ list_times middle_distance num_middle
                ++ list_times base_edge_distance (num_edges / 2))
  else Raised ValueError.

(** [[end_to_end_distance * (w / total_weight) for w in weights]] followed
    by [[int(d) for d in distances]], as the second function writes it. *)
Definition weighted_abd (end_to_end_distance : Z) (weights : list Z)
    : list Z :=
  let total_weight := sum weights in
  let distances :=
    map (fun w =>
           PrimFloat.mul (float_of_int end_to_end_distance)
             (PrimFloat.div (float_of_int w) (float_of_int total_weight)))
        weights in
  map int_of_float distances.

(** [compute_distances_distribution_abd] *)
Definition compute_distances_distribution_abd (end_to_end_distance : Z)
    (number_of_routers : Z) (distance_proportion : string)
    : outcome (list Z) :=
  let total_segments := number_of_routers + 1 in
  if Z.eqb number_of_routers 0 then Returned [end_to_end_distance]
  else if String.eqb distance_proportion "uniform" then
    match floordiv end_to_end_distance total_segments with
    | Raised e => Raised e
    | Returned d => Returned (list_times d total_segments)
    end
  else if String.eqb distance_proportion "increasing" then
    let weights := map (fun i => i * 2 + 1) (range total_segments) in
    Returned (weighted_abd end_to_end_distance weights)
  else if String.eqb distance_proportion "decreasing" then
    let weights := rev (map (fun i => i * 2 + 1) (range total_segments)) in
    Returned (weighted_abd end_to_end_distance weights)
  else if String.eqb distance_proportion "mid_bottleneck" then
    let is_even := Z.eqb (total_segments mod 2) 0 in
    let edge_segments :=
      if is_even then total_segments - 2 else total_segments - 1 in
    let base_edge_distance :=
      int_of_float
        (PrimFloat.div (float_of_int end_to_end_distance)
           (PrimFloat.add
              (PrimFloat.mul 0x1.3333333333333p+0%float
                 (float_of_int edge_segments))
              (float_of_int (if is_even then 2 else 1)))) in
    if is_even then
      let middle_distance :=
        int_of_float
          (PrimFloat.mul (float_of_int base_edge_distance)
             0x1.3333333333333p+0%float) in
      Returned (list_times base_edge_distance (edge_segments / 2)
                ++ [middle_distance; middle_distance]
                ++ list_times base_edge_distance (edge_segments / 2))
    else
      let middle_distance :=
        int_of_float
          (PrimFloat.mul (float_of_int base_edge_distance)
             0x1.3333333333333p+0%float) in
      Returned (list_times base_edge_distance (edge_segments / 2)
                ++ [middle_distance]
                ++ list_times base_edge_distance (edge_segments / 2))
  else Raised ValueError.
End PathGen.

(** ** Entangled pairs and the quantum memory *)

(** An EPR pair as the forwarding core reads it: nodes are referred to by
    name (the sources compare node objects, one object per name). *)
Record Epr : Type := mkEpr {
  epr_name : string;
  epr_src : string;
  epr_dst : string;
  fidelity : Q;
  decoherence_time : Z;
  is_decoherenced : bool;
  epr_path_id : option Z;
  ch_index : option Z;
  orig_eprs : list string;
}.

Definition epr_set_path_id (e : Epr) (p : option Z) : Epr :=
  {| epr_name := epr_name e; epr_src := epr_src e; epr_dst := epr_dst e;
     fidelity := fidelity e; decoherence_time := decoherence_time e;
     is_decoherenced := is_decoherenced e; epr_path_id := p;
     ch_index := ch_index e; orig_eprs := orig_eprs e |}.

Definition epr_set_ch_index (e : Epr) (c : option Z) : Epr :=
  {| epr_name := epr_name e; epr_src := epr_src e; epr_dst := epr_dst e;
     fidelity := fidelity e; decoherence_time := decoherence_time e;
     is_decoherenced := is_decoherenced e; epr_path_id := epr_path_id e;
     ch_index := c; orig_eprs := orig_eprs e |}.

Definition epr_set_ends (e : Epr) (s d : string) : Epr :=
  {| epr_name := epr_name e; epr_src := s; epr_dst := d;
     fidelity := fidelity e; decoherence_time := decoherence_time e;
     is_decoherenced := is_decoherenced e; epr_path_id := epr_path_id e;
     ch_index := ch_index e; orig_eprs := orig_eprs e |}.

Module Memory.

(** Modelled from the spec: the slot lifecycle of [memory_qubit.py], which
    is not among the sources.  The spec lists the states
    FREE, RESERVED, OCCUPIED, ENTANGLED, PURIF, ELIGIBLE, SWAPPING, CONSUMED,
    RELEASED and DECOHERED and names the component that drives each
    transition; it gives no rule by which a transition is refused, so
    [to_entangled], [to_purif], [to_eligible] and [to_release] set the
    state. *)
Inductive QubitState : Type :=
  | FREE | RESERVED | OCCUPIED | ENTANGLED | PURIF | ELIGIBLE
  | SWAPPING | CONSUMED | RELEASED | DECOHERED.

(** The address of a qubit is the position of its cell: the tests read
    [mem._storage[addr][0]] with the address [allocate] returned. *)
Record MemoryQubit : Type := mkQubit {
  fsm : QubitState;
  pid : option Z;
  active : option string;
  qchannel : option string;
}.

Definition qubit_set_fsm (q : MemoryQubit) (s : QubitState) : MemoryQubit :=
  {| fsm := s; pid := pid q; active := active q; qchannel := qchannel q |}.

Definition qubit_set_pid (q : MemoryQubit) (p : option Z) : MemoryQubit :=
  {| fsm := fsm q; pid := p; active := active q; qchannel := qchannel q |}.

Definition to_entangled (q : MemoryQubit) : MemoryQubit := qubit_set_fsm q ENTANGLED.
Definition to_purif (q : MemoryQubit) : MemoryQubit := qubit_set_fsm q PURIF.
Definition to_eligible (q : MemoryQubit) : MemoryQubit := qubit_set_fsm q ELIGIBLE.
Definition to_release (q : MemoryQubit) : MemoryQubit := qubit_set_fsm q RELEASED.

(** Modelled from the spec: the slotted store of [memory.py], which is not
    among the sources (only its tests are).  A memory is a fixed list of
    cells [(qubit, data)], as the tests read [mem._storage]; a cell holds at
    most one EPR.  [coherence] is [1/decoherence_rate] in simulator time
    slots. *)
Record QuantumMemory : Type := mkMemory {
  mem_name : string;
  storage : list (MemoryQubit * option Epr);
  coherence : Z;
}.

Definition mem_set_storage (m : QuantumMemory)
    (st : list (MemoryQubit * option Epr)) : QuantumMemory :=
  {| mem_name := mem_name m; storage := st; coherence := coherence m |}.

Definition cell_free (c : MemoryQubit * option Epr) : bool :=
  match pid (fst c), snd c with None, None => true | _, _ => false end.
Definition cell_reserved (c : MemoryQubit * option Epr) : bool :=
  match pid (fst c), snd c with Some _, None => true | _, _ => false end.
Definition cell_occupied (c : MemoryQubit * option Epr) : bool :=
  match snd c with Some _ => true | None => false end.

Definition count_cells (f : MemoryQubit * option Epr -> bool)
    (m : QuantumMemory) : Z :=
  Z.of_nat (length (List.filter f (storage m))).

(** Properties [capacity], [free] and [is_full()]; [usage] is [mem._usage]
    of the tests. *)
Definition capacity (m : QuantumMemory) : Z := Z.of_nat (length (storage m)).
Definition free (m : QuantumMemory) : Z := count_cells cell_free m.
Definition reserved (m : QuantumMemory) : Z := count_cells cell_reserved m.
Definition usage (m : QuantumMemory) : Z := count_cells cell_occupied m.
Definition is_full (m : QuantumMemory) : bool := Z.eqb (usage m) (capacity m).

(** The position of the first cell that satisfies [f]. *)
Fixpoint find_cell (f : MemoryQubit * option Epr -> bool)
    (st : list (MemoryQubit * option Epr)) : option nat :=
  match st with
  | [] => None
  | c :: st' => if f c then Some O else option_map S (find_cell f st')
  end.

(** How a cell is designated: by the name of the EPR it holds ([key=] with
    a string) or by the address of its qubit ([address=], and [key=] with
    an integer). *)
Inductive selector : Type :=
  | ByName (name : string)
  | ByAddr (a : Z).

Definition holds_name (n : string) (c : MemoryQubit * option Epr) : bool :=
  match snd c with
  | Some e => String.eqb (epr_name e) n
  | None => false
  end.

(** The position of the cell a selector designates. *)
Definition search (sel : selector) (m : QuantumMemory) : option nat :=
  match sel with
  | ByName n => find_cell (holds_name n) (storage m)
  | ByAddr a => if Z.ltb a 0 then None else Some (Z.to_nat a)
  end.

(** [get(key|address) -> (slot, epr)], [None] when no cell holds such an
    EPR.  The position of the cell stands for the qubit object. *)
Definition get (sel : selector) (m : QuantumMemory)
    : option (nat * MemoryQubit * Epr) :=
  match search sel m with
  | None => None
  | Some i =>
      match storage m !! i with
      | Some (q, Some e) => Some (i, q, e)
      | _ => None
      end
  end.

(** [read(key|address) -> (slot, epr)]: destructive, the cell is emptied
    and can take the next write. *)
Definition read (sel : selector) (m : QuantumMemory)
    : option (nat * MemoryQubit * Epr) * QuantumMemory :=
  match get sel m with
  | None => (None, m)
  | Some (i, q, e) =>
      (Some (i, q, e), mem_set_storage m (<[i := (q, None)]> (storage m)))
  end.

(** [allocate(path_id) -> addr | FAIL(no_free)]: reserve a FREE slot for a
    path; the tests read the failure value as [-1]. *)
Definition allocate (path_id : Z) (m : QuantumMemory) : Z * QuantumMemory :=
  match find_cell cell_free (storage m) with
  | None => (-1, m)
  | Some i =>
      match storage m !! i with
      | Some (q, d) =>
          let q' := qubit_set_fsm (qubit_set_pid q (Some path_id)) RESERVED in
          (Z.of_nat i, mem_set_storage m (<[i := (q', d)]> (storage m)))
      | None => (-1, m)
      end
  end.

(** The selection rule of [write] when no address is given: the slot
    reserved for the given path; else any FREE slot. *)
Definition write_candidate (path_id : option Z)
    (c : MemoryQubit * option Epr) : bool :=
  match snd c with
  | Some _ => false
  | None =>
      match path_id with
      | Some p =>
          match pid (fst c) with Some p' => Z.eqb p' p | None => false end
      | None =>
          match pid (fst c) with Some _ => false | None => true end
      end
  end.

(** The slot [write] selects: the given address, or the first candidate. *)
Definition write_slot (path_id : option Z) (address : option Z)
    (m : QuantumMemory) : option nat :=
  match address with
  | Some a => if Z.ltb a 0 then None else Some (Z.to_nat a)
  | None => find_cell (write_candidate path_id) (storage m)
  end.

(** [write(epr, path_id?, key?, address?, delay?) -> slot | None]: fails
    when no candidate slot exists, a slot that holds an EPR being none. *)
Definition write (qm : Epr) (path_id : option Z) (address : option Z)
    (m : QuantumMemory) : option (nat * MemoryQubit) * QuantumMemory :=
  match write_slot path_id address m with
  | None => (None, m)
  | Some i =>
      match storage m !! i with
      | Some (q, None) =>
          let q' := qubit_set_fsm q OCCUPIED in
          (Some (i, q'), mem_set_storage m (<[i := (q', Some qm)]> (storage m)))
      | _ => (None, m)
      end
  end.

(** [update(old_qm, new_qm) -> bool]: rewrite the EPR of the slot that
    holds [old_qm]. *)
Definition update (old_qm : string) (new_qm : Epr) (m : QuantumMemory)
    : bool * QuantumMemory :=
  match get (ByName old_qm) m with
  | None => (false, m)
  | Some (i, q, _) =>
      (true, mem_set_storage m (<[i := (q, Some new_qm)]> (storage m)))
  end.

(** [search_eligible_qubits(pid) -> [(slot, epr)]]: the slots in ELIGIBLE
    state bound to [pid], with their positions. *)
Fixpoint search_from (i : nat) (p : option Z)
    (st : list (MemoryQubit * option Epr)) : list (nat * MemoryQubit * Epr) :=
  match st with
  | [] => []
  | (q, Some e) :: st' =>
      match fsm q with
      | ELIGIBLE =>
          if decide (pid q = p) then (i, q, e) :: search_from (S i) p st'
          else search_from (S i) p st'
      | _ => search_from (S i) p st'
      end
  | (_, None) :: st' => search_from (S i) p st'
  end.

Definition search_eligible_qubits (p : option Z) (m : QuantumMemory)
    : list (nat * MemoryQubit * Epr) :=
  search_from O p (storage m).

(** [clear()]: return all slots to FREE. *)
Definition clear (m : QuantumMemory) : QuantumMemory :=
  mem_set_storage m
    (map (fun c => (qubit_set_fsm (fst c) FREE, None)) (storage m)).

(** [qubit.fsm.to_...()] on the qubit object at position [i]. *)
Definition on_qubit (f : MemoryQubit -> MemoryQubit) (i : nat)
    (m : QuantumMemory) : QuantumMemory :=
  match storage m !! i with
  | Some (q, d) => mem_set_storage m (<[i := (f q, d)]> (storage m))
  | None => m
  end.
End Memory.

(** ** Nodes, channels, packets and events *)

Module Net.
Import Memory.

Inductive TimingModeEnum : Type := ASYNC | LSYNC | SYNC.
Inductive SignalTypeEnum : Type := INTERNAL | EXTERNAL | EXTERNAL_START.
Inductive TypeEnum : Type := ADD | REMOVE.

Definition timing_eqb (a b : TimingModeEnum) : bool :=
  match a, b with
  | ASYNC, ASYNC | LSYNC, LSYNC | SYNC, SYNC => true
  | _, _ => false
  end.

Definition signal_eqb (a b : SignalTypeEnum) : bool :=
  match a, b with
  | INTERNAL, INTERNAL | EXTERNAL, EXTERNAL
  | EXTERNAL_START, EXTERNAL_START => true
  | _, _ => false
  end.

(** A classic or quantum channel: its name, its two end nodes and the
    value of [delay_model.calculate()] in time slots. *)
Record Channel : Type := mkChannel {
  ch_name : string;
  node_list : string * string;
  delay : Z;
}.

(** The class of the entity a packet comes from, as
    [RecvClassicPacketHandler] tests it with [isinstance]. *)
Inductive Entity : Type := IsController | IsQNode | IsOther.

(** The SWAP_UPDATE dictionary. *)
Record SwapUpdate : Type := mkSwapUpdate {
  su_path_id : Z;
  swapping_node : string;
  partner : string;
  epr : string;
  new_epr : option Epr;
  destination : string;
  fwd : bool;
}.

(** The heralding dictionary of the link layer. *)
Inductive HeraldCmd : Type := epr_succeeded | epr_failed.
Record Herald : Type := mkHerald {
  h_cmd : HeraldCmd;
  h_path_id : option Z;
  epr_id : string;
}.

(** The [instructions] dictionary of a controller message. *)
Record Instructions : Type := mkInstructions {
  route : list string;
  swap : list Z;
  purif_scheme : gmap string Z;
  mux : string;
  m_v : list Z;
}.

Inductive Msg : Type :=
  | SWAP_UPDATE (m : SwapUpdate)
  | HERALD (h : Herald)
  | CONTROL (path_id : Z) (instructions : Instructions).

Record ClassicPacket : Type := mkClassicPacket {
  msg : Msg;
  pkt_src : string;
  pkt_src_entity : Entity;
  pkt_dest : string;
}.

Record RecvClassicPacket : Type := mkRecvClassic {
  packet : ClassicPacket;
  cchannel : Channel;
}.

Record RecvQubitPacket : Type := mkRecvQubit {
  rq_qubit : Epr;
  rq_qchannel : Channel;
}.

(** A qubit object is designated by the position of its memory in
    [self.memories] and the position of its cell in that memory. *)
Definition QubitRef : Type := nat * nat.

(** The events handed to [simulator.add_event]. *)
Inductive Event : Type :=
  | QubitReleasedEvent (qubit : QubitRef) (e2e : bool) (t : Z) (by_mem : nat)
  | QubitEntangledEvent (neighbor : string) (qubit : QubitRef) (t : Z)
  | QubitDecoherenceTimer (qubit : QubitRef) (name : string) (t : Z)
  | LinkLayerManageActiveChannels (next_hop : string) (type : TypeEnum) (t : Z).

(** What a handler hands to the outside: events to the simulator, packets
    to the channels. *)
Inductive Action : Type :=
  | AddEvent (ev : Event)
  | ClassicSend (ch : Channel) (p : ClassicPacket) (next_hop : string)
      (delay : option Z)
  | QubitSend (ch : Channel) (q : Epr) (next_hop : string).

(** The FIB entry of the forwarder.  Modelled from the spec: the table of
    [qns/network/protocol/fib.py] ([get_entry], [add_entry],
    [delete_entry]), which is not among the sources; it maps a [path_id]
    to its entry and [get_entry] answers [None] for a missing one. *)
Record RouteEntry : Type := mkRouteEntry {
  re_path_id : Z;
  re_path_vector : list string;
  re_swap_sequence : list Z;
  re_purification_scheme : gmap string Z;
  re_qubit_addresses : list Z;
}.

(** The attributes of a [LinkLayer] object. *)
Record LinkLayer : Type := mkLinkLayer {
  ll_sync_current_phase : SignalTypeEnum;
  init_fidelity : Q;
  active_channels : gmap string (Channel * string);
  uuid_calls : nat;
}.

(** The attributes of a [ProactiveRouting] object. *)
Record ProactiveRouting : Type := mkProactiveRouting {
  ps : Q;
  sync_current_phase : SignalTypeEnum;
  fib : gmap Z RouteEntry;
  waiting_qubits : list Event;
  parallel_swappings : gmap string (Epr * Epr * Epr);
  e2e_count : Z;
}.

(** One node with its two applications, the simulator clock and what has
    been handed to the simulator and the channels so far. *)
Record World : Type := mkWorld {
  own : string;
  timing_mode : TimingModeEnum;
  memories : list QuantumMemory;
  qchannels : list Channel;
  cchannels : list Channel;
  network : list string;
  tc : Z;
  time_slots_per_us : Z;
  trace : list Action;
  link_layer : LinkLayer;
  net_layer : ProactiveRouting;
}.

Definition set_memories (w : World) (ms : list QuantumMemory) : World :=
  {| own := own w; timing_mode := timing_mode w; memories := ms;
     qchannels := qchannels w; cchannels := cchannels w;
     network := network w; tc := tc w;
     time_slots_per_us := time_slots_per_us w; trace := trace w;
     link_layer := link_layer w; net_layer := net_layer w |}.

Definition set_trace (w : World) (tr : list Action) : World :=
  {| own := own w; timing_mode := timing_mode w; memories := memories w;
     qchannels := qchannels w; cchannels := cchannels w;
     network := network w; tc := tc w;
     time_slots_per_us := time_slots_per_us w; trace := tr;
     link_layer := link_layer w; net_layer := net_layer w |}.

Definition set_link_layer (w : World) (l : LinkLayer) : World :=
  {| own := own w; timing_mode := timing_mode w; memories := memories w;
     qchannels := qchannels w; cchannels := cchannels w;
     network := network w; tc := tc w;
     time_slots_per_us := time_slots_per_us w; trace := trace w;
     link_layer := l; net_layer := net_layer w |}.

Definition set_net_layer (w : World) (p : ProactiveRouting) : World :=
  {| own := own w; timing_mode := timing_mode w; memories := memories w;
     qchannels := qchannels w; cchannels := cchannels w;
     network := network w; tc := tc w;
     time_slots_per_us := time_slots_per_us w; trace := trace w;
     link_layer := link_layer w; net_layer := p |}.

Definition set_uuid_calls (l : LinkLayer) (n : nat) : LinkLayer :=
  {| ll_sync_current_phase := ll_sync_current_phase l;
     init_fidelity := init_fidelity l;
     active_channels := active_channels l; uuid_calls := n |}.

Definition set_fib (p : ProactiveRouting) (f : gmap Z RouteEntry)
    : ProactiveRouting :=
  {| ps := ps p; sync_current_phase := sync_current_phase p; fib := f;
     waiting_qubits := waiting_qubits p;
     parallel_swappings := parallel_swappings p; e2e_count := e2e_count p |}.

Definition set_parallel_swappings (p : ProactiveRouting)
    (m : gmap string (Epr * Epr * Epr)) : ProactiveRouting :=
  {| ps := ps p; sync_current_phase := sync_current_phase p; fib := fib p;
     waiting_qubits := waiting_qubits p;
     parallel_swappings := m; e2e_count := e2e_count p |}.

Definition set_e2e_count (p : ProactiveRouting) (n : Z) : ProactiveRouting :=
  {| ps := ps p; sync_current_phase := sync_current_phase p; fib := fib p;
     waiting_qubits := waiting_qubits p;
     parallel_swappings := parallel_swappings p; e2e_count := n |}.

Definition set_waiting_qubits (p : ProactiveRouting) (l : list Event)
    : ProactiveRouting :=
  {| ps := ps p; sync_current_phase := sync_current_phase p; fib := fib p;
     waiting_qubits := l;
     parallel_swappings := parallel_swappings p; e2e_count := e2e_count p |}.

Abbreviation NodeM := (PyM.M World).

Import PyM.

(** [self._simulator.add_event(event)] *)
Definition add_event (ev : Event) : NodeM unit :=
  modify (fun w => set_trace w (trace w ++ [AddEvent ev])).

(** [cchannel.send(classic_packet, next_hop=..., delay=...)], [None] for a
    call without [delay]. *)
Definition cchannel_send (ch : Channel) (p : ClassicPacket)
    (next_hop : string) (d : option Z) : NodeM unit :=
  modify (fun w => set_trace w (trace w ++ [ClassicSend ch p next_hop d])).

(** [qchannel.send(epr, next_hop)] *)
Definition qchannel_send (ch : Channel) (q : Epr) (next_hop : string)
    : NodeM unit :=
  modify (fun w => set_trace w (trace w ++ [QubitSend ch q next_hop])).

(** [self.net.get_node(name)]: [None] for an unknown name. *)
Definition get_node (n : string) (w : World) : option string :=
  if existsb (String.eqb n) (network w) then Some n else None.

Definition channel_to (n : string) (c : Channel) : bool :=
  String.eqb (fst (node_list c)) n || String.eqb (snd (node_list c)) n.

(** [self.own.get_qchannel(node)] and [self.own.get_cchannel(node)]: the
    node's channel whose other end is [node], [None] when there is none. *)
Definition get_qchannel (n : option string) (w : World) : option Channel :=
  match n with
  | None => None
  | Some n => List.find (channel_to n) (qchannels w)
  end.

Definition get_cchannel (n : option string) (w : World) : option Channel :=
  match n with
  | None => None
  | Some n => List.find (channel_to n) (cchannels w)
  end.

(** [next(qmem for qmem in self.memories if qmem.name == name)]: the
    position of the first such memory, [StopIteration] when there is
    none. *)
Fixpoint memory_position (name : string) (ms : list QuantumMemory)
    : option nat :=
  match ms with
  | [] => None
  | m :: ms' => if String.eqb (mem_name m) name then Some O
                else option_map S (memory_position name ms')
  end.

Definition memory_named (name : string) : NodeM nat :=
  fun w =>
    match memory_position name (memories w) with
    | Some i => (Returned i, w)
    | None => (Raised StopIteration, w)
    end.

(** The memory object at position [i] of [self.memories]. *)
Definition the_memory (i : nat) (w : World) : QuantumMemory :=
  default (mkMemory "" [] 0) (memories w !! i).

Definition put_memory (i : nat) (m : QuantumMemory) (w : World) : World :=
  set_memories w (<[i := m]> (memories w)).

(** [qubit.addr] *)
Definition qubit_addr (q : QubitRef) : Z := Z.of_nat (snd q).

(** [qubit.pid] *)
Definition qubit_pid (q : QubitRef) (w : World) : option Z :=
  match storage (the_memory (fst q) w) !! snd q with
  | Some (mq, _) => pid mq
  | None => None
  end.

(** [qubit.fsm.to_...()] *)
Definition qubit_fsm (f : MemoryQubit -> MemoryQubit) (q : QubitRef)
    : NodeM unit :=
  modify (fun w => put_memory (fst q) (on_qubit f (snd q) (the_memory (fst q) w)) w).

(** [qmem.get(...)] *)
Definition qmem_get (qmem : nat) (sel : selector) (w : World)
    : option (QubitRef * Epr) :=
  match Memory.get sel (the_memory qmem w) with
  | Some (i, _, e) => Some ((qmem, i), e)
  | None => None
  end.

(** [qmem.read(...)] *)
Definition qmem_read (qmem : nat) (sel : selector)
    : NodeM (option (QubitRef * Epr)) :=
  fun w =>
    match Memory.read sel (the_memory qmem w) with
    | (Some (i, _, e), m') => (Returned (Some ((qmem, i), e)), put_memory qmem m' w)
    | (None, _) => (Returned None, w)
    end.

(** [qmem.write(...)]: a successful write schedules the coherence timer of
    the stored pair at [now + 1/decoherence_rate]. *)
Definition qmem_write (qmem : nat) (qm : Epr) (path_id address : option Z)
    : NodeM (option QubitRef) :=
  fun w =>
    match Memory.write qm path_id address (the_memory qmem w) with
    | (Some (i, _), m') =>
        let w' := put_memory qmem m' w in
        (Returned (Some (qmem, i)),
         set_trace w'
           (trace w' ++ [AddEvent (QubitDecoherenceTimer (qmem, i)
                           (epr_name qm) (tc w + coherence m'))]))
    | (None, _) => (Returned None, w)
    end.

(** [qmem.update(old_qm=..., new_qm=...)]: the timer is rescheduled with
    [new_qm.decoherence_time]. *)
Definition qmem_update (qmem : nat) (old_qm : string) (new_qm : Epr)
    : NodeM bool :=
  fun w =>
    match Memory.get (ByName old_qm) (the_memory qmem w) with
    | Some (i, _, _) =>
        let w' := put_memory qmem (snd (Memory.update old_qm new_qm (the_memory qmem w))) w in
        (Returned true,
         set_trace w'
           (trace w' ++ [AddEvent (QubitDecoherenceTimer (qmem, i)
                           (epr_name new_qm) (decoherence_time new_qm))]))
    | None => (Returned false, w)
    end.

(** [qmem.allocate(path_id=path_id)] *)
Definition qmem_allocate (qmem : nat) (path_id : Z) : NodeM Z :=
  fun w =>
    let (a, m') := Memory.allocate path_id (the_memory qmem w) in
    (Returned a, put_memory qmem m' w).

(** The EPR object held in a cell is shared with every variable that
    names it: an attribute assignment on it is seen in the cell. *)
Definition set_cell_epr (q : QubitRef) (e : Epr) : NodeM unit :=
  modify (fun w =>
    let m := the_memory (fst q) w in
    match storage m !! snd q with
    | Some (mq, Some _) =>
        put_memory (fst q) (mem_set_storage m (<[snd q := (mq, Some e)]> (storage m))) w
    | _ => w
    end).
End Net.

(** ** The proactive forwarder ([proactive_routing.py]) *)

Module ProactiveRoutingApp.
Import Memory Net PyM.
Local Open Scope py_scope.

Section Forwarder.

(** [WernerStateEntanglement.swapping(epr, ps)] is not among the sources
    and draws from the simulator's random generator: it is a parameter,
    answering the swapped pair or [None] for a failed swap. *)
Variable swapping : Epr -> Epr -> Q -> option Epr.

(** [route.index(name)] and [xs[i]] inside a handler. *)
Definition index_of (xs : list string) (x : string) : NodeM Z :=
  fun w =>
    match list_index xs x with
    | Some i => (Returned (Z.of_nat i), w)
    | None => (Raised ValueError, w)
    end.

Definition item {A} (xs : list A) (i : Z) : NodeM A :=
  fun w =>
    match subscript xs i with
    | Some x => (Returned x, w)
    | None => (Raised IndexError, w)
    end.

(** [self.fib.get_entry], [self.fib.delete_entry], [self.fib.add_entry] *)
Definition get_entry (path_id : Z) (w : World) : option RouteEntry :=
  fib (net_layer w) !! path_id.

Definition delete_entry (path_id : Z) : NodeM unit :=
  modify (fun w =>
    set_net_layer w (set_fib (net_layer w) (delete path_id (fib (net_layer w))))).

Definition add_entry (e : RouteEntry) : NodeM unit :=
  modify (fun w =>
    set_net_layer w
      (set_fib (net_layer w) (<[re_path_id e := e]> (fib (net_layer w))))).

(** [self.parallel_swappings.pop(key, None)] and
    [self.parallel_swappings[key] = record] *)
Definition parallel_pop (key : string) : NodeM unit :=
  modify (fun w =>
    set_net_layer w
      (set_parallel_swappings (net_layer w)
         (delete key (parallel_swappings (net_layer w))))).

Definition parallel_set (key : string) (r : Epr * Epr * Epr) : NodeM unit :=
  modify (fun w =>
    set_net_layer w
      (set_parallel_swappings (net_layer w)
         (<[key := r]> (parallel_swappings (net_layer w))))).

(** The test [self.own.timing_mode == SYNC and self.sync_current_phase !=
    INTERNAL] that opens [handle_signaling] and [eligible]. *)
Definition outside_internal_phase (w : World) : bool :=
  timing_eqb (timing_mode w) SYNC
  && negb (signal_eqb (sync_current_phase (net_layer w)) INTERNAL).

(** [eval_swapping_conditions] *)
Definition eval_swapping_conditions (fib_entry : RouteEntry)
    (partner : string) : NodeM bool :=
  let route := re_path_vector fib_entry in
  let swap_sequence := re_swap_sequence fib_entry in
  partner_idx <- index_of route partner ;;
  partner_rank <- item swap_sequence partner_idx ;;
  own_name <- gets own ;;
  own_idx <- index_of route own_name ;;
  own_rank <- item swap_sequence own_idx ;;
  if Z.leb own_rank partner_rank then ret true else ret false.

(** [send_swap_update] *)
Definition send_swap_update (dest : string) (m : SwapUpdate)
    (route : list string) (with_delay : bool) : NodeM unit :=
  own_name <- gets own ;;
  own_idx <- index_of route own_name ;;
  dest_idx <- index_of route dest ;;
  nh <- item route (if Z.ltb own_idx dest_idx then own_idx + 1
                    else own_idx - 1) ;;
  next_hop <- gets (get_node nh) ;;
  cchannel <- gets (get_cchannel next_hop) ;;
  match cchannel, next_hop with
  | Some cchannel, Some next_hop =>
      let classic_packet :=
        {| msg := SWAP_UPDATE m; pkt_src := own_name;
           pkt_src_entity := IsQNode; pkt_dest := dest |} in
      if with_delay then
        cchannel_send cchannel classic_packet next_hop (Some (delay cchannel))
      else cchannel_send cchannel classic_packet next_hop None
  | _, _ => raise (Exception "No classic channel for dest")
  end.

(** [check_eligible_qubit] *)
Fixpoint check_eligible_from (i : nat) (ms : list QuantumMemory)
    (name : string) (path_id : option Z)
    : option (nat * list (QubitRef * Epr)) :=
  match ms with
  | [] => None
  | qm :: ms' =>
      if negb (String.eqb (mem_name qm) name) then
        match search_eligible_qubits path_id qm with
        | [] => check_eligible_from (S i) ms' name path_id
        | qubits =>
            Some (i, map (fun r => ((i, fst (fst r)), snd r)) qubits)
        end
      else check_eligible_from (S i) ms' name path_id
  end.

Definition check_eligible_qubit (qmem : nat) (path_id : option Z) (w : World)
    : option (nat * list (QubitRef * Epr)) :=
  check_eligible_from O (memories w) (mem_name (the_memory qmem w)) path_id.

(** [get_memory_qubit] *)
Fixpoint get_memory_qubit_from (i : nat) (ms : list QuantumMemory)
    (epr_name : string) : option (nat * QubitRef) :=
  match ms with
  | [] => None
  | qm :: ms' =>
      match Memory.get (ByName epr_name) qm with
      | Some (c, _, _) => Some (i, (i, c))
      | None => get_memory_qubit_from (S i) ms' epr_name
      end
  end.

Definition get_memory_qubit (epr_name : string) (w : World)
    : option (nat * QubitRef) :=
  get_memory_qubit_from O (memories w) epr_name.

(** [compute_qubit_allocation] *)
Definition compute_qubit_allocation (path : list string) (m_v : list Z)
    (node : string) : NodeM (option Z * option Z) :=
  match list_index path node with
  | None => ret (None, None)
  | Some i =>
      let idx := Z.of_nat i in
      prev_qubits <- (if Z.ltb 0 idx then
                        x <- item m_v (idx - 1) ;; ret (Some x)
                      else ret None) ;;
      next_qubits <- (if Z.ltb idx (Z.of_nat (length m_v)) then
                        x <- item m_v idx ;; ret (Some x)
                      else ret None) ;;
      ret (prev_qubits, next_qubits)
  end.

(** The ordering of the two pairs of a swap into (prev, next). *)
Record SwapOrder : Type := mkSwapOrder {
  prev_partner : string;
  prev_epr : Epr;
  next_partner : string;
  next_epr : Epr;
  prev_qubit : QubitRef;
  next_qubit : QubitRef;
  prev_qmem : nat;
  next_qmem : nat;
}.

(** The tail of the end-node branch and of the two release branches of
    [handle_signaling]: [qubit.fsm.to_release()] and the
    [QubitReleasedEvent] handed to the simulator. *)
Definition release_event (qmem : nat) (qubit : QubitRef) (e2e : bool)
    : NodeM unit :=
  qubit_fsm to_release qubit ;;;
  now <- gets tc ;;
  add_event (QubitReleasedEvent qubit e2e now qmem).

(** The intermediate-node branch of [eligible], from
    [check_eligible_qubit] on. *)
Definition eligible_swap (qmem : nat) (qubit : QubitRef)
    (fib_entry : RouteEntry) (own_idx : Z) : NodeM unit :=
  let swap_sequence := re_swap_sequence fib_entry in
  let route := re_path_vector fib_entry in
  own_name <- gets own ;;
  found <- gets (check_eligible_qubit qmem (Some (re_path_id fib_entry))) ;;
  match found with
  | None => ret tt
  | Some (_, []) => ret tt
  | Some (other_qmem, (other_qubit, other_epr) :: _) =>
      let a := qubit_addr qubit in
      this <- gets (qmem_get qmem (ByAddr a)) ;;
      match this with
      | None => raise TypeError
      | Some (this_cell, this_epr) =>
          order <-
            (if String.eqb (epr_dst this_epr) own_name then
               ret (mkSwapOrder (epr_src this_epr) this_epr
                      (epr_dst other_epr) other_epr
                      qubit other_qubit qmem other_qmem, true)
             else if String.eqb (epr_src this_epr) own_name then
               ret (mkSwapOrder (epr_src other_epr) other_epr
                      (epr_dst this_epr) this_epr
                      other_qubit qubit other_qmem qmem, false)
             else raise (Exception "Unexpected: swapping EPRs")) ;;
          let '(o, this_is_prev) := order in
          let prev_cell := if this_is_prev then this_cell else other_qubit in
          let next_cell := if this_is_prev then other_qubit else this_cell in
          let prev_epr :=
            match orig_eprs (prev_epr o) with
            | [] => epr_set_ch_index (prev_epr o) (Some (own_idx - 1))
            | _ => prev_epr o
            end in
          set_cell_epr prev_cell prev_epr ;;;
          let next_epr :=
            match orig_eprs (next_epr o) with
            | [] => epr_set_ch_index (next_epr o) (Some own_idx)
            | _ => next_epr o
            end in
          set_cell_epr next_cell next_epr ;;;
          let this_epr := if this_is_prev then prev_epr else next_epr in
          let other_epr := if this_is_prev then next_epr else prev_epr in
          p <- gets (fun w => ps (net_layer w)) ;;
          new_epr <-
            match swapping this_epr other_epr p with
            | None => ret None
            | Some ne =>
                let ne := epr_set_ends ne (prev_partner o) (next_partner o) in
                own_rank <- item swap_sequence own_idx ;;
                prev_p_idx <- index_of route (prev_partner o) ;;
                prev_p_rank <- item swap_sequence prev_p_idx ;;
                (if Z.eqb own_rank prev_p_rank then
                   parallel_set (epr_name prev_epr) (prev_epr, next_epr, ne)
                 else ret tt) ;;;
                next_p_idx <- index_of route (next_partner o) ;;
                next_p_rank <- item swap_sequence next_p_idx ;;
                (if Z.eqb own_rank next_p_rank then
                   parallel_set (epr_name next_epr) (next_epr, prev_epr, ne)
                 else ret tt) ;;;
                ret (Some ne)
            end ;;
          let prev_partner_msg :=
            {| su_path_id := re_path_id fib_entry;
               swapping_node := own_name;
               partner := next_partner o;
               epr := epr_name prev_epr;
               new_epr := new_epr;
               destination := prev_partner o;
               fwd := false |} in
          send_swap_update (prev_partner o) prev_partner_msg route false ;;;
          let next_partner_msg :=
            {| su_path_id := re_path_id fib_entry;
               swapping_node := own_name;
               partner := prev_partner o;
               epr := epr_name next_epr;
               new_epr := new_epr;
               destination := next_partner o;
               fwd := false |} in
          send_swap_update (next_partner o) next_partner_msg route false ;;;
          let a := qubit_addr qubit in
          qmem_read qmem (ByAddr a) ;;;
          let oa := qubit_addr other_qubit in
          qmem_read other_qmem (ByAddr oa) ;;;
          qubit_fsm to_release qubit ;;;
          qubit_fsm to_release other_qubit ;;;
          now <- gets tc ;;
          us <- gets time_slots_per_us ;;
          let ev1 := QubitReleasedEvent (prev_qubit o) false now (prev_qmem o) in
          let ev2 := QubitReleasedEvent (next_qubit o) false (now + us)
                       (next_qmem o) in
          add_event ev1 ;;;
          add_event ev2
      end
  end.

(** [eligible].  Its first statement names [debug], which the module never
    binds (it imports [log]): in SYNC mode outside the INTERNAL phase the
    call stops there with [NameError], before any slot is touched. *)
Definition eligible (qmem : nat) (qubit : QubitRef) (fib_entry : RouteEntry)
    : NodeM unit :=
  stop <- gets outside_internal_phase ;;
  if stop then raise NameError
  else
    let route := re_path_vector fib_entry in
    own_name <- gets own ;;
    own_idx <- index_of route own_name ;;
    if Z.ltb 0 own_idx && Z.ltb own_idx (Z.of_nat (length route) - 1) then
      eligible_swap qmem qubit fib_entry own_idx
    else
      let a := qubit_addr qubit in
      res <- qmem_read qmem (ByAddr a) ;;
      match res with
      | None => raise TypeError
      | Some (_, qm) =>
          qubit_fsm to_release qubit ;;;
          modify (fun w =>
            set_net_layer w
              (set_e2e_count (net_layer w) (e2e_count (net_layer w) + 1))) ;;;
          now <- gets tc ;;
          add_event (QubitReleasedEvent qubit (String.eqb own_name "S") now qmem)
      end.

(** [purif] *)
Definition purif (qmem : nat) (qubit : QubitRef) (fib_entry : RouteEntry)
    (partner : string) : NodeM unit :=
  qubit_fsm to_eligible qubit ;;;
  eligible qmem qubit fib_entry.

(** [handle_entangled_qubit] *)
Definition handle_entangled_qubit (neighbor : string) (qubit : QubitRef)
    : NodeM unit :=
  p <- gets (qubit_pid qubit) ;;
  match p with
  | Some p =>
      fib_entry <- gets (get_entry p) ;;
      match fib_entry with
      | Some fib_entry =>
          ok <- eval_swapping_conditions fib_entry neighbor ;;
          if ok then
            qchannel <- gets (get_qchannel (Some neighbor)) ;;
            match qchannel with
            | Some qchannel =>
                qubit_fsm to_purif qubit ;;;
                qmem <- memory_named (ch_name qchannel) ;;
                purif qmem qubit fib_entry neighbor
            | None => raise (Exception "No qchannel found for neighbor")
            end
          else ret tt
      | None => raise (Exception "No FIB entry found for pid")
      end
  | None => ret tt
  end.

(** The first branch of a SWAP_UPDATE whose slot is still held: swap failed
    or oldest pair decohered, release the qubit. *)
Definition release_slot (qmem : nat) (qubit : QubitRef) : NodeM unit :=
  let a := qubit_addr qubit in
  qmem_read qmem (ByAddr a) ;;;
  release_event qmem qubit false.

(** [msg["new_epr"] is None or msg["new_epr"].decoherence_time <=
    self._simulator.tc] *)
Definition lost (m : SwapUpdate) (w : World) : bool :=
  match new_epr m with
  | None => true
  | Some ne => Z.leb (decoherence_time ne) (tc w)
  end.

(** The branch [own_rank > sender_rank] of [handle_signaling]. *)
Definition signaling_higher_rank (m : SwapUpdate) (fib_entry : RouteEntry)
    : NodeM unit :=
  found <- gets (get_memory_qubit (epr m)) ;;
  match found with
  | Some (qmem, qubit) =>
      is_lost <- gets (lost m) ;;
      match is_lost, new_epr m with
      | false, Some ne =>
          updated <- qmem_update qmem (epr m) ne ;;
          if updated then
            ok <- eval_swapping_conditions fib_entry (partner m) ;;
            if ok then
              qubit_fsm to_purif qubit ;;;
              purif qmem qubit fib_entry (partner m)
            else ret tt
          else ret tt
      | _, _ => release_slot qmem qubit
      end
  | None => ret tt
  end.

(** The branch [own_rank == sender_rank], slot gone and a record of the
    parallel swap found. *)
Definition signaling_merge (m : SwapUpdate) (fib_entry : RouteEntry)
    (own_rank : Z) (record : Epr * Epr * Epr) : NodeM unit :=
  let route := re_path_vector fib_entry in
  let swap_sequence := re_swap_sequence fib_entry in
  let '(shared_epr, other_epr, my_new_epr) := record in
  own_name <- gets own ;;
  is_lost <- gets (lost m) ;;
  match is_lost, new_epr m with
  | false, Some new_epr =>
      let merged_epr := swapping new_epr other_epr 1%Q in
      let '(merged_epr, partner, destination) :=
        if String.eqb (epr_dst other_epr) own_name then
          (option_map (fun e => epr_set_ends e (epr_src other_epr)
                                  (epr_dst new_epr)) merged_epr,
           epr_dst new_epr, epr_src other_epr)
        else
          (option_map (fun e => epr_set_ends e (epr_src new_epr)
                                  (epr_dst other_epr)) merged_epr,
           epr_src new_epr, epr_dst other_epr) in
      let fwd_msg :=
        {| su_path_id := su_path_id m;
           swapping_node := swapping_node m;
           partner := partner;
           epr := epr_name my_new_epr;
           new_epr := merged_epr;
           destination := destination;
           fwd := true |} in
      send_swap_update destination fwd_msg route true ;;;
      parallel_pop (epr m) ;;;
      p_idx <- index_of route partner ;;
      p_rank <- item swap_sequence p_idx ;;
      match merged_epr with
      | Some merged_epr =>
          if Z.eqb own_rank p_rank then
            parallel_set (epr_name new_epr) (new_epr, other_epr, merged_epr)
          else ret tt
      | None => ret tt
      end
  | _, _ =>
      let '(destination, partner) :=
        if String.eqb (epr_dst other_epr) own_name then
          (epr_src other_epr, epr_dst shared_epr)
        else (epr_dst other_epr, epr_src shared_epr) in
      let fwd_msg :=
        {| su_path_id := su_path_id m;
           swapping_node := swapping_node m;
           partner := partner;
           epr := epr_name my_new_epr;
           new_epr := None;
           destination := destination;
           fwd := true |} in
      send_swap_update destination fwd_msg route true ;;;
      parallel_pop (epr m)
  end.

(** The branch [own_rank == sender_rank] of [handle_signaling]. *)
Definition signaling_same_rank (m : SwapUpdate) (fib_entry : RouteEntry)
    (own_rank : Z) : NodeM unit :=
  found <- gets (get_memory_qubit (epr m)) ;;
  match found with
  | Some (qmem, qubit) =>
      parallel_pop (epr m) ;;;
      is_lost <- gets (lost m) ;;
      match is_lost, new_epr m with
      | false, Some ne =>
          updated <- qmem_update qmem (epr m) ne ;;
          ret tt
      | _, _ => release_slot qmem qubit
      end
  | None =>
      record <- gets (fun w => parallel_swappings (net_layer w) !! epr m) ;;
      match record with
      | Some record => signaling_merge m fib_entry own_rank record
      | None => ret tt
      end
  end.

(** [handle_signaling].  As in [eligible], the statement under the SYNC
    test names the unbound [debug]: the handler stops there with
    [NameError].  A message without the keys ["cmd"] and ["path_id"]
    stops at the subscript with [KeyError]. *)
Definition handle_signaling (packet : RecvClassicPacket) : NodeM unit :=
  match msg (Net.packet packet) with
  | CONTROL _ _ => raise KeyError
  | HERALD _ => ret tt
  | SWAP_UPDATE m =>
      stop <- gets outside_internal_phase ;;
      if stop then raise NameError
      else
        fib_entry <- gets (get_entry (su_path_id m)) ;;
        match fib_entry with
        | None => raise (Exception "FIB entry not found for path")
        | Some fib_entry =>
            let route := re_path_vector fib_entry in
            let swap_sequence := re_swap_sequence fib_entry in
            sender_idx <- index_of route (swapping_node m) ;;
            sender_rank <- item swap_sequence sender_idx ;;
            own_name <- gets own ;;
            own_idx <- index_of route own_name ;;
            own_rank <- item swap_sequence own_idx ;;
            if String.eqb (destination m) own_name then
              if Z.ltb sender_rank own_rank then
                signaling_higher_rank m fib_entry
              else if Z.eqb own_rank sender_rank then
                signaling_same_rank m fib_entry own_rank
              else ret tt
            else
              if Z.leb own_rank sender_rank then
                let msg_copy :=
                  {| su_path_id := su_path_id m;
                     swapping_node := swapping_node m;
                     partner := partner m;
                     epr := epr m;
                     new_epr := new_epr m;
                     destination := destination m;
                     fwd := true |} in
                send_swap_update (pkt_dest (Net.packet packet)) msg_copy
                  route false
              else ret tt
        end
  end.

(** The allocation loop [for i in range(num): qubits.append(
    qmem.allocate(path_id=path_id))]; the addresses are the local list the
    handler only logs. *)
Fixpoint allocate_times (n : nat) (qmem : nat) (path_id : Z)
    : NodeM (list Z) :=
  match n with
  | O => ret []
  | S n' =>
      a <- qmem_allocate qmem path_id ;;
      rest <- allocate_times n' qmem path_id ;;
      ret (a :: rest)
  end.

(** The buffer-space allocation of one side of the node in
    [handle_control], when [m_v] is given. *)
Definition allocate_requested (num : option Z) (qmem : option nat)
    (path_id : Z) : NodeM (list Z) :=
  match num, qmem with
  | Some num, Some qmem =>
      if Z.eqb num 0 then ret []
      else
        f <- gets (fun w => free (the_memory qmem w)) ;;
        if Z.leb f num then allocate_times (Z.to_nat num) qmem path_id
        else raise (Exception "Not enough qubits left for this allocation.")
  | _, _ => ret []
  end.

(** The blocking allocation of one side of the node in [handle_control],
    when [m_v] is not given. *)
Definition allocate_all (qmem : option nat) (path_id : Z) : NodeM (list Z) :=
  match qmem with
  | Some qmem =>
      m <- gets (the_memory qmem) ;;
      if Z.eqb (free m) (capacity m) then
        allocate_times (Z.to_nat (free m)) qmem path_id
      else raise (Exception "Memory has allocated qubits and cannot be used with Blocking mux.")
  | None => ret []
  end.

(** The channel and memory of the neighbour [n] in [handle_control]:
    nothing for an end of the route, an exception for a neighbour without
    quantum channel. *)
Definition neighbor_memory (n : option string)
    : NodeM (option string * option nat) :=
  match n with
  | None => ret (None, None)
  | Some "" => ret (None, None)
  | Some n =>
      neighbor <- gets (get_node n) ;;
      qchannel <- gets (get_qchannel neighbor) ;;
      match qchannel with
      | Some qchannel =>
          qmem <- memory_named (ch_name qchannel) ;;
          ret (neighbor, Some qmem)
      | None => raise (Exception "Qchannel not found for neighbor")
      end
  end.

(** [handle_control] *)
Definition handle_control (packet : RecvClassicPacket) : NodeM unit :=
  match msg (Net.packet packet) with
  | CONTROL path_id instructions =>
      own_name <- gets own ;;
      match list_index (route instructions) own_name with
      | None => raise (Exception "Node not found in route vector")
      | Some i =>
          let i := Z.of_nat i in
          pn <- (if Z.ltb 0 i then
                   x <- item (route instructions) (i - 1) ;; ret (Some x)
                 else ret None) ;;
          nn <- (if Z.ltb i (Z.of_nat (length (route instructions)) - 1) then
                   x <- item (route instructions) (i + 1) ;; ret (Some x)
                 else ret None) ;;
          prev <- neighbor_memory pn ;;
          let '(prev_neighbor, prev_qmem) := prev in
          next <- neighbor_memory nn ;;
          let '(next_neighbor, next_qmem) := next in
          (if String.eqb (mux instructions) "B" then
             match m_v instructions with
             | _ :: _ =>
                 nums <- compute_qubit_allocation (route instructions)
                           (m_v instructions) own_name ;;
                 let '(num_prev, num_next) := nums in
                 prev_qubits <- allocate_requested num_prev prev_qmem path_id ;;
                 next_qubits <- allocate_requested num_next next_qmem path_id ;;
                 ret tt
             | [] =>
                 prev_qubits <- allocate_all prev_qmem path_id ;;
                 next_qubits <- allocate_all next_qmem path_id ;;
                 ret tt
             end
           else ret tt) ;;;
          old <- gets (get_entry path_id) ;;
          (match old with
           | Some _ => delete_entry path_id
           | None => ret tt
           end) ;;;
          add_entry {| re_path_id := path_id;
                       re_path_vector := route instructions;
                       re_swap_sequence := swap instructions;
                       re_purification_scheme := purif_scheme instructions;
                       re_qubit_addresses := [] |} ;;;
          match next_neighbor with
          | Some next_neighbor =>
              t <- gets tc ;;
              add_event (LinkLayerManageActiveChannels next_neighbor ADD t)
          | None => ret tt
          end
      end
  | _ => raise KeyError
  end.

(** [RecvClassicPacketHandler] *)
Definition RecvClassicPacketHandler (event : RecvClassicPacket)
    : NodeM unit :=
  match pkt_src_entity (Net.packet event) with
  | IsController => handle_control event
  | IsQNode => handle_signaling event
  | IsOther => ret tt
  end.

(** [handle_event], for a [QubitEntangledEvent]. *)
Definition handle_event (event : Event) : NodeM unit :=
  match event with
  | QubitEntangledEvent neighbor qubit _ =>
      mode <- gets timing_mode ;;
      match mode with
      | ASYNC | LSYNC => handle_entangled_qubit neighbor qubit
      | SYNC =>
          phase <- gets (fun w => sync_current_phase (net_layer w)) ;;
          if signal_eqb phase EXTERNAL then
            modify (fun w =>
              set_net_layer w
                (set_waiting_qubits (net_layer w)
                   (waiting_qubits (net_layer w) ++ [event])))
          else ret tt
      end
  | _ => ret tt
  end.

(** The rank the handlers read for a node:
    [swap_sequence[route.index(name)]], when both are defined. *)
Definition rank_of (fib_entry : RouteEntry) (name : string) : option Z :=
  match list_index (re_path_vector fib_entry) name with
  | Some i => subscript (re_swap_sequence fib_entry) (Z.of_nat i)
  | None => None
  end.
End Forwarder.
(** A SWAP_UPDATE as a transit node passes it on: [copy.deepcopy(msg)]
    with [fwd] set. *)
Definition forwarded (m : SwapUpdate) : SwapUpdate :=
  {| su_path_id := su_path_id m; swapping_node := swapping_node m;
     partner := partner m; epr := epr m; new_epr := new_epr m;
     destination := destination m; fwd := true |}.

(** A step that may change the memories of the node and nothing else. *)
Definition only_memories {A} (c : NodeM A) : Prop :=
  forall w, snd (c w) = set_memories w (memories (snd (c w))).

(** The allocation block of [handle_control]. *)
Definition allocation_block (instructions : Instructions)
    (prev_qmem next_qmem : option nat) (path_id : Z) : NodeM unit :=
  fun w =>
    (if String.eqb (mux instructions) "B" then
       match m_v instructions with
       | _ :: _ =>
           bind (compute_qubit_allocation (route instructions)
                   (m_v instructions) (own w))
             (fun nums =>
                let '(num_prev, num_next) := nums in
                bind (allocate_requested num_prev prev_qmem path_id)
                  (fun _ =>
                     bind (allocate_requested num_next next_qmem path_id)
                       (fun _ => ret tt)))
       | [] =>
           bind (allocate_all prev_qmem path_id)
             (fun _ => bind (allocate_all next_qmem path_id)
                         (fun _ => ret tt))
       end
     else ret tt) w.

(** The neighbour a name of the route resolves to in [handle_control]. *)
Definition resolved (n : option string) : option string :=
  match n with
  | Some s => if String.eqb s "" then None else Some s
  | None => None
  end.

(** The FIB entry [handle_control] builds from a controller message. *)
Definition installed (path_id : Z) (instructions : Instructions) : RouteEntry :=
  {| re_path_id := path_id;
     re_path_vector := route instructions;
     re_swap_sequence := swap instructions;
     re_purification_scheme := purif_scheme instructions;
     re_qubit_addresses := [] |}.

(** What a run adds to the trace, the clock, the name of the node and the
    count of end-to-end pairs being kept. *)
Definition emits (w w' : World) (l : list Action) : Prop :=
  trace w' = trace w ++ l /\ own w' = own w /\ tc w' = tc w
  /\ time_slots_per_us w' = time_slots_per_us w
  /\ e2e_count (net_layer w') = e2e_count (net_layer w)
  /\ ps (net_layer w') = ps (net_layer w).

End ProactiveRoutingApp.

(** ** The link layer ([link_layer.py]) *)

Module LinkLayerApp.
Import Memory Net PyM.
Local Open Scope py_scope.

Section Generation.

(** [uuid.uuid4().hex] for the successive calls, and the constructor
    [WernerStateEntanglement(fidelity=..., name=...)] of the absent EPR
    model: both are parameters. *)
Variable uuid4_hex : nat -> string.
Variable WernerStateEntanglement : Q -> string -> Epr.

(** The test [self.own.timing_mode == SYNC and self.sync_current_phase !=
    EXTERNAL] that opens the three handlers. *)
Definition outside_external_phase (w : World) : bool :=
  timing_eqb (timing_mode w) SYNC
  && negb (signal_eqb (ll_sync_current_phase (link_layer w)) EXTERNAL).

(** [qchannel.name not in self.active_channels] *)
Definition is_active (qchannel : Channel) (w : World) : bool :=
  match active_channels (link_layer w) !! ch_name qchannel with
  | Some _ => true
  | None => false
  end.

(** [generate_epr] *)
Definition generate_epr (dst : string) : NodeM Epr :=
  fun w =>
    let l := link_layer w in
    let e := WernerStateEntanglement (init_fidelity l)
               (uuid4_hex (uuid_calls l)) in
    (Returned (epr_set_ends e (own w) dst),
     set_link_layer w (set_uuid_calls l (S (uuid_calls l)))).

(** The pair [generate_epr] makes at the next call. *)
Definition next_epr_of (dst : string) (w : World) : Epr :=
  epr_set_ends
    (WernerStateEntanglement (init_fidelity (link_layer w))
       (uuid4_hex (uuid_calls (link_layer w))))
    (own w) dst.

(** [notify_entangled_qubit] *)
Definition notify_entangled_qubit (neighbor : string) (qubit : QubitRef)
    (d : Z) : NodeM unit :=
  qubit_fsm to_entangled qubit ;;;
  now <- gets tc ;;
  add_event (QubitEntangledEvent neighbor qubit (now + d)).

(** [generate_entanglement] *)
Definition generate_entanglement (qchannel : Channel) (next_hop : string)
    (qmemory : nat) (address : option Z) : NodeM unit :=
  stop <- gets outside_external_phase ;;
  if stop then ret tt
  else
    active <- gets (is_active qchannel) ;;
    if negb active then ret tt
    else
      epr <- generate_epr next_hop ;;
      local_qubit <- qmem_write qmemory epr None address ;;
      match local_qubit with
      | None => ret tt
      | Some local_qubit =>
          p <- gets (qubit_pid local_qubit) ;;
          let epr := epr_set_path_id epr p in
          set_cell_epr local_qubit epr ;;;
          qchannel_send qchannel epr next_hop
      end.

(** The heralding packet sent back to [from_node]. *)
Definition herald (cmd : HeraldCmd) (epr : Epr) (own_name from_node : string)
    : ClassicPacket :=
  {| msg := HERALD {| h_cmd := cmd; h_path_id := epr_path_id epr;
                      epr_id := epr_name epr |};
     pkt_src := own_name; pkt_src_entity := IsQNode; pkt_dest := from_node |}.

(** [qchannel.node_list[0] if qchannel.node_list[1] == self.own else
    qchannel.node_list[1]] *)
Definition other_end (c : Channel) (w : World) : string :=
  if String.eqb (snd (node_list c)) (own w) then fst (node_list c)
  else snd (node_list c).

(** [handle_distribution] *)
Definition handle_distribution (packet : RecvQubitPacket) : NodeM unit :=
  stop <- gets outside_external_phase ;;
  if stop then ret tt
  else
    let qchannel := rq_qchannel packet in
    from_node <- gets (other_end qchannel) ;;
    own_name <- gets own ;;
    cchannel <- gets (get_cchannel (Some from_node)) ;;
    match cchannel with
    | None => raise (Exception "No such classic channel")
    | Some cchannel =>
        let epr := rq_qubit packet in
        if is_decoherenced epr then
          cchannel_send cchannel (herald epr_failed epr own_name from_node)
            from_node None
        else
          qmemory <- memory_named (ch_name qchannel) ;;
          local_qubit <- qmem_write qmemory epr (epr_path_id epr) None ;;
          match local_qubit with
          | None =>
              cchannel_send cchannel
                (herald epr_failed epr own_name from_node) from_node None
          | Some local_qubit =>
              cchannel_send cchannel
                (herald epr_succeeded epr own_name from_node) from_node None ;;;
              notify_entangled_qubit from_node local_qubit (delay cchannel)
          end
    end.

(** [handle_signaling] *)
Definition handle_signaling (packet : RecvClassicPacket) : NodeM unit :=
  stop <- gets outside_external_phase ;;
  if stop then ret tt
  else
    match msg (Net.packet packet) with
    | HERALD h =>
        from_node <- gets (other_end (cchannel packet)) ;;
        qchannel <- gets (get_qchannel (Some from_node)) ;;
        match qchannel with
        | None => raise (Exception "No such quantum channel")
        | Some qchannel =>
            qmemory <- memory_named (ch_name qchannel) ;;
            active <- gets (is_active qchannel) ;;
            if negb active then
              res <- qmem_read qmemory (ByName (epr_id h)) ;;
              match res with
              | None => raise TypeError
              | Some _ => ret tt
              end
            else
              match h_cmd h with
              | epr_succeeded =>
                  res <- gets (qmem_get qmemory (ByName (epr_id h))) ;;
                  match res with
                  | None => raise TypeError
                  | Some (qubit, _) => notify_entangled_qubit from_node qubit 0
                  end
              | epr_failed =>
                  res <- qmem_read qmemory (ByName (epr_id h)) ;;
                  match res with
                  | None => raise TypeError
                  | Some (qubit, _) =>
                      let a := qubit_addr qubit in
                      generate_entanglement qchannel from_node qmemory (Some a)
                  end
              end
        end
    | SWAP_UPDATE _ => raise KeyError
    | CONTROL _ _ => raise KeyError
    end.

(** [RecvQubitHandler] and [RecvClassicPacketHandler] *)
Definition RecvQubitHandler (event : RecvQubitPacket) : NodeM unit :=
  handle_distribution event.

Definition RecvClassicPacketHandler (event : RecvClassicPacket)
    : NodeM unit :=
  match msg (Net.packet event) with
  | HERALD _ => handle_signaling event
  | SWAP_UPDATE _ => ret tt
  | CONTROL _ _ => raise KeyError
  end.
End Generation.
End LinkLayerApp.

(** ** Sample nodes and messages

    The paths follow the scenarios of the specification: a linear path
    [S, R1, R2, R3, D] whose repeaters share rank 1 (parallel swaps), a
    longer one with four repeaters of rank 1, and the three-node path
    [S, R, D].  They are the inputs on which the properties below are
    run. *)

Module Scenario.
Import Memory Net.

(** A forwarding table with two paths of request 1. *)
Definition fib_sample : Fib.ForwardingInformationBase :=
  snd (Fib.insert_or_replace (Fib.mkFIBEntry 8 1 ["S"; "R"; "D"] [1; 0; 1] ∅)
    (snd (Fib.insert_or_replace (Fib.mkFIBEntry 7 1 ["S"; "D"] [0; 0] ∅)
       Fib.init))).

(** A swap that always succeeds; the new pair is named after the two old
    ones. *)
Definition swap_ok (a b : Epr) (ps : Q) : option Epr :=
  Some (mkEpr (epr_name a ++ "+" ++ epr_name b) "" "" 1 90 false
          (epr_path_id a) None [epr_name a; epr_name b]).

Definition uuid_sample (n : nat) : string :=
  String (Ascii.ascii_of_nat (97 + n)) "".

Definition epr_sample (f : Q) (n : string) : Epr :=
  mkEpr n "" "" f 0 false None None [].

Definition e12 : Epr := mkEpr "e12" "R1" "R2" 1 100 false (Some 0) None [].
Definition e23 : Epr := mkEpr "e23" "R2" "R3" 1 100 false (Some 0) None [].

Definition reserved_for (p : Z) (s : QubitState) : MemoryQubit :=
  mkQubit s (Some p) None None.

Definition path5 : RouteEntry :=
  mkRouteEntry 0 ["S"; "R1"; "R2"; "R3"; "D"] [0; 1; 1; 1; 0] ∅ [].
Definition path6 : RouteEntry :=
  mkRouteEntry 1 ["S"; "R0"; "R1"; "R2"; "R3"; "D"] [0; 1; 1; 1; 1; 0] ∅ [].

Definition q_R1_R2 : Channel := mkChannel "q_R1_R2" ("R1", "R2") 3.
Definition q_R2_R3 : Channel := mkChannel "q_R2_R3" ("R2", "R3") 3.
Definition c_R1_R2 : Channel := mkChannel "c_R1_R2" ("R1", "R2") 3.
Definition c_R2_R3 : Channel := mkChannel "c_R2_R3" ("R2", "R3") 3.

(** The repeater R2 with one entangled pair on each side. *)
Definition R2_with (mode : TimingModeEnum) (phase : SignalTypeEnum)
    (records : gmap string (Epr * Epr * Epr))
    (left right : list (MemoryQubit * option Epr)) : World :=
  mkWorld "R2" mode
    [mkMemory "q_R1_R2" left 50; mkMemory "q_R2_R3" right 50]
    [q_R1_R2; q_R2_R3] [c_R1_R2; c_R2_R3]
    ["S"; "R0"; "R1"; "R2"; "R3"; "D"] 10 1 []
    (mkLinkLayer EXTERNAL 1 {[ "q_R2_R3" := (q_R2_R3, "R3") ]} 0)
    (mkProactiveRouting 1 phase {[ 0 := path5; 1 := path6 ]} [] records 0).

Definition R2_async : World :=
  R2_with ASYNC INTERNAL ∅
    [(reserved_for 0 ENTANGLED, Some e12)]
    [(reserved_for 0 ENTANGLED, Some e23)].

(** The same node in SYNC mode, during the EXTERNAL phase. *)
Definition R2_sync_external : World :=
  R2_with SYNC EXTERNAL ∅
    [(reserved_for 0 ENTANGLED, Some e12)]
    [(reserved_for 0 ENTANGLED, Some e23)].

(** R1 reports a failed swap of [e12] to R2. *)
Definition swap_failed : SwapUpdate :=
  mkSwapUpdate 0 "R1" "S" "e12" None "R2" false.

Definition from_R1 (m : SwapUpdate) : RecvClassicPacket :=
  mkRecvClassic (mkClassicPacket (SWAP_UPDATE m) "R1" IsQNode "R2") c_R1_R2.

(** R2 after its own swap of [e12] with [e23]: both slots are gone and
    the two records of the parallel swap are kept. *)
Definition e13 : Epr :=
  mkEpr "e12+e23" "R1" "R3" 1 90 false (Some 0) None ["e12"; "e23"].

Definition R2_swapped : World :=
  R2_with ASYNC INTERNAL
    {[ "e12" := (e12, e23, e13); "e23" := (e23, e12, e13) ]}
    [(reserved_for 0 RELEASED, None)]
    [(reserved_for 0 RELEASED, None)].

(** The same on the longer path 1. *)
Definition f12 : Epr := epr_set_path_id e12 (Some 1).
Definition f23 : Epr := epr_set_path_id e23 (Some 1).
Definition f13 : Epr := epr_set_path_id e13 (Some 1).

Definition R2_swapped_long : World :=
  R2_with ASYNC INTERNAL
    {[ "e12" := (f12, f23, f13); "e23" := (f23, f12, f13) ]}
    [(reserved_for 1 RELEASED, None)]
    [(reserved_for 1 RELEASED, None)].

(** R1 swapped in parallel and reports the pair it made out of [e12]. *)
Definition e02 : Epr :=
  mkEpr "e01+e12" "S" "R2" 1 95 false (Some 0) None ["e01"; "e12"].

Definition swap_done : SwapUpdate :=
  mkSwapUpdate 0 "R1" "S" "e12" (Some e02) "R2" false.

(** On the longer path, a report whose new pair carries the name of the
    pair it replaces. *)
Definition e_same_name : Epr :=
  mkEpr "e12" "R0" "R2" 1 95 false (Some 1) None ["e01"; "e12"].

Definition swap_same_name : SwapUpdate :=
  mkSwapUpdate 1 "R1" "R0" "e12" (Some e_same_name) "R2" false.

(** End nodes: the source S of [S, R, D], and the source A of [A, B]. *)
Definition path3 : RouteEntry := mkRouteEntry 2 ["S"; "R"; "D"] [1; 0; 1] ∅ [].
Definition pathAB : RouteEntry := mkRouteEntry 3 ["A"; "B"] [0; 0] ∅ [].
Definition pathAS : RouteEntry := mkRouteEntry 4 ["A"; "S"] [0; 0] ∅ [].

Definition end_node (name peer : string) (mode : TimingModeEnum)
    (phase : SignalTypeEnum) (entry : RouteEntry) : World :=
  mkWorld name mode
    [mkMemory "q" [(reserved_for (re_path_id entry) ELIGIBLE,
                    Some (mkEpr "e" name peer 1 100 false
                            (Some (re_path_id entry)) None []))] 50]
    [mkChannel "q" (name, peer) 3] [mkChannel "c" (name, peer) 3]
    [name; peer] 10 1 []
    (mkLinkLayer EXTERNAL 1 ∅ 0)
    (mkProactiveRouting 1 phase {[ re_path_id entry := entry ]} [] ∅ 0).

(** A half-EPR arriving at R2 from R3 while the memory of that channel is
    full. *)
Definition e_in : Epr := mkEpr "e_in" "R3" "R2" 1 100 false (Some 0) None [].
Definition qubit_from_R3 : RecvQubitPacket := mkRecvQubit e_in q_R2_R3.

(** The repeater R of [S, R, D] before any path is installed: two free
    slots towards S, one towards D. *)
Definition free_qubit : MemoryQubit := mkQubit FREE None None None.

Definition R_fresh : World :=
  mkWorld "R" ASYNC
    [mkMemory "q_S_R" [(free_qubit, None); (free_qubit, None)] 50;
     mkMemory "q_R_D" [(free_qubit, None)] 50]
    [mkChannel "q_S_R" ("S", "R") 3; mkChannel "q_R_D" ("R", "D") 3]
    [mkChannel "c_S_R" ("S", "R") 3; mkChannel "c_R_D" ("R", "D") 3]
    ["S"; "R"; "D"] 0 1 []
    (mkLinkLayer EXTERNAL 1 ∅ 0)
    (mkProactiveRouting 1 INTERNAL ∅ [] ∅ 0).

(** The controller installs path 2 with buffer-space multiplexing and
    the qubit counts [m_v]. *)
Definition install (m_v : list Z) : RecvClassicPacket :=
  mkRecvClassic
    (mkClassicPacket
       (CONTROL 2 (mkInstructions ["S"; "R"; "D"] [1; 0; 1] ∅ "B" m_v))
       "ctrl" IsController "R")
    (mkChannel "c_ctrl_R" ("ctrl", "R") 0).
(** R2 with the qubit towards R1 already eligible on path 0. *)
Definition R2_left_eligible : World :=
  R2_with ASYNC INTERNAL ∅
    [(reserved_for 0 ELIGIBLE, Some e12)]
    [(reserved_for 0 ENTANGLED, Some e23)].

(** R2 with an empty slot towards R3: a free one, and one reserved for
    path 0. *)
Definition R2_free_right : World :=
  R2_with ASYNC INTERNAL ∅
    [(reserved_for 0 ENTANGLED, Some e12)] [(free_qubit, None)].

Definition R2_reserved_right : World :=
  R2_with ASYNC INTERNAL ∅
    [(reserved_for 0 ENTANGLED, Some e12)] [(reserved_for 0 RESERVED, None)].

(** R2 as the sender of [e23], waiting for the herald of R3. *)
Definition R2_free_left : World :=
  R2_with ASYNC INTERNAL ∅
    [(free_qubit, None)] [(reserved_for 0 OCCUPIED, Some e23)].

(** A SWAP_UPDATE of R1 for R3, in transit at R2. *)
Definition transit_update : SwapUpdate :=
  mkSwapUpdate 0 "R1" "S" "e12" None "R3" false.

Definition via_R2 (m : SwapUpdate) : RecvClassicPacket :=
  mkRecvClassic (mkClassicPacket (SWAP_UPDATE m) "R1" IsQNode "R3") c_R1_R2.

(** R after the controller installed path 2 of [S, R, D] (ranks
    [1, 0, 1]), and a SWAP_UPDATE of S addressed to it. *)
Definition R_installed : World :=
  snd (ProactiveRoutingApp.handle_control (install [2; 1]) R_fresh).

Definition update_from_S : RecvClassicPacket :=
  mkRecvClassic
    (mkClassicPacket (SWAP_UPDATE (mkSwapUpdate 2 "S" "D" "e" None "R" false))
       "S" IsQNode "R")
    (mkChannel "c_S_R" ("S", "R") 3).

(** Heralds received by R2: from R3, whose channel is active, and from R1,
    whose channel is not. *)
Definition herald_from_R3 (cmd : HeraldCmd) (name : string)
    : RecvClassicPacket :=
  mkRecvClassic
    (mkClassicPacket (HERALD (mkHerald cmd (Some 0) name)) "R3" IsQNode "R2")
    c_R2_R3.

Definition herald_from_R1 (cmd : HeraldCmd) (name : string)
    : RecvClassicPacket :=
  mkRecvClassic
    (mkClassicPacket (HERALD (mkHerald cmd (Some 0) name)) "R1" IsQNode "R2")
    c_R1_R2.

End Scenario.

(** * Properties *)

Local Set Warnings "-clear-no-such-hyp".

(** ** The forwarding information base *)

Section FibFacts.
Import PyM Fib.

Implicit Types (fib : ForwardingInformationBase) (e : FIBEntry) (p r : Z).

Lemma fib_wf_init : fib_wf init.
Proof.
  split; simpl; intros *; rewrite lookup_empty; discriminate.
Qed.

Lemma get_state fib p : snd (get p fib) = fib.
Proof.
  unfold get, try_except, table_getitem.
  destruct (table fib !! p); reflexivity.
Qed.

Lemma erase_absent fib p :
  table fib !! p = None -> erase p fib = (Returned tt, fib).
Proof.
  intros H. unfold erase, bind, try_except, table_pop, ret.
  rewrite H. reflexivity.
Qed.

Lemma erase_present fib p e s :
  table fib !! p = Some e ->
  req_path_map fib !! request_id e = Some s ->
  p ∈ s ->
  erase p fib = (Returned tt, erased p e s fib).
Proof.
  intros Ht Hr Hp.
  unfold erase, bind, try_except, table_pop, ret, req_getitem, paths_remove,
    req_delitem, erased.
  rewrite Ht. simpl. rewrite Hr.
  destruct (decide (p ∈ s)) as [_|]; [|contradiction].
  destruct (decide (s ∖ {[p]} = ∅)) as [He|He]; simpl.
  - rewrite lookup_insert_eq. reflexivity.
  - reflexivity.
Qed.

Lemma erased_req_lookup fib p e s r :
  req_path_map (erased p e s fib) !! r =
    if decide (r = request_id e)
    then (if decide (s ∖ {[p]} = ∅) then None else Some (s ∖ {[p]}))
    else req_path_map fib !! r.
Proof.
  unfold erased; simpl.
  destruct (decide (s ∖ {[p]} = ∅)); destruct (decide (r = request_id e)) as [->|Hne].
  - apply lookup_delete_eq.
  - rewrite lookup_delete_ne by congruence. apply lookup_insert_ne; congruence.
  - apply lookup_insert_eq.
  - apply lookup_insert_ne; congruence.
Qed.

Lemma erased_wf fib p e s :
  fib_wf fib ->
  table fib !! p = Some e ->
  req_path_map fib !! request_id e = Some s ->
  fib_wf (erased p e s fib).
Proof.
  intros [Hi Hb Hn] Ht Hr. split.
  - intros p' e' H'. simpl in H'.
    apply lookup_delete_Some in H' as [Hne H'].
    destruct (Hi _ _ H') as (s' & Hs' & Hin).
    rewrite erased_req_lookup.
    destruct (decide (request_id e' = request_id e)) as [Heq|Hneq].
    + rewrite Heq in Hs'. rewrite Hr in Hs'. injection Hs' as <-.
      destruct (decide (s ∖ {[p]} = ∅)) as [Hem|Hem].
      * exfalso. set_solver.
      * exists (s ∖ {[p]}). split; [reflexivity | set_solver].
    + exists s'. split; assumption.
  - intros r s' p' Hs' Hin. rewrite erased_req_lookup in Hs'. simpl.
    destruct (decide (r = request_id e)) as [->|Hneq].
    + destruct (decide (s ∖ {[p]} = ∅)); [discriminate|].
      injection Hs' as <-.
      assert (p' ∈ s) by set_solver. assert (p' <> p) by set_solver.
      destruct (Hb _ _ _ Hr H) as (e' & He' & Hre').
      exists e'. split; [|assumption].
      rewrite lookup_delete_ne by congruence. assumption.
    + destruct (Hb _ _ _ Hs' Hin) as (e' & He' & Hre').
      exists e'. split; [|assumption].
      rewrite lookup_delete_ne; [assumption|].
      intros ->. rewrite Ht in He'. injection He' as <-. congruence.
  - intros r s' Hs'. rewrite erased_req_lookup in Hs'.
    destruct (decide (r = request_id e)).
    + destruct (decide (s ∖ {[p]} = ∅)); [discriminate|].
      injection Hs' as <-. assumption.
    + eapply Hn; eassumption.
Qed.

(** [erase] on a consistent table: it returns, the entry is gone, the
    indices agree again. *)
Lemma erase_wf fib p :
  fib_wf fib ->
  exists fib',
    erase p fib = (Returned tt, fib') /\ fib_wf fib' /\
    table fib' = delete p (table fib) /\
    (forall r, p ∉ default ∅ (req_path_map fib' !! r)).
Proof.
  intros Hwf. destruct (table fib !! p) as [e|] eqn:Ht.
  - destruct (wf_indexed _ Hwf _ _ Ht) as (s & Hs & Hin).
    exists (erased p e s fib). split; [apply erase_present; assumption|].
    split; [apply erased_wf; assumption|]. split; [reflexivity|].
    intros r Hr. rewrite erased_req_lookup in Hr.
    destruct (decide (r = request_id e)) as [->|Hne].
    + destruct (decide (s ∖ {[p]} = ∅)); simpl in Hr; set_solver.
    + destruct (req_path_map fib !! r) as [s'|] eqn:Hs'; simpl in Hr;
        [|set_solver].
      destruct (wf_backed _ Hwf _ _ _ Hs' Hr) as (e' & He' & Hre').
      rewrite Ht in He'. injection He' as <-. congruence.
  - exists fib. split; [apply erase_absent; assumption|].
    split; [assumption|]. split.
    + symmetry. apply delete_id. assumption.
    + intros r Hr.
      destruct (req_path_map fib !! r) as [s'|] eqn:Hs'; simpl in Hr;
        [|set_solver].
      destruct (wf_backed _ Hwf _ _ _ Hs' Hr) as (e' & He' & _).
      congruence.
Qed.

Lemma insert_or_replace_steps fib e fib1 :
  erase (path_id e) fib = (Returned tt, fib1) ->
  insert_or_replace e fib = (Returned tt, inserted e fib1).
Proof.
  intros He.
  unfold insert_or_replace, bind. rewrite He.
  unfold table_setitem, modify, req_setdefault, paths_add, inserted. simpl.
  destruct (req_path_map fib1 !! request_id e) as [s|] eqn:Hs; simpl.
  - reflexivity.
  - unfold modify. simpl. rewrite insert_insert_eq. reflexivity.
Qed.

Lemma inserted_wf e fib1 :
  fib_wf fib1 -> table fib1 !! path_id e = None -> fib_wf (inserted e fib1).
Proof.
  intros [Hi Hb Hn] Hnone. split; simpl.
  - intros p e' H'.
    destruct (decide (p = path_id e)) as [->|Hne].
    + rewrite lookup_insert_eq in H'. injection H' as <-.
      rewrite lookup_insert_eq. eexists. split; [reflexivity|set_solver].
    + rewrite lookup_insert_ne in H' by congruence.
      destruct (Hi _ _ H') as (s & Hs & Hin).
      destruct (decide (request_id e' = request_id e)) as [Heq|Hneq].
      * rewrite Heq. rewrite lookup_insert_eq. eexists. split; [reflexivity|].
        rewrite Heq in Hs. rewrite Hs. simpl. set_solver.
      * rewrite lookup_insert_ne by congruence. eauto.
  - intros r s p Hs Hin.
    destruct (decide (r = request_id e)) as [->|Hneq].
    + rewrite lookup_insert_eq in Hs. injection Hs as <-.
      destruct (decide (p = path_id e)) as [->|Hne].
      * exists e. rewrite lookup_insert_eq. split; reflexivity.
      * rewrite lookup_insert_ne by congruence.
        destruct (req_path_map fib1 !! request_id e) as [s|] eqn:Hs;
          simpl in Hin; [|set_solver].
        apply (Hb _ s); [assumption|set_solver].
    + rewrite lookup_insert_ne in Hs by congruence.
      destruct (Hb _ _ _ Hs Hin) as (e' & He' & Hre').
      exists e'. split; [|assumption].
      rewrite lookup_insert_ne; [assumption|]. congruence.
  - intros r s Hs.
    destruct (decide (r = request_id e)) as [->|Hneq].
    + rewrite lookup_insert_eq in Hs. injection Hs as <-. set_solver.
    + rewrite lookup_insert_ne in Hs by congruence. eapply Hn; eassumption.
Qed.

(** [insert_or_replace] on a consistent table. *)
Lemma insert_or_replace_wf fib e :
  fib_wf fib ->
  exists fib',
    insert_or_replace e fib = (Returned tt, fib') /\ fib_wf fib' /\
    table fib' = <[path_id e := e]> (table fib) /\
    (forall r, path_id e ∈ list_path_ids_by_request_id r fib'
               <-> r = request_id e).
Proof.
  intros Hwf.
  destruct (erase_wf fib (path_id e) Hwf) as (fib1 & He & Hwf1 & Ht1 & Hr1).
  exists (inserted e fib1).
  split; [apply insert_or_replace_steps; assumption|].
  split; [apply inserted_wf; [assumption|rewrite Ht1; apply lookup_delete_eq]|].
  split; [simpl; rewrite Ht1; apply insert_delete_eq|].
  intros r. unfold list_path_ids_by_request_id. simpl. split.
  - intros Hin. destruct (decide (r = request_id e)) as [|Hne]; [assumption|].
    rewrite lookup_insert_ne in Hin by congruence.
    exfalso. exact (Hr1 r Hin).
  - intros ->. rewrite lookup_insert_eq. simpl. set_solver.
Qed.

(** Every state of a [ForwardingInformationBase] object is consistent. *)
Lemma fib_state_wf fib : fib_state fib -> fib_wf fib.
Proof.
  induction 1 as [|fib p _ IH|fib p _ IH|fib e _ IH].
  - apply fib_wf_init.
  - rewrite get_state. assumption.
  - destruct (erase_wf fib p IH) as (fib' & -> & Hwf & _). assumption.
  - destruct (insert_or_replace_wf fib e IH) as (fib' & -> & Hwf & _).
    assumption.
Qed.
End FibFacts.

Section FibClaims.
Import PyM Fib.

(** C5. For every state of a [ForwardingInformationBase]: [erase] of a
    [path_id] without entry returns and leaves the object as it was; and
    [insert_or_replace] of an entry returns, after which the table maps
    the entry's [path_id] to the new entry and to nothing else (every
    other key keeps its entry), the [path_id] is listed in the request
    index under the new entry's [request_id] and under no other, and a
    previous entry under that [path_id] is gone from the table and from
    the set of its own request. *)
Theorem fib_erase_absent_insert_or_replace_one_entry :
  forall fib : ForwardingInformationBase,
    fib_state fib ->
    (forall p, table fib !! p = None -> erase p fib = (Returned tt, fib)) /\
    (forall entry, exists fib',
       insert_or_replace entry fib = (Returned tt, fib') /\
       table fib' = <[path_id entry := entry]> (table fib) /\
       (forall e', table fib' !! path_id entry = Some e' <-> e' = entry) /\
       (forall r, path_id entry ∈ list_path_ids_by_request_id r fib'
                  <-> r = request_id entry) /\
       (forall old, table fib !! path_id entry = Some old ->
                    request_id old <> request_id entry ->
                    path_id entry ∉ list_path_ids_by_request_id
                                      (request_id old) fib')).
Proof.
  intros fib Hst. apply fib_state_wf in Hst. split.
  - intros p. apply erase_absent.
  - intros entry.
    destruct (insert_or_replace_wf fib entry Hst) as (fib' & Hrun & _ & Ht & Hr).
    exists fib'. split; [exact Hrun|]. split; [exact Ht|].
    split; [|split; [exact Hr|]].
    + intros e'. rewrite Ht, lookup_insert_eq. split; congruence.
    + intros old _ Hne Hin. apply Hr in Hin. congruence.
Qed.

(** C10. [get] answers the stored entry when the table has one under
    [path_id] and raises [IndexError], which is not [KeyError], when it
    has none; the table and the request index are the same afterwards. *)
Theorem fib_get_entry_or_IndexError :
  forall (fib : ForwardingInformationBase) (p : Z),
    get p fib =
      (match table fib !! p with
       | Some e => Returned e
       | None => Raised IndexError
       end, fib)
    /\ fst (get p fib) <> Raised KeyError.
Proof.
  intros fib p. unfold get, try_except, table_getitem, raise.
  destruct (table fib !! p); simpl; split; congruence.
Qed.
End FibClaims.

Lemma fib_erase_absent_insert_or_replace_one_entry_witness :
  Fib.fib_state Scenario.fib_sample /\
  Fib.erase 9 Scenario.fib_sample = (Returned tt, Scenario.fib_sample) /\
  exists fib',
    Fib.insert_or_replace (Fib.mkFIBEntry 7 2 ["S"; "D"] [0; 0] ∅) Scenario.fib_sample
      = (Returned tt, fib') /\
    7 ∈ Fib.list_path_ids_by_request_id 2 fib' /\
    7 ∉ Fib.list_path_ids_by_request_id 1 fib'.
Proof.
  assert (Hst : Fib.fib_state Scenario.fib_sample)
    by (unfold Scenario.fib_sample; repeat constructor).
  split; [exact Hst|].
  destruct (fib_erase_absent_insert_or_replace_one_entry Scenario.fib_sample Hst)
    as [Herase Hins].
  split.
  - apply Herase. vm_compute. reflexivity.
  - destruct (Hins (Fib.mkFIBEntry 7 2 ["S"; "D"] [0; 0] ∅))
      as (fib' & Hrun & _ & _ & Hreq & Hold).
    exists fib'. split; [exact Hrun|]. split.
    + apply Hreq. reflexivity.
    + apply (Hold (Fib.mkFIBEntry 7 1 ["S"; "D"] [0; 0] ∅)).
      * vm_compute. reflexivity.
      * simpl. lia.
Defined.

(** ** Link architectures *)

Section LinkArchClaims.
Import LinkArch.
Local Open Scope R_scope.

Lemma half_exponent (alpha L : R) : - alpha * L / 2 / 10 = - alpha * L / 20.
Proof. field. Qed.

(** C3. The per-attempt success probability is
    [eta_s * eta_d * 10^(-alpha*L/10)] for SR,
    [(eta_d * 10^(-alpha*L/20))^2] for SIM, whatever [eta_s] is, and
    [0.5 * (eta_s * eta_d * 10^(-alpha*L/20))^2] for DIM-BK. *)
Theorem success_prob_closed_forms :
  forall L alpha eta_s eta_d : R,
    success_prob LinkArchSr L alpha eta_s eta_d
      = eta_s * eta_d * Rpower 10 (- alpha * L / 10)
    /\ success_prob LinkArchSim L alpha eta_s eta_d
      = (eta_d * Rpower 10 (- alpha * L / 20)) ^ 2
    /\ (forall eta_s' : R,
          success_prob LinkArchSim L alpha eta_s' eta_d
          = success_prob LinkArchSim L alpha eta_s eta_d)
    /\ success_prob LinkArchDimBk L alpha eta_s eta_d
      = 0.5 * (eta_s * eta_d * Rpower 10 (- alpha * L / 20)) ^ 2.
Proof.
  intros L alpha eta_s eta_d. simpl.
  unfold sr_success_prob, sim_success_prob, dim_bk_success_prob.
  rewrite half_exponent. repeat split; reflexivity.
Qed.



End LinkArchClaims.



(** ** Segment lengths *)

Section PathGenClaims.
Import PathGen.

Lemma sum_list_times (x n : Z) : 0 <= n -> sum (list_times x n) = n * x.
Proof.
  intros Hn. unfold list_times.
  rewrite <- (Z2Nat.id n) at 2 by assumption.
  induction (Z.to_nat n) as [|m IH]; simpl.
  - reflexivity.
  - rewrite IH. lia.
Qed.

(** C8. For a nonnegative integer distance [L] and [n >= 0] routers, the
    uniform distribution is a list of [n+1] segment lengths, the single
    segment [[L]] when [n = 0], whose sum is at most [L] and falls short
    of [L] by at most [n+1]. *)
Theorem uniform_distribution_sum_bounds :
  forall L n : Z,
    0 <= L -> 0 <= n ->
    exists segments,
      compute_distances_distribution L n "uniform" = Returned segments
      /\ Z.of_nat (length segments) = n + 1
      /\ (n = 0 -> segments = [L])
      /\ sum segments <= L
      /\ L - sum segments <= n + 1.
Proof.
  intros L n HL Hn. unfold compute_distances_distribution.
  destruct (Z.eqb_spec n 0) as [->|Hne].
  - exists [L]. simpl. repeat split; lia.
  - simpl. unfold floordiv.
    destruct (Z.eqb_spec (n + 1) 0) as [H0|_]; [lia|].
    exists (list_times (L / (n + 1)) (n + 1)).
    split; [reflexivity|]. split; [|split; [lia|]].
    + unfold list_times. rewrite repeat_length. lia.
    + rewrite sum_list_times by lia.
      pose proof (Z.mul_div_le L (n + 1) ltac:(lia)).
      pose proof (Z.mod_pos_bound L (n + 1) ltac:(lia)).
      pose proof (Z.div_mod L (n + 1) ltac:(lia)).
      lia.
Qed.
End PathGenClaims.

Lemma uniform_distribution_sum_bounds_witness :
  exists segments,
    PathGen.compute_distances_distribution 150 3 "uniform" = Returned segments
    /\ Z.of_nat (length segments) = 3 + 1
    /\ (3 = 0 -> segments = [150])
    /\ PathGen.sum segments <= 150
    /\ 150 - PathGen.sum segments <= 3 + 1.
Proof.
  apply (uniform_distribution_sum_bounds 150 3); lia.
Defined.

(** ** The forwarder and the link layer *)

Section NodeFacts.
Import PyM Memory Net.

Lemma the_memory_lookup (i : nat) (w : World) (m : QuantumMemory) :
  memories w !! i = Some m -> the_memory i w = m.
Proof. intros H. unfold the_memory. rewrite H. reflexivity. Qed.

Lemma the_memory_put (i : nat) (m m0 : QuantumMemory) (w : World) :
  memories w !! i = Some m0 -> the_memory i (put_memory i m w) = m.
Proof.
  intros H. unfold the_memory, put_memory. simpl.
  rewrite list_lookup_insert_eq; [reflexivity|].
  eapply lookup_lt_Some; eassumption.
Qed.

Lemma put_memory_lookup (i : nat) (m m0 : QuantumMemory) (w : World) :
  memories w !! i = Some m0 -> memories (put_memory i m w) !! i = Some m.
Proof.
  intros H. unfold put_memory. simpl.
  rewrite list_lookup_insert_eq; [reflexivity|].
  eapply lookup_lt_Some; eassumption.
Qed.

Lemma find_cell_holds (f : MemoryQubit * option Epr -> bool)
    (st : list (MemoryQubit * option Epr)) (i : nat) :
  find_cell f st = Some i -> exists c, st !! i = Some c /\ f c = true.
Proof.
  revert i. induction st as [|c st IH]; intros i; simpl; [discriminate|].
  destruct (f c) eqn:Hf.
  - intros [= <-]. exists c. split; [reflexivity|assumption].
  - destruct (find_cell f st) as [j|]; simpl; [|discriminate].
    intros [= <-]. apply (IH j). reflexivity.
Qed.

(** A cell found by the name of its EPR holds an EPR. *)
Lemma get_by_name_cell (n : string) (m : QuantumMemory) (c : nat)
    (q : MemoryQubit) (e : Epr) :
  Memory.get (ByName n) m = Some (c, q, e) ->
  storage m !! c = Some (q, Some e) /\ epr_name e = n.
Proof.
  unfold Memory.get. simpl.
  destruct (find_cell (holds_name n) (storage m)) as [i|] eqn:Hf; [|discriminate].
  destruct (find_cell_holds _ _ _ Hf) as ([q' d] & Hc & Hh).
  rewrite Hc. destruct d as [e'|]; [|discriminate].
  intros [= <- <- <-]. split; [assumption|].
  unfold holds_name in Hh. simpl in Hh. apply String.eqb_eq. assumption.
Qed.

(** Reading a cell that holds an EPR by its address empties it. *)
Lemma read_by_addr (m : QuantumMemory) (c : nat) (q : MemoryQubit) (e : Epr) :
  storage m !! c = Some (q, Some e) ->
  Memory.read (ByAddr (Z.of_nat c)) m
  = (Some (c, q, e), mem_set_storage m (<[c := (q, None)]> (storage m))).
Proof.
  intros H. unfold Memory.read, Memory.get. simpl.
  destruct (Z.ltb_spec (Z.of_nat c) 0) as [Hneg|_]; [lia|].
  rewrite Nat2Z.id, H. reflexivity.
Qed.
End NodeFacts.

Section ForwarderFacts.
Import PyM Memory Net ProactiveRoutingApp.

Lemma get_memory_qubit_from_spec (ms : list QuantumMemory) (n : string)
    (k i : nat) (r : QubitRef) :
  get_memory_qubit_from k ms n = Some (i, r) ->
  exists j c q e m,
    i = (k + j)%nat /\ r = (i, c) /\ ms !! j = Some m /\
    Memory.get (ByName n) m = Some (c, q, e).
Proof.
  revert k. induction ms as [|m ms IH]; intros k; simpl; [discriminate|].
  destruct (Memory.get (ByName n) m) as [[[c q] e]|] eqn:Hg.
  - intros [= <- <-]. exists O, c, q, e, m.
    split; [lia|]. split; [reflexivity|]. split; [reflexivity|assumption].
  - intros H. destruct (IH _ H) as (j & c & q & e & m' & -> & -> & Hm & Hg').
    exists (S j), c, q, e, m'.
    split; [lia|]. split; [reflexivity|]. split; assumption.
Qed.

(** The slot [get_memory_qubit] answers holds the named EPR. *)
Lemma get_memory_qubit_spec (n : string) (w : World) (i : nat) (r : QubitRef) :
  get_memory_qubit n w = Some (i, r) ->
  exists c q e m,
    r = (i, c) /\ memories w !! i = Some m /\
    storage m !! c = Some (q, Some e) /\ epr_name e = n.
Proof.
  intros H. apply get_memory_qubit_from_spec in H
    as (j & c & q & e & m & -> & -> & Hm & Hg).
  apply get_by_name_cell in Hg as [Hc Hn].
  exists c, q, e, m. repeat split; assumption.
Qed.

(** What [release_slot] does to a slot that holds an EPR. *)
Lemma release_slot_run (w : World) (qmem c : nat) (m : QuantumMemory)
    (q : MemoryQubit) (e : Epr) :
  memories w !! qmem = Some m ->
  storage m !! c = Some (q, Some e) ->
  exists w',
    release_slot qmem (qmem, c) w = (Returned tt, w') /\
    storage (the_memory qmem w') !! c = Some (to_release q, None) /\
    trace w' = trace w ++ [AddEvent (QubitReleasedEvent (qmem, c) false (tc w) qmem)] /\
    net_layer w' = net_layer w /\ link_layer w' = link_layer w.
Proof.
  intros Hm Hc.
  unfold release_slot, release_event, bind, qmem_read, qubit_addr. simpl.
  rewrite (the_memory_lookup _ _ _ Hm), (read_by_addr _ _ _ _ Hc).
  unfold qubit_fsm, modify, gets, add_event, modify. simpl.
  eexists. split; [reflexivity|]. simpl.
  rewrite !(the_memory_put _ _ _ _ Hm).
  unfold on_qubit. simpl.
  assert (Hlt : (c < length (storage m))%nat) by (eapply lookup_lt_Some; eassumption).
  rewrite list_lookup_insert_eq by assumption.
  unfold put_memory at 1. simpl.
  repeat split.
  unfold the_memory. simpl.
  rewrite list_lookup_insert_eq.
  - simpl. rewrite list_lookup_insert_eq; [reflexivity|].
    rewrite length_insert. assumption.
  - rewrite length_insert. eapply lookup_lt_Some; eassumption.
Qed.

Lemma rank_of_run (fib_entry : RouteEntry) (name : string) (r : Z) (w : World) :
  rank_of fib_entry name = Some r ->
  exists i,
    index_of (re_path_vector fib_entry) name w = (Returned i, w) /\
    item (re_swap_sequence fib_entry) i w = (Returned r, w).
Proof.
  unfold rank_of, index_of, item.
  destruct (list_index (re_path_vector fib_entry) name) as [i|]; [|discriminate].
  intros H. exists (Z.of_nat i). rewrite H. split; reflexivity.
Qed.

(** The head of [handle_signaling] for a SWAP_UPDATE addressed to the node
    itself, past the phase test and the FIB lookup: what is left is the
    branch chosen by the two ranks. *)
Lemma handle_signaling_destination swapping (w : World)
    (packet : RecvClassicPacket) (m : SwapUpdate) (fib_entry : RouteEntry)
    (sender_rank own_rank : Z) :
  msg (Net.packet packet) = SWAP_UPDATE m ->
  destination m = own w ->
  outside_internal_phase w = false ->
  get_entry (su_path_id m) w = Some fib_entry ->
  rank_of fib_entry (swapping_node m) = Some sender_rank ->
  rank_of fib_entry (own w) = Some own_rank ->
  handle_signaling swapping packet w =
    if Z.ltb sender_rank own_rank then
      signaling_higher_rank swapping m fib_entry w
    else if Z.eqb own_rank sender_rank then
      signaling_same_rank swapping m fib_entry own_rank w
    else (Returned tt, w).
Proof.
  intros Hmsg Hdest Hphase Hfib Hs Ho.
  destruct (rank_of_run _ _ _ w Hs) as (si & Hsi & Hsr).
  destruct (rank_of_run _ _ _ w Ho) as (oi & Hoi & Hor).
  unfold handle_signaling. rewrite Hmsg.
  unfold bind, gets. rewrite Hphase, Hfib, Hsi, Hsr, Hoi, Hor, Hdest.
  rewrite String.eqb_refl.
  destruct (Z.ltb sender_rank own_rank); [reflexivity|].
  destruct (Z.eqb own_rank sender_rank); reflexivity.
Qed.
End ForwarderFacts.

Section ForwarderClaims.
Import PyM Memory Net ProactiveRoutingApp.

(** C1 (as amended).  A SWAP_UPDATE [m] with [new_epr = None] whose
    destination is the receiving node, handled while the node is not in
    SYNC mode outside its INTERNAL phase and holds a FIB entry for
    [m.path_id] that ranks both the sender and itself: if the node still
    holds a slot for the EPR named [m.epr], the handler returns, that slot
    has been read out (it holds no EPR any more), its qubit is in the
    released state, and one [QubitReleasedEvent] for it has been handed to
    the simulator at the current time.  This holds when the receiver's rank
    is strictly greater than the sender's and when the two are equal. *)
Theorem swap_update_without_epr_releases_slot :
  forall swapping (w : World) (packet : RecvClassicPacket) (m : SwapUpdate)
         (fib_entry : RouteEntry) (sender_rank own_rank : Z)
         (qmem : nat) (qubit : QubitRef),
    msg (Net.packet packet) = SWAP_UPDATE m ->
    new_epr m = None ->
    destination m = own w ->
    outside_internal_phase w = false ->
    get_entry (su_path_id m) w = Some fib_entry ->
    rank_of fib_entry (swapping_node m) = Some sender_rank ->
    rank_of fib_entry (own w) = Some own_rank ->
    sender_rank <= own_rank ->
    get_memory_qubit (epr m) w = Some (qmem, qubit) ->
    exists w' q e,
      handle_signaling swapping packet w = (Returned tt, w')
      /\ fst qubit = qmem
      /\ storage (the_memory qmem w) !! snd qubit = Some (q, Some e)
      /\ epr_name e = epr m
      /\ storage (the_memory qmem w') !! snd qubit = Some (to_release q, None)
      /\ trace w' = trace w
                    ++ [AddEvent (QubitReleasedEvent qubit false (tc w) qmem)].
Proof.
  intros swapping w packet m fib_entry sender_rank own_rank qmem qubit
    Hmsg Hnone Hdest Hphase Hfib Hs Ho Hle Hslot.
  rewrite (handle_signaling_destination swapping w packet m fib_entry
             sender_rank own_rank Hmsg Hdest Hphase Hfib Hs Ho).
  destruct (get_memory_qubit_spec _ _ _ _ Hslot)
    as (c & q & e & mem & -> & Hmem & Hcell & Hname).
  destruct (release_slot_run w qmem c mem q e Hmem Hcell)
    as (w' & Hrun & Hcell' & Htrace & _ & _).
  destruct (Z.ltb_spec sender_rank own_rank) as [Hlt|Hge].
  - exists w', q, e.
    unfold signaling_higher_rank, bind, gets, lost.
    rewrite Hslot, Hnone. simpl. rewrite Hrun.
    rewrite (the_memory_lookup _ _ _ Hmem). auto 10.
  - assert (own_rank = sender_rank) as -> by lia.
    rewrite Z.eqb_refl.
    unfold signaling_same_rank, bind, gets, lost.
    rewrite Hslot, Hnone.
    unfold parallel_pop, modify.
    set (w1 := set_net_layer w _).
    destruct (release_slot_run w1 qmem c mem q e Hmem Hcell)
      as (w1' & Hrun1 & Hcell1 & Htrace1 & _ & _).
    exists w1', q, e. simpl. rewrite Hrun1.
    rewrite (the_memory_lookup _ _ _ Hmem). auto 10.
Qed.
End ForwarderClaims.

Section EligibleClaims.
Import PyM Memory Net ProactiveRoutingApp.

(** C2 (as amended).  When [eligible] runs, past its SYNC phase test, for
    a qubit that holds an EPR at an end node of the path (the node's index
    in [path_vector] is 0 or the last one), it returns, the slot has been
    read out and its qubit released, [e2e_count] has grown by exactly one,
    and one [QubitReleasedEvent] has been handed to the simulator, whose
    [e2e] flag is true if and only if the name of the node is ["S"]. *)
Theorem eligible_end_node_consumes :
  forall swapping (w : World) (qmem c : nat) (fib_entry : RouteEntry)
         (own_idx : nat) (mem : QuantumMemory) (q : MemoryQubit) (e : Epr),
    outside_internal_phase w = false ->
    list_index (re_path_vector fib_entry) (own w) = Some own_idx ->
    own_idx = O \/ S own_idx = length (re_path_vector fib_entry) ->
    memories w !! qmem = Some mem ->
    storage mem !! c = Some (q, Some e) ->
    exists w' flag,
      eligible swapping qmem (qmem, c) fib_entry w = (Returned tt, w')
      /\ storage (the_memory qmem w') !! c = Some (to_release q, None)
      /\ e2e_count (net_layer w') = e2e_count (net_layer w) + 1
      /\ trace w' = trace w
                    ++ [AddEvent (QubitReleasedEvent (qmem, c) flag (tc w) qmem)]
      /\ (flag = true <-> own w = "S").
Proof.
  intros swapping w qmem c fib_entry own_idx mem q e Hphase Hidx Hend Hmem Hcell.
  unfold eligible, bind, gets, index_of. rewrite Hphase, Hidx.
  assert (Hbranch :
    Z.ltb 0 (Z.of_nat own_idx)
    && Z.ltb (Z.of_nat own_idx)
         (Z.of_nat (length (re_path_vector fib_entry)) - 1) = false).
  { destruct Hend as [->|Hlast].
    - reflexivity.
    - apply andb_false_iff. right. apply Z.ltb_ge. lia. }
  rewrite Hbranch.
  unfold qmem_read, qubit_addr. simpl.
  rewrite (the_memory_lookup _ _ _ Hmem), (read_by_addr _ _ _ _ Hcell).
  unfold qubit_fsm, modify, add_event, modify. simpl.
  eexists. exists (String.eqb (own w) "S").
  split; [reflexivity|]. simpl.
  rewrite !(the_memory_put _ _ _ _ Hmem).
  assert (Hlt : (c < length (storage mem))%nat)
    by (eapply lookup_lt_Some; eassumption).
  unfold on_qubit. simpl. rewrite list_lookup_insert_eq by assumption.
  split.
  - unfold the_memory, put_memory. simpl.
    rewrite list_lookup_insert_eq.
    + simpl. rewrite list_lookup_insert_eq; [reflexivity|].
      rewrite length_insert. assumption.
    + rewrite length_insert. eapply lookup_lt_Some; eassumption.
  - split; [reflexivity|]. split; [reflexivity|].
    apply String.eqb_eq.
Qed.
End EligibleClaims.

Section LinkLayerFacts.
Import PyM Memory Net LinkLayerApp.

(** The node at the other end of a channel of which the node itself is
    one end. *)
Lemma other_end_sender (c : Channel) (w : World) (sender : string) :
  node_list c = (sender, own w) \/ node_list c = (own w, sender) ->
  other_end c w = sender.
Proof.
  unfold other_end. intros [H|H]; rewrite H; simpl.
  - rewrite String.eqb_refl. reflexivity.
  - destruct (String.eqb_spec sender (own w)) as [Heq|_];
      [symmetry; exact Heq|reflexivity].
Qed.
End LinkLayerFacts.

Section LinkLayerClaims.
Import PyM Memory Net LinkLayerApp.

(** C4.  When the write of [generate_entanglement] into the sender-side
    memory returns no qubit, the attempt is dropped silently: the handler
    returns, nothing has been handed to a channel or to the simulator and
    the memories are as before.  When [handle_distribution] gets to store
    an incoming half-EPR and the write into the receiver-side memory
    returns [None], the handler returns after sending exactly one classical
    message, [epr_failed] with the [path_id] and the name of the EPR,
    addressed to the sender, the node at the other end of the quantum
    channel the qubit arrived on, and handed to the classic channel to
    that node. *)
Theorem memory_full_drops_attempt_or_sends_epr_failed :
  forall (uuid4_hex : nat -> string) (WernerStateEntanglement : Q -> string -> Epr)
         (w : World),
    (forall (qchannel : Channel) (next_hop : string) (qmemory : nat)
            (address : option Z),
       (forall qm, fst (Memory.write qm None address (the_memory qmemory w)) = None) ->
       exists w',
         generate_entanglement uuid4_hex WernerStateEntanglement
           qchannel next_hop qmemory address w = (Returned tt, w')
         /\ trace w' = trace w
         /\ memories w' = memories w)
    /\
    (forall (packet : RecvQubitPacket) (sender : string) (cchannel : Channel)
            (qmemory : nat),
       let epr := rq_qubit packet in
       (node_list (rq_qchannel packet) = (sender, own w)
        \/ node_list (rq_qchannel packet) = (own w, sender)) ->
       outside_external_phase w = false ->
       get_cchannel (Some sender) w = Some cchannel ->
       memory_position (ch_name (rq_qchannel packet)) (memories w) = Some qmemory ->
       fst (Memory.write epr (epr_path_id epr) None (the_memory qmemory w)) = None ->
       exists w',
         handle_distribution packet w = (Returned tt, w')
         /\ trace w' = trace w
              ++ [ClassicSend cchannel
                    {| msg := HERALD {| h_cmd := epr_failed;
                                        h_path_id := epr_path_id epr;
                                        epr_id := epr_name epr |};
                       pkt_src := own w; pkt_src_entity := IsQNode;
                       pkt_dest := sender |}
                    sender None]
         /\ memories w' = memories w).
Proof.
  intros uuid4_hex WSE w. split.
  - intros qchannel next_hop qmemory address Hfull.
    unfold generate_entanglement, bind, gets, ret.
    destruct (outside_external_phase w); [eauto|].
    destruct (is_active qchannel w); simpl; [|eauto].
    unfold qmem_write. simpl.
    match goal with
    | |- context [Memory.write ?qm None address ?m] =>
        change m with (the_memory qmemory w);
        pose proof (Hfull qm) as Hw;
        destruct (Memory.write qm None address (the_memory qmemory w))
          as [[[i q']|] m']
    end; simpl in Hw; [discriminate|].
    eexists. split; [reflexivity|]. split; reflexivity.
  - intros packet sender cchannel qmemory epr Hends Hphase Hch Hmem Hfull.
    apply other_end_sender in Hends.
    unfold handle_distribution, bind, gets, ret.
    rewrite Hphase, Hends, Hch. fold epr.
    unfold cchannel_send, modify, herald.
    destruct (is_decoherenced epr).
    + eexists. split; [reflexivity|]. split; reflexivity.
    + unfold memory_named. rewrite Hmem.
      unfold qmem_write.
      destruct (Memory.write epr (epr_path_id epr) None (the_memory qmemory w))
        as [[[i q']|] m']; simpl in Hfull; [discriminate|].
      eexists. split; [reflexivity|]. split; reflexivity.
Qed.
End LinkLayerClaims.

Section AllocationFacts.
Import PyM Memory Net ProactiveRoutingApp.

(** The allocation loop never raises: a failed [allocate] answers [-1]. *)
Lemma allocate_times_returns (n qmem : nat) (path_id : Z) (w : World) :
  exists addresses w',
    allocate_times n qmem path_id w = (Returned addresses, w')
    /\ length addresses = n.
Proof.
  revert w. induction n as [|n IH]; intros w; simpl.
  - exists [], w. split; reflexivity.
  - unfold bind, qmem_allocate.
    destruct (Memory.allocate path_id (the_memory qmem w)) as [a m'].
    destruct (IH (put_memory qmem m' w)) as (l & w' & Hrun & Hlen).
    rewrite Hrun. exists (a :: l), w'. split; [reflexivity|].
    simpl. rewrite Hlen. reflexivity.
Qed.

(** The test of [handle_control] on a requested count: it allocates when
    the count reaches or exceeds the free slots and raises when the free
    slots exceed the count. *)
Lemma allocate_requested_test (num : Z) (qmem : nat) (path_id : Z) (w : World) :
  num <> 0 ->
  (free (the_memory qmem w) <= num ->
   allocate_requested (Some num) (Some qmem) path_id w
   = allocate_times (Z.to_nat num) qmem path_id w)
  /\ (num < free (the_memory qmem w) ->
      allocate_requested (Some num) (Some qmem) path_id w
      = (Raised (Exception "Not enough qubits left for this allocation."), w)).
Proof.
  intros Hnum. unfold allocate_requested, bind, gets, raise.
  destruct (Z.eqb_spec num 0) as [|_]; [contradiction|].
  split; intros H.
  - destruct (Z.leb_spec (free (the_memory qmem w)) num); [reflexivity|lia].
  - destruct (Z.leb_spec (free (the_memory qmem w)) num); [lia|reflexivity].
Qed.
End AllocationFacts.

Section ParallelSwapFacts.
Import PyM Memory Net ProactiveRoutingApp.

(** Handlers that leave the attributes of the forwarder alone. *)
Lemma send_swap_update_net_layer (dest : string) (m : SwapUpdate)
    (route : list string) (d : bool) (w : World) :
  net_layer (snd (send_swap_update dest m route d w)) = net_layer w.
Proof.
  unfold send_swap_update, bind, gets, index_of, item, cchannel_send,
    modify, raise.
  repeat case_match; simplify_eq; reflexivity.
Qed.

Lemma release_slot_net_layer (qmem : nat) (qubit : QubitRef) (w : World) :
  net_layer (snd (release_slot qmem qubit w)) = net_layer w.
Proof.
  unfold release_slot, release_event, bind, gets, qmem_read, qubit_fsm,
    add_event, modify.
  repeat case_match; simplify_eq; reflexivity.
Qed.

Lemma qmem_update_net_layer (qmem : nat) (old : string) (ne : Epr) (w : World) :
  net_layer (snd (qmem_update qmem old ne w)) = net_layer w.
Proof.
  unfold qmem_update. repeat case_match; simplify_eq; reflexivity.
Qed.

Lemma handle_signaling_returned_phase swapping (packet : RecvClassicPacket)
    (m : SwapUpdate) (w w' : World) :
  msg (Net.packet packet) = SWAP_UPDATE m ->
  handle_signaling swapping packet w = (Returned tt, w') ->
  outside_internal_phase w = false.
Proof.
  intros Hmsg. unfold handle_signaling, bind, gets, raise. rewrite Hmsg.
  destruct (outside_internal_phase w); [discriminate|reflexivity].
Qed.

Abbreviation records w := (parallel_swappings (net_layer w)).

(** What a returning [signaling_merge] leaves in [parallel_swappings]. *)
Lemma signaling_merge_records swapping (m : SwapUpdate)
    (fib_entry : RouteEntry) (own_rank : Z) (record : Epr * Epr * Epr)
    (w w' : World) :
  signaling_merge swapping m fib_entry own_rank record w = (Returned tt, w') ->
  records w' = delete (epr m) (records w)
  \/ exists ne r, new_epr m = Some ne
       /\ records w' = <[epr_name ne := r]> (delete (epr m) (records w)).
Proof.
  destruct record as [[shared_epr other_epr] my_new_epr].
  unfold signaling_merge, bind, gets.
  destruct (lost m w) eqn:Hlost; [|destruct (new_epr m) as [ne|] eqn:Hne].
  - (* the sender's swap is lost *)
    destruct (String.eqb (epr_dst other_epr) (own w)).
    all: match goal with
    | |- context [send_swap_update ?d ?f ?r ?b ?w0] =>
        pose proof (send_swap_update_net_layer d f r b w0) as Hframe;
        destruct (send_swap_update d f r b w0) as [[[]|ex] w1]
    end; [|discriminate]; simpl in Hframe.
    all: unfold parallel_pop, modify; intros [= <-]; left; simpl;
      rewrite Hframe; reflexivity.
  - (* both swaps succeeded: merge *)
    set (merged := swapping ne other_epr 1%Q).
    destruct (String.eqb (epr_dst other_epr) (own w)).
    all: match goal with
    | |- context [send_swap_update ?d ?f ?r ?b ?w0] =>
        pose proof (send_swap_update_net_layer d f r b w0) as Hframe;
        destruct (send_swap_update d f r b w0) as [[[]|ex] w1]
    end; [|discriminate]; simpl in Hframe.
    all: unfold parallel_pop, parallel_set, modify, index_of, item.
    all: repeat case_match; simplify_eq; try discriminate.
    all: intros [= <-]; simpl; rewrite Hframe; eauto.
  - (* [lost] is false only for a message that carries a pair *)
    unfold lost in Hlost. rewrite Hne in Hlost. discriminate.
Qed.

(** What a returning [signaling_same_rank] leaves in
    [parallel_swappings]. *)
Lemma signaling_same_rank_records swapping (m : SwapUpdate)
    (fib_entry : RouteEntry) (own_rank : Z) (w w' : World) :
  signaling_same_rank swapping m fib_entry own_rank w = (Returned tt, w') ->
  records w' = delete (epr m) (records w)
  \/ exists ne r, new_epr m = Some ne
       /\ records w' = <[epr_name ne := r]> (delete (epr m) (records w)).
Proof.
  unfold signaling_same_rank, bind, gets.
  destruct (get_memory_qubit (epr m) w) as [[qmem qubit]|].
  - unfold parallel_pop, modify.
    set (w1 := set_net_layer w _).
    destruct (lost m w1); [|destruct (new_epr m) as [ne|]].
    + pose proof (release_slot_net_layer qmem qubit w1) as Hframe.
      intros Hrun. rewrite Hrun in Hframe. left. simpl in Hframe.
      rewrite Hframe. reflexivity.
    + pose proof (qmem_update_net_layer qmem (epr m) ne w1) as Hframe.
      destruct (qmem_update qmem (epr m) ne w1) as [[b|ex] w2]; [|discriminate].
      intros [= <-]. left. simpl in Hframe. rewrite Hframe. reflexivity.
    + pose proof (release_slot_net_layer qmem qubit w1) as Hframe.
      intros Hrun. rewrite Hrun in Hframe. left. simpl in Hframe.
      rewrite Hframe. reflexivity.
  - destruct (records w !! epr m) as [record|] eqn:Hrec.
    + apply signaling_merge_records.
    + intros [= <-]. left. symmetry. apply delete_id. assumption.
Qed.
End ParallelSwapFacts.

Section ParallelSwapClaims.
Import PyM Memory Net ProactiveRoutingApp.

(** C9 (as amended).  When [handle_signaling] returns from a SWAP_UPDATE
    [m] addressed to the node itself by a sender of the node's own rank,
    every record then in [parallel_swappings] either was there before
    under a key other than [m.epr], or is keyed by the name of the
    received [new_epr]; so, provided the name of [new_epr] is not
    [m.epr], no record is keyed by [m.epr] afterwards. *)
Theorem same_rank_swap_update_consumes_record :
  forall swapping (w w' : World) (packet : RecvClassicPacket)
         (m : SwapUpdate) (fib_entry : RouteEntry) (rank : Z),
    msg (Net.packet packet) = SWAP_UPDATE m ->
    destination m = own w ->
    get_entry (su_path_id m) w = Some fib_entry ->
    rank_of fib_entry (swapping_node m) = Some rank ->
    rank_of fib_entry (own w) = Some rank ->
    handle_signaling swapping packet w = (Returned tt, w') ->
    (forall k r,
       parallel_swappings (net_layer w') !! k = Some r ->
       (k <> epr m /\ parallel_swappings (net_layer w) !! k = Some r)
       \/ exists ne, new_epr m = Some ne /\ k = epr_name ne)
    /\ ((forall ne, new_epr m = Some ne -> epr_name ne <> epr m) ->
        parallel_swappings (net_layer w') !! epr m = None).
Proof.
  intros swapping w w' packet m fib_entry rank Hmsg Hdest Hfib Hs Ho Hrun.
  pose proof (handle_signaling_returned_phase _ _ _ _ _ Hmsg Hrun) as Hphase.
  rewrite (handle_signaling_destination swapping w packet m fib_entry
             rank rank Hmsg Hdest Hphase Hfib Hs Ho) in Hrun.
  rewrite Z.ltb_irrefl, Z.eqb_refl in Hrun.
  apply signaling_same_rank_records in Hrun.
  assert (Hkeys : forall k r,
    parallel_swappings (net_layer w') !! k = Some r ->
    (k <> epr m /\ parallel_swappings (net_layer w) !! k = Some r)
    \/ exists ne, new_epr m = Some ne /\ k = epr_name ne).
  { intros k r Hk.
    destruct Hrun as [Heq|(ne & r' & Hne & Heq)]; rewrite Heq in Hk.
    - apply lookup_delete_Some in Hk as [Hk1 Hk2].
      left. split; [congruence|assumption].
    - destruct (decide (k = epr_name ne)) as [->|Hneq].
      + right. exists ne. split; [assumption|reflexivity].
      + rewrite lookup_insert_ne in Hk by congruence.
        apply lookup_delete_Some in Hk as [Hk1 Hk2].
        left. split; [congruence|assumption]. }
  split; [exact Hkeys|].
  intros Hfresh.
  apply eq_None_not_Some. intros [r Hk].
  destruct (Hkeys _ _ Hk) as [[Hne _]|(ne & Hne & Heq)].
  - congruence.
  - exfalso. apply (Hfresh ne Hne). congruence.
Qed.
End ParallelSwapClaims.

(** ** The properties on the sample nodes *)

Section Runs.
Import PyM Memory Net ProactiveRoutingApp LinkLayerApp Scenario.

Lemma swap_update_without_epr_releases_slot_witness :
  exists w' q e,
    ProactiveRoutingApp.handle_signaling swap_ok (from_R1 swap_failed) R2_async
      = (Returned tt, w')
    /\ fst (O, O) = O
    /\ storage (the_memory O R2_async) !! snd (O, O) = Some (q, Some e)
    /\ epr_name e = epr swap_failed
    /\ storage (the_memory O w') !! snd (O, O) = Some (to_release q, None)
    /\ trace w' = trace R2_async
                  ++ [AddEvent (QubitReleasedEvent (O, O) false (tc R2_async) O)].
Proof.
  apply (swap_update_without_epr_releases_slot swap_ok R2_async
           (from_R1 swap_failed) swap_failed path5 1 1 O (O, O));
    reflexivity.
Defined.

(** C1, as the claim states it, fails in SYNC mode outside the INTERNAL
    phase: the message carries no new pair, names the node as destination
    and comes from a node of the same rank, the node holds the slot of
    [e12], and the handler stops at its phase test with the slot, the
    qubit and the event queue untouched. *)
Lemma swap_update_without_epr_outside_internal_phase :
  msg (packet (from_R1 swap_failed)) = SWAP_UPDATE swap_failed
  /\ new_epr swap_failed = None
  /\ destination swap_failed = own R2_sync_external
  /\ rank_of path5 (swapping_node swap_failed) = Some 1
  /\ rank_of path5 (own R2_sync_external) = Some 1
  /\ get_memory_qubit (epr swap_failed) R2_sync_external = Some (O, (O, O))
  /\ ProactiveRoutingApp.handle_signaling swap_ok (from_R1 swap_failed)
       R2_sync_external
     = (Raised NameError, R2_sync_external).
Proof. repeat split; reflexivity. Qed.

Lemma eligible_end_node_consumes_witness :
  exists w' flag,
    eligible swap_ok O (O, O) path3 (end_node "S" "R" ASYNC INTERNAL path3)
      = (Returned tt, w')
    /\ storage (the_memory O w') !! O
       = Some (to_release (reserved_for 2 ELIGIBLE), None)
    /\ e2e_count (net_layer w')
       = e2e_count (net_layer (end_node "S" "R" ASYNC INTERNAL path3)) + 1
    /\ trace w' = trace (end_node "S" "R" ASYNC INTERNAL path3)
                  ++ [AddEvent (QubitReleasedEvent (O, O) flag
                                  (tc (end_node "S" "R" ASYNC INTERNAL path3)) O)]
    /\ (flag = true <-> own (end_node "S" "R" ASYNC INTERNAL path3) = "S").
Proof.
  eapply (eligible_end_node_consumes swap_ok
            (end_node "S" "R" ASYNC INTERNAL path3) O O path3 O);
    try reflexivity.
  left. reflexivity.
Defined.

(** C2, as the claim states it, fails on the flag: at the source endpoint
    A of the path [A, B] the event carries [e2e = False], at the
    destination endpoint S of the path [A, S] it carries [e2e = True]; and
    in SYNC mode outside the INTERNAL phase [eligible] stops at its phase
    test without consuming anything. *)
Lemma eligible_end_node_flag_follows_name :
  (list_index (re_path_vector pathAB) "A" = Some O
   /\ fst (eligible swap_ok O (O, O) pathAB
             (end_node "A" "B" ASYNC INTERNAL pathAB)) = Returned tt
   /\ trace (snd (eligible swap_ok O (O, O) pathAB
                    (end_node "A" "B" ASYNC INTERNAL pathAB)))
      = [AddEvent (QubitReleasedEvent (O, O) false 10 O)])
  /\ (list_index (re_path_vector pathAS) "S" = Some 1%nat
      /\ length (re_path_vector pathAS) = 2%nat
      /\ fst (eligible swap_ok O (O, O) pathAS
                (end_node "S" "A" ASYNC INTERNAL pathAS)) = Returned tt
      /\ trace (snd (eligible swap_ok O (O, O) pathAS
                       (end_node "S" "A" ASYNC INTERNAL pathAS)))
         = [AddEvent (QubitReleasedEvent (O, O) true 10 O)])
  /\ eligible swap_ok O (O, O) path3 (end_node "S" "R" SYNC EXTERNAL path3)
     = (Raised NameError, end_node "S" "R" SYNC EXTERNAL path3).
Proof. repeat split; reflexivity. Qed.

Lemma memory_full_drops_attempt_or_sends_epr_failed_witness :
  (exists w',
     generate_entanglement uuid_sample epr_sample q_R2_R3 "R3" 1%nat None R2_async
       = (Returned tt, w')
     /\ trace w' = trace R2_async /\ memories w' = memories R2_async)
  /\ (exists w',
        handle_distribution qubit_from_R3 R2_async = (Returned tt, w')
        /\ trace w' = trace R2_async
             ++ [ClassicSend c_R2_R3
                   {| msg := HERALD {| h_cmd := epr_failed;
                                       h_path_id := Some 0;
                                       epr_id := "e_in" |};
                      pkt_src := "R2"; pkt_src_entity := IsQNode;
                      pkt_dest := "R3" |}
                   "R3" None]
        /\ memories w' = memories R2_async).
Proof.
  destruct (memory_full_drops_attempt_or_sends_epr_failed
              uuid_sample epr_sample R2_async) as [Hsend Hrecv].
  split.
  - apply Hsend. intros qm. reflexivity.
  - apply (Hrecv qubit_from_R3 "R3" c_R2_R3 1%nat); try reflexivity.
    right. reflexivity.
Defined.

(** C6 on the code.  R has two free slots towards S and one towards D.
    Asked for three slots towards S ([m_v = [3; 1]]), [handle_control]
    raises nothing, reserves both slots for the path (the third [allocate]
    fails) and installs the path; asked for five towards D
    ([m_v = [2; 5]]) it does the same in that memory.  Asked for one slot
    towards S ([m_v = [1; 1]]), fewer than the free ones, it raises
    "Not enough qubits left for this allocation." and allocates nothing:
    the test [num_prev >= prev_qmem.free] is the reverse of the one its
    message describes. *)
Theorem handle_control_allocates_beyond_free :
  free (the_memory O R_fresh) = 2
  /\ free (the_memory 1%nat R_fresh) = 1
  /\ allocate_requested (Some 3) (Some O) 2 R_fresh
     = (Returned [0; 1; -1], snd (allocate_requested (Some 3) (Some O) 2 R_fresh))
  /\ fst (handle_control (install [3; 1]) R_fresh) = Returned tt
  /\ free (the_memory O (snd (handle_control (install [3; 1]) R_fresh))) = 0
  /\ reserved (the_memory O (snd (handle_control (install [3; 1]) R_fresh))) = 2
  /\ fst (handle_control (install [2; 5]) R_fresh) = Returned tt
  /\ free (the_memory 1%nat (snd (handle_control (install [2; 5]) R_fresh))) = 0
  /\ reserved (the_memory 1%nat (snd (handle_control (install [2; 5]) R_fresh))) = 1
  /\ handle_control (install [1; 1]) R_fresh
     = (Raised (Exception "Not enough qubits left for this allocation."),
        R_fresh).
Proof. repeat split; vm_compute; reflexivity. Qed.

Lemma same_rank_swap_update_consumes_record_witness :
  parallel_swappings (net_layer R2_swapped) !! "e12" = Some (e12, e23, e13)
  /\ parallel_swappings
       (net_layer
          (snd (ProactiveRoutingApp.handle_signaling swap_ok
                  (from_R1 swap_done) R2_swapped)))
     !! epr swap_done = None.
Proof.
  split; [reflexivity|].
  apply (same_rank_swap_update_consumes_record swap_ok R2_swapped _
           (from_R1 swap_done) swap_done path5 1);
    try reflexivity.
  intros ne [= <-]. discriminate.
Defined.

(** C9, as the claim states it, fails when the received pair carries the
    name of the pair it replaces: the handler returns from a SWAP_UPDATE
    of a same-rank sender addressed to the node, and a record is keyed by
    [m.epr] afterwards, the one just added for the merged pair. *)
Lemma same_rank_swap_update_same_name_keeps_key :
  msg (packet (from_R1 swap_same_name)) = SWAP_UPDATE swap_same_name
  /\ destination swap_same_name = own R2_swapped_long
  /\ get_entry (su_path_id swap_same_name) R2_swapped_long = Some path6
  /\ rank_of path6 (swapping_node swap_same_name) = Some 1
  /\ rank_of path6 (own R2_swapped_long) = Some 1
  /\ fst (ProactiveRoutingApp.handle_signaling swap_ok
            (from_R1 swap_same_name) R2_swapped_long) = Returned tt
  /\ exists merged,
       swap_ok e_same_name f23 1%Q = Some merged
       /\ parallel_swappings
            (net_layer
               (snd (ProactiveRoutingApp.handle_signaling swap_ok
                       (from_R1 swap_same_name) R2_swapped_long)))
          !! epr swap_same_name
          = Some (e_same_name, f23, epr_set_ends merged "R0" "R3").
Proof.
  repeat split; try reflexivity.
  eexists. split; reflexivity.
Qed.
End Runs.

(** * Further properties of the embedded code *)

(** ** The forwarding information base *)

Section FibMore.
Import PyM Fib.

Implicit Types (fib : ForwardingInformationBase) (e : FIBEntry) (p r : Z).

Lemma listed_wf fib p r :
  fib_wf fib ->
  (p ∈ list_path_ids_by_request_id r fib
   <-> exists e, table fib !! p = Some e /\ request_id e = r).
Proof.
  intros [Hi Hb Hn]. unfold list_path_ids_by_request_id. split.
  - intros Hin. destruct (req_path_map fib !! r) as [s|] eqn:Hs;
      simpl in Hin; [|set_solver].
    exact (Hb _ _ _ Hs Hin).
  - intros (e & He & <-). destruct (Hi _ _ He) as (s & -> & Hin). exact Hin.
Qed.

(** X1. In every state of a [ForwardingInformationBase] the two indices
    agree: a [path_id] is listed under a [request_id] exactly when the
    table holds an entry for that [path_id] with that [request_id], and
    the request index keeps no empty set. *)
Theorem fib_indices_agree :
  forall fib : ForwardingInformationBase,
    fib_state fib ->
    (forall p r,
       p ∈ list_path_ids_by_request_id r fib
       <-> exists e, table fib !! p = Some e /\ request_id e = r)
    /\ (forall r s, req_path_map fib !! r = Some s -> s <> ∅).
Proof.
  intros fib Hst. apply fib_state_wf in Hst. split.
  - intros p r. apply listed_wf. assumption.
  - apply (wf_nonempty _ Hst).
Qed.

(** X2. In every state, [erase] returns without raising; afterwards the
    table has no entry for the [path_id], the [path_id] is listed under no
    request, and every other [path_id] keeps its entry and its listing. *)
Theorem fib_erase_cleans_both_indices :
  forall (fib : ForwardingInformationBase) (p : Z),
    fib_state fib ->
    exists fib',
      erase p fib = (Returned tt, fib')
      /\ table fib' !! p = None
      /\ (forall r, p ∉ list_path_ids_by_request_id r fib')
      /\ (forall p', p' <> p -> table fib' !! p' = table fib !! p')
      /\ (forall p' r, p' <> p ->
            (p' ∈ list_path_ids_by_request_id r fib'
             <-> p' ∈ list_path_ids_by_request_id r fib)).
Proof.
  intros fib p Hst. apply fib_state_wf in Hst.
  destruct (erase_wf fib p Hst) as (fib' & Hrun & Hwf' & Ht & Hr).
  exists fib'. split; [exact Hrun|]. split; [rewrite Ht; apply lookup_delete_eq|].
  split; [exact Hr|]. split.
  - intros p' Hne. rewrite Ht. apply lookup_delete_ne. congruence.
  - intros p' r Hne. rewrite !listed_wf by assumption.
    rewrite Ht, lookup_delete_ne by congruence. reflexivity.
Qed.

(** X3. In every state, [insert_or_replace] followed by [get] of the same
    [path_id] answers the inserted entry; [get] of any other [path_id]
    answers what it answered before, and the listing of any other
    [path_id] is unchanged. *)
Theorem fib_insert_then_get :
  forall (fib : ForwardingInformationBase) (e : FIBEntry),
    fib_state fib ->
    exists fib',
      insert_or_replace e fib = (Returned tt, fib')
      /\ get (path_id e) fib' = (Returned e, fib')
      /\ (forall p, p <> path_id e -> fst (get p fib') = fst (get p fib))
      /\ (forall p r, p <> path_id e ->
            (p ∈ list_path_ids_by_request_id r fib'
             <-> p ∈ list_path_ids_by_request_id r fib)).
Proof.
  intros fib e Hst. apply fib_state_wf in Hst.
  destruct (insert_or_replace_wf fib e Hst) as (fib' & Hrun & Hwf' & Ht & Hr).
  exists fib'. split; [exact Hrun|].
  assert (Hget : forall q f, get q f
                 = (match table f !! q with
                    | Some x => Returned x | None => Raised IndexError end, f)).
  { intros q f. unfold get, try_except, table_getitem, raise.
    destruct (table f !! q); reflexivity. }
  split; [|split].
  - rewrite Hget, Ht, lookup_insert_eq. reflexivity.
  - intros p Hne. rewrite !Hget. simpl.
    rewrite Ht, lookup_insert_ne by congruence. reflexivity.
  - intros p r Hne. rewrite !listed_wf by assumption.
    rewrite Ht, lookup_insert_ne by congruence. reflexivity.
Qed.

(** X4. In every state, inserting an entry under a [path_id] the table
    does not hold and erasing that [path_id] again gives back the very
    state one started from, table and request index. *)
Theorem fib_insert_then_erase :
  forall (fib : ForwardingInformationBase) (e : FIBEntry),
    fib_state fib ->
    table fib !! path_id e = None ->
    erase (path_id e) (snd (insert_or_replace e fib)) = (Returned tt, fib).
Proof.
  intros fib e Hst Hnone. apply fib_state_wf in Hst.
  rewrite (insert_or_replace_steps fib e fib (erase_absent _ _ Hnone)). simpl.
  assert (Hnot : forall s, req_path_map fib !! request_id e = Some s ->
                           path_id e ∉ s).
  { intros s Hs Hin. destruct (wf_backed _ Hst _ _ _ Hs Hin) as (x & Hx & _).
    congruence. }
  rewrite (erase_present (inserted e fib) (path_id e) e
             (default ∅ (req_path_map fib !! request_id e) ∪ {[path_id e]})).
  - f_equal. destruct fib as [t rq]. unfold erased, inserted. simpl in *.
    f_equal.
    + apply delete_insert_id. assumption.
    + destruct (rq !! request_id e) as [s|] eqn:Hs; simpl.
      * assert (Hsame : (s ∪ {[path_id e]}) ∖ {[path_id e]} = s).
        { specialize (Hnot s eq_refl). set_solver. }
        rewrite Hsame.
        destruct (decide (s = ∅)) as [Hem|_].
        -- exfalso. exact (wf_nonempty _ Hst _ _ Hs Hem).
        -- rewrite insert_insert_eq. apply insert_id. assumption.
      * assert (Hem : (∅ ∪ {[path_id e]}) ∖ {[path_id e]} = (∅ : gset Z))
          by set_solver.
        rewrite Hem.
        destruct (decide ((∅ : gset Z) = ∅)) as [_|Hne]; [|contradiction].
        rewrite insert_insert_eq. apply delete_insert_id. assumption.
  - simpl. apply lookup_insert_eq.
  - simpl. apply lookup_insert_eq.
  - set_solver.
Qed.

Lemma list_index_Some (xs : list string) (x : string) (i : nat) :
  list_index xs x = Some i ->
  xs !! i = Some x /\ forall j, (j < i)%nat -> xs !! j <> Some x.
Proof.
  revert i. induction xs as [|y ys IH]; intros i; simpl; [discriminate|].
  destruct (String.eqb_spec y x) as [->|Hne].
  - intros [= <-]. split; [reflexivity|]. intros j Hj. lia.
  - destruct (list_index ys x) as [k|]; simpl; [|discriminate].
    intros [= <-]. destruct (IH k eq_refl) as [Hk Hfirst]. split; [exact Hk|].
    intros [|j] Hj; simpl.
    + congruence.
    + apply Hfirst. lia.
Qed.

Lemma list_index_None (xs : list string) (x : string) :
  list_index xs x = None <-> x ∉ xs.
Proof.
  induction xs as [|y ys IH]; simpl.
  - split; [intros _; apply not_elem_of_nil | reflexivity].
  - destruct (String.eqb_spec y x) as [->|Hne].
    + split; [discriminate|]. intros H. exfalso. apply H. left.
    + destruct (list_index ys x) as [k|]; simpl.
      * split; [discriminate|]. intros H. exfalso.
        apply not_elem_of_cons in H as [_ H]. apply IH in H. discriminate.
      * split; [|reflexivity]. intros _. apply not_elem_of_cons.
        split; [congruence|]. apply IH. reflexivity.
Qed.

(** X5. [find_index_and_swapping_rank] raises [ValueError] (not the
    [IndexError] its docstring names) for a node that is not in
    [path_vector]; what it returns is the first position of the node in
    [path_vector] with the rank at that position; and it returns for every
    node of [path_vector] when [swap_sequence] is as long as
    [path_vector]. *)
Theorem find_index_and_swapping_rank_cases :
  forall (fib_entry : FIBEntry) (node_name : string),
    (node_name ∉ path_vector fib_entry ->
     find_index_and_swapping_rank fib_entry node_name = Raised ValueError)
    /\ (forall idx rank,
          find_index_and_swapping_rank fib_entry node_name
            = Returned (idx, rank) ->
          path_vector fib_entry !! idx = Some node_name
          /\ swap_sequence fib_entry !! idx = Some rank
          /\ forall j, (j < idx)%nat ->
               path_vector fib_entry !! j <> Some node_name)
    /\ (node_name ∈ path_vector fib_entry ->
        length (swap_sequence fib_entry) = length (path_vector fib_entry) ->
        exists idx rank,
          find_index_and_swapping_rank fib_entry node_name
            = Returned (idx, rank)).
Proof.
  intros fib_entry node_name. unfold find_index_and_swapping_rank.
  split; [|split].
  - intros Hnot. apply list_index_None in Hnot. rewrite Hnot. reflexivity.
  - intros idx rank.
    destruct (list_index (path_vector fib_entry) node_name) as [i|] eqn:Hi;
      [|discriminate].
    destruct (swap_sequence fib_entry !! i) as [x|] eqn:Hx; [|discriminate].
    intros [= <- <-]. destruct (list_index_Some _ _ _ Hi) as [H1 H2].
    split; [exact H1|]. split; [exact Hx|exact H2].
  - intros Hin Hlen.
    destruct (list_index (path_vector fib_entry) node_name) as [i|] eqn:Hi.
    + destruct (list_index_Some _ _ _ Hi) as [H1 _].
      apply lookup_lt_Some in H1. rewrite <- Hlen in H1.
      apply lookup_lt_is_Some in H1 as [x Hx]. rewrite Hx. eauto.
    + apply list_index_None in Hi. contradiction.
Qed.

(** X6. [is_swap_disabled] raises [IndexError] on an empty
    [swap_sequence] and otherwise looks at the first and the last rank
    only: it answers [True] for every sequence that starts and ends with
    0, whatever the ranks in between, and [False] as soon as the first or
    the last rank is not 0. *)
Theorem is_swap_disabled_reads_both_ends :
  forall (p r : Z) (route : list string) (scheme : gmap string Z),
    is_swap_disabled (mkFIBEntry p r route [] scheme) = Raised IndexError
    /\ (forall middle,
          is_swap_disabled (mkFIBEntry p r route (0 :: middle ++ [0]) scheme)
          = Returned true)
    /\ (forall a, is_swap_disabled (mkFIBEntry p r route [a] scheme)
                  = Returned (Z.eqb a 0))
    /\ (forall a b middle,
          (a <> 0 \/ b <> 0) ->
          is_swap_disabled (mkFIBEntry p r route (a :: middle ++ [b]) scheme)
          = Returned false).
Proof.
  intros p r route scheme. unfold is_swap_disabled. simpl.
  split; [reflexivity|]. split; [|split].
  - intros middle. rewrite app_comm_cons, last_snoc. reflexivity.
  - intros a. simpl. destruct (Z.eqb_spec a 0) as [->|]; reflexivity.
  - intros a b middle Hab. rewrite app_comm_cons, last_snoc.
    f_equal. apply andb_false_iff.
    destruct Hab as [Ha|Hb].
    + left. apply Z.eqb_neq. congruence.
    + right. destruct b; [congruence|reflexivity|reflexivity].
Qed.
End FibMore.

Lemma fib_indices_agree_witness :
  7 ∈ Fib.list_path_ids_by_request_id 1 Scenario.fib_sample
  <-> exists e, Fib.table Scenario.fib_sample !! 7 = Some e
                /\ Fib.request_id e = 1.
Proof.
  apply (proj1 (fib_indices_agree Scenario.fib_sample
                  ltac:(unfold Scenario.fib_sample; repeat constructor))).
Defined.

Lemma fib_erase_cleans_both_indices_witness :
  exists fib',
    Fib.erase 7 Scenario.fib_sample = (Returned tt, fib')
    /\ Fib.table fib' !! 7 = None
    /\ (forall r, 7 ∉ Fib.list_path_ids_by_request_id r fib')
    /\ (forall p', p' <> 7 ->
          Fib.table fib' !! p' = Fib.table Scenario.fib_sample !! p')
    /\ (forall p' r, p' <> 7 ->
          (p' ∈ Fib.list_path_ids_by_request_id r fib'
           <-> p' ∈ Fib.list_path_ids_by_request_id r Scenario.fib_sample)).
Proof.
  apply (fib_erase_cleans_both_indices Scenario.fib_sample 7).
  unfold Scenario.fib_sample. repeat constructor.
Defined.

Lemma fib_insert_then_get_witness :
  exists fib',
    Fib.insert_or_replace (Fib.mkFIBEntry 7 2 ["S"; "D"] [0; 0] ∅)
      Scenario.fib_sample = (Returned tt, fib')
    /\ Fib.get 7 fib' = (Returned (Fib.mkFIBEntry 7 2 ["S"; "D"] [0; 0] ∅), fib')
    /\ (forall p, p <> 7 ->
          fst (Fib.get p fib') = fst (Fib.get p Scenario.fib_sample))
    /\ (forall p r, p <> 7 ->
          (p ∈ Fib.list_path_ids_by_request_id r fib'
           <-> p ∈ Fib.list_path_ids_by_request_id r Scenario.fib_sample)).
Proof.
  apply (fib_insert_then_get Scenario.fib_sample
           (Fib.mkFIBEntry 7 2 ["S"; "D"] [0; 0] ∅)).
  unfold Scenario.fib_sample. repeat constructor.
Defined.

Lemma fib_insert_then_erase_witness :
  Fib.erase 9
    (snd (Fib.insert_or_replace (Fib.mkFIBEntry 9 1 ["S"; "D"] [0; 0] ∅)
            Scenario.fib_sample))
  = (Returned tt, Scenario.fib_sample).
Proof.
  apply (fib_insert_then_erase Scenario.fib_sample
           (Fib.mkFIBEntry 9 1 ["S"; "D"] [0; 0] ∅)).
  - unfold Scenario.fib_sample. repeat constructor.
  - vm_compute. reflexivity.
Defined.

Lemma find_index_and_swapping_rank_cases_witness :
  Fib.find_index_and_swapping_rank
    (Fib.mkFIBEntry 8 1 ["S"; "R"; "D"] [1; 0; 1] ∅) "X" = Raised ValueError
  /\ exists idx rank,
       Fib.find_index_and_swapping_rank
         (Fib.mkFIBEntry 8 1 ["S"; "R"; "D"] [1; 0; 1] ∅) "R"
       = Returned (idx, rank).
Proof.
  split.
  - apply (proj1 (find_index_and_swapping_rank_cases
                    (Fib.mkFIBEntry 8 1 ["S"; "R"; "D"] [1; 0; 1] ∅) "X")).
    simpl. set_solver.
  - apply (proj2 (proj2 (find_index_and_swapping_rank_cases
                           (Fib.mkFIBEntry 8 1 ["S"; "R"; "D"] [1; 0; 1] ∅) "R"))).
    + simpl. set_solver.
    + reflexivity.
Defined.

Lemma is_swap_disabled_reads_both_ends_witness :
  Fib.is_swap_disabled (Fib.mkFIBEntry 8 1 ["S"; "R"; "D"] (0 :: [5] ++ [0]) ∅)
    = Returned true
  /\ Fib.is_swap_disabled (Fib.mkFIBEntry 8 1 ["S"; "R"; "D"] (1 :: [0] ++ [0]) ∅)
    = Returned false.
Proof.
  destruct (is_swap_disabled_reads_both_ends 8 1 ["S"; "R"; "D"] ∅)
    as (_ & Hends & _ & Hnot).
  split; [apply Hends|apply Hnot; left; lia].
Defined.

(** ** Link architectures *)

Section LinkArchMore.
Import LinkArch.
Local Open Scope R_scope.

Lemma Rpower_10_bounds (x : R) : x <= 0 -> 0 < Rpower 10 x <= 1.
Proof.
  intros Hx. split.
  - unfold Rpower. apply exp_pos.
  - rewrite <- (Rpower_O 10) by lra. apply Rle_Rpower; lra.
Qed.


Lemma loss_exponent_nonpos (alpha L c : R) :
  0 <= alpha -> 0 <= L -> 0 < c -> - alpha * L / c <= 0.
Proof.
  intros Ha HL Hc. unfold Rdiv.
  replace (- alpha * L * / c) with (- (alpha * L * / c)) by ring.
  assert (0 <= alpha * L * / c).
  { apply Rmult_le_pos; [apply Rmult_le_pos; assumption|].
    left. apply Rinv_0_lt_compat. assumption. }
  lra.
Qed.


Lemma product_in_unit (a b : R) : 0 <= a <= 1 -> 0 <= b <= 1 -> 0 <= a * b <= 1.
Proof.
  intros [Ha0 Ha1] [Hb0 Hb1]. split.
  - apply Rmult_le_pos; assumption.
  - rewrite <- (Rmult_1_r 1). apply Rmult_le_compat; assumption.
Qed.

Lemma square_in_unit (a : R) : 0 <= a <= 1 -> 0 <= a ^ 2 <= 1.
Proof. intros H. simpl. rewrite Rmult_1_r. apply product_in_unit; assumption. Qed.

(** X7. For a nonnegative length and loss and efficiencies between 0 and
    1, the success probability of every architecture (SR, SIM, DIM-BK,
    DIM-BK-Seq) is a probability: it lies between 0 and 1; the DIM-BK
    ones never exceed one half. *)
Theorem success_prob_is_probability :
  forall L alpha eta_s eta_d : R,
    0 <= L -> 0 <= alpha -> 0 <= eta_s <= 1 -> 0 <= eta_d <= 1 ->
    0 <= success_prob LinkArchSr L alpha eta_s eta_d <= 1
    /\ 0 <= success_prob LinkArchSim L alpha eta_s eta_d <= 1
    /\ 0 <= success_prob LinkArchDimBk L alpha eta_s eta_d <= 0.5
    /\ 0 <= success_prob LinkArchDimBkSeq L alpha eta_s eta_d <= 0.5.
Proof.
  intros L alpha eta_s eta_d HL Ha Hs Hd. simpl.
  unfold sr_success_prob, sim_success_prob, dim_bk_success_prob.
  assert (H10 : 0 <= Rpower 10 (- alpha * L / 10) <= 1).
  { destruct (Rpower_10_bounds (- alpha * L / 10)) as [H1 H2];
      [apply loss_exponent_nonpos; lra | lra]. }
  assert (H20 : 0 <= Rpower 10 (- alpha * L / 2 / 10) <= 1).
  { destruct (Rpower_10_bounds (- alpha * L / 2 / 10)) as [H1 H2]; [|lra].
    pose proof (loss_exponent_nonpos alpha L 2 Ha HL ltac:(lra)). lra. }
  pose proof (product_in_unit _ _ Hs Hd) as Hsd.
  pose proof (product_in_unit _ _ Hsd H10) as Hsr.
  pose proof (square_in_unit _ (product_in_unit _ _ Hd H20)) as Hsim.
  pose proof (square_in_unit _ (product_in_unit _ _ Hsd H20)) as Hdim.
  repeat split; lra.
Qed.


End LinkArchMore.

Lemma success_prob_is_probability_witness :
  let L := 30%R in
  (0 <= LinkArch.success_prob LinkArch.LinkArchSr L (2 / 10) (95 / 100) (95 / 100)
   <= 1)%R.
Proof.
  apply (proj1 (success_prob_is_probability 30 (2 / 10) (95 / 100) (95 / 100)
                  ltac:(lra) ltac:(lra) ltac:(lra) ltac:(lra))).
Defined.


(** ** Segment lengths *)

Section PathGenMore.
Import PathGen.

Lemma length_list_times (x n : Z) : length (list_times x n) = Z.to_nat n.
Proof. unfold list_times. apply repeat_length. Qed.

Lemma length_range (n : Z) : length (range n) = Z.to_nat n.
Proof. unfold range. rewrite length_map, length_seq. reflexivity. Qed.

Lemma length_weighted (L : Z) (ws : list Z) :
  length (weighted L ws) = length ws.
Proof. unfold weighted. apply length_map. Qed.

(** X11. Whatever the proportion, a result of
    [compute_distances_distribution] for [n >= 0] routers has [n+1]
    segments. *)
Theorem distribution_has_one_segment_per_link :
  forall (L n : Z) (proportion : string) (segments : list Z),
    0 <= n ->
    compute_distances_distribution L n proportion = Returned segments ->
    Z.of_nat (length segments) = n + 1.
Proof.
  intros L n proportion segments Hn. unfold compute_distances_distribution.
  destruct (Z.eqb_spec n 0) as [->|Hne]; [intros [= <-]; reflexivity|].
  unfold floordiv.
  destruct (Z.eqb_spec (n + 1) 0) as [|_]; [lia|].
  destruct (String.eqb proportion "uniform").
  { intros [= <-]. rewrite length_list_times. lia. }
  destruct (String.eqb proportion "increasing").
  { intros [= <-]. rewrite length_weighted, length_map, length_range. lia. }
  destruct (String.eqb proportion "decreasing").
  { intros [= <-].
    rewrite length_weighted, length_rev, length_map, length_range. lia. }
  destruct (String.eqb proportion "mid_bottleneck"); [|discriminate].
  destruct (Z.leb_spec (n + 1) 2) as [_|Hbig].
  { intros [= <-]. rewrite length_list_times. lia. }
  intros [= <-]. rewrite !length_app, !length_list_times.
  pose proof (Z.div_mod (n + 1) 2 ltac:(lia)) as Hdm.
  pose proof (Z.mod_pos_bound (n + 1) 2 ltac:(lia)) as Hmod.
  destruct (Z.eqb_spec ((n + 1) mod 2) 0) as [Heven|Hodd].
  - replace (n + 1 - 2) with (2 * ((n + 1) / 2 - 1)) by lia.
    rewrite Z.mul_comm, Z.div_mul by lia. lia.
  - replace (n + 1 - 1) with (2 * ((n + 1) / 2)) by lia.
    rewrite Z.mul_comm, Z.div_mul by lia. lia.
Qed.

Lemma sum_app (xs ys : list Z) : sum (xs ++ ys) = sum xs + sum ys.
Proof. induction xs as [|x xs IH]; simpl; [reflexivity|]. rewrite IH. lia. Qed.

Lemma sum_rev (xs : list Z) : sum (rev xs) = sum xs.
Proof.
  induction xs as [|x xs IH]; simpl; [reflexivity|].
  rewrite sum_app, IH. simpl. lia.
Qed.

Lemma weighted_rev (L : Z) (ws : list Z) :
  weighted L (rev ws) = rev (weighted L ws).
Proof. unfold weighted. rewrite sum_rev, map_rev. reflexivity. Qed.

(** X12. The "decreasing" distribution is the "increasing" one read from
    right to left, for every distance and number of routers, roundings of
    the floating-point products included. *)
Theorem decreasing_is_reversed_increasing :
  forall L n : Z,
    compute_distances_distribution L n "decreasing"
    = match compute_distances_distribution L n "increasing" with
      | Returned segments => Returned (rev segments)
      | Raised e => Raised e
      end.
Proof.
  intros L n. unfold compute_distances_distribution.
  destruct (Z.eqb n 0); [reflexivity|]. simpl.
  rewrite weighted_rev. reflexivity.
Qed.

Lemma weighted_abd_eq (L : Z) (ws : list Z) :
  weighted_abd L ws = weighted L ws.
Proof. unfold weighted_abd, weighted. rewrite map_map. reflexivity. Qed.

Lemma odd_weights (l : list Z) :
  map (fun i => i * 2 + 1) l = map (fun i => 2 * i + 1) l.
Proof. apply map_ext. intros i. lia. Qed.

(** X13. [compute_distances_distribution_abd] and
    [compute_distances_distribution] return the same result, or raise the
    same exception, whenever there is no router or the proportion is not
    "mid_bottleneck". *)
Theorem distribution_variants_agree :
  forall (L n : Z) (proportion : string),
    n = 0 \/ proportion <> "mid_bottleneck" ->
    compute_distances_distribution_abd L n proportion
    = compute_distances_distribution L n proportion.
Proof.
  intros L n proportion Hcase.
  unfold compute_distances_distribution_abd, compute_distances_distribution.
  destruct (Z.eqb_spec n 0) as [|Hne]; [reflexivity|].
  destruct Hcase as [|Hmid]; [contradiction|].
  destruct (String.eqb proportion "uniform"); [reflexivity|].
  rewrite !weighted_abd_eq, !odd_weights.
  destruct (String.eqb proportion "increasing"); [reflexivity|].
  destruct (String.eqb proportion "decreasing"); [reflexivity|].
  destruct (String.eqb_spec proportion "mid_bottleneck"); [contradiction|].
  reflexivity.
Qed.

(** X14. Without router, both functions return the single segment [[L]]
    for any proportion string, a misspelt one too; with routers, a string
    that is none of the four proportions raises [ValueError]; and for
    [n = -1] (no segment at all) the "uniform" proportion raises
    [ZeroDivisionError]. *)
Theorem distribution_proportion_checked_only_with_routers :
  forall (L : Z) (proportion : string),
    compute_distances_distribution L 0 proportion = Returned [L]
    /\ compute_distances_distribution_abd L 0 proportion = Returned [L]
    /\ (forall n,
          n <> 0 ->
          proportion <> "uniform" -> proportion <> "increasing" ->
          proportion <> "decreasing" -> proportion <> "mid_bottleneck" ->
          compute_distances_distribution L n proportion = Raised ValueError
          /\ compute_distances_distribution_abd L n proportion
             = Raised ValueError)
    /\ compute_distances_distribution L (-1) "uniform"
       = Raised ZeroDivisionError
    /\ compute_distances_distribution_abd L (-1) "uniform"
       = Raised ZeroDivisionError.
Proof.
  intros L proportion.
  split; [reflexivity|]. split; [reflexivity|]. split; [|split; reflexivity].
  intros n Hn Hu Hi Hd Hm.
  unfold compute_distances_distribution, compute_distances_distribution_abd.
  destruct (Z.eqb_spec n 0) as [|_]; [contradiction|].
  destruct (String.eqb_spec proportion "uniform"); [contradiction|].
  destruct (String.eqb_spec proportion "increasing"); [contradiction|].
  destruct (String.eqb_spec proportion "decreasing"); [contradiction|].
  destruct (String.eqb_spec proportion "mid_bottleneck"); [contradiction|].
  split; reflexivity.
Qed.
End PathGenMore.

Lemma distribution_has_one_segment_per_link_witness :
  Z.of_nat (length [28; 28; 33; 28; 28]) = 4 + 1.
Proof.
  apply (distribution_has_one_segment_per_link 150 4 "mid_bottleneck").
  - lia.
  - vm_compute. reflexivity.
Defined.

Lemma distribution_variants_agree_witness :
  PathGen.compute_distances_distribution_abd 150 4 "increasing"
  = PathGen.compute_distances_distribution 150 4 "increasing".
Proof.
  apply (distribution_variants_agree 150 4 "increasing").
  right. discriminate.
Defined.

Lemma distribution_proportion_checked_only_with_routers_witness :
  PathGen.compute_distances_distribution 150 3 "unifrom" = Raised ValueError
  /\ PathGen.compute_distances_distribution_abd 150 3 "unifrom"
     = Raised ValueError.
Proof.
  apply (proj1 (proj2 (proj2
           (distribution_proportion_checked_only_with_routers 150 "unifrom"))));
    discriminate.
Defined.

(** ** The proactive forwarder *)

Section ForwarderMore.
Import PyM Memory Net ProactiveRoutingApp.

(** What [send_swap_update] does: it either raises and leaves everything
    as it was, or hands one packet to the classic channel towards the
    neighbour on the route that is one step closer to [dest]. *)
Lemma send_swap_update_cases (dest : string) (m : SwapUpdate)
    (route : list string) (d : bool) (w : World) :
  (exists e, send_swap_update dest m route d w = (Raised e, w))
  \/ exists own_idx dest_idx next_hop ch,
       list_index route (own w) = Some own_idx
       /\ list_index route dest = Some dest_idx
       /\ subscript route
            (if Z.ltb (Z.of_nat own_idx) (Z.of_nat dest_idx)
             then Z.of_nat own_idx + 1 else Z.of_nat own_idx - 1)
          = Some next_hop
       /\ get_cchannel (Some next_hop) w = Some ch
       /\ send_swap_update dest m route d w
          = (Returned tt,
             set_trace w
               (trace w
                ++ [ClassicSend ch
                      {| msg := SWAP_UPDATE m; pkt_src := own w;
                         pkt_src_entity := IsQNode; pkt_dest := dest |}
                      next_hop (if d then Some (delay ch) else None)])).
Proof.
  unfold send_swap_update, bind, gets, index_of, item, raise, cchannel_send,
    modify.
  destruct (list_index route (own w)) as [oi|] eqn:Ho; [|left; eauto].
  destruct (list_index route dest) as [di|] eqn:Hd; [|left; eauto].
  destruct (subscript route _) as [nh|] eqn:Hn; [|left; eauto].
  unfold get_node.
  destruct (existsb (String.eqb nh) (network w)); [|left; eauto].
  destruct (get_cchannel (Some nh) w) as [ch|] eqn:Hc; [|left; eauto].
  right. exists oi, di, nh, ch. repeat split; try assumption.
  destruct d; reflexivity.
Qed.

(** X15. [send_swap_update] either raises with the node unchanged, or
    sends exactly one packet, from the node to [dest], on the classic
    channel to the route neighbour one step towards [dest]: the next node
    of the route when [dest] comes later on it, the previous one
    otherwise.  For the first node of the route the previous one is read
    at index [-1]: the packet goes to the last node of the route. *)
Theorem send_swap_update_goes_one_hop :
  forall (dest : string) (m : SwapUpdate) (route : list string) (d : bool)
         (w w' : World),
    send_swap_update dest m route d w = (Returned tt, w') ->
    exists own_idx dest_idx next_hop ch,
      list_index route (own w) = Some own_idx
      /\ list_index route dest = Some dest_idx
      /\ (if Nat.ltb own_idx dest_idx
          then route !! S own_idx = Some next_hop
          else match own_idx with
               | O => last route = Some next_hop
               | S i => route !! i = Some next_hop
               end)
      /\ get_cchannel (Some next_hop) w = Some ch
      /\ w' = set_trace w
                (trace w
                 ++ [ClassicSend ch
                       {| msg := SWAP_UPDATE m; pkt_src := own w;
                          pkt_src_entity := IsQNode; pkt_dest := dest |}
                       next_hop (if d then Some (delay ch) else None)]).
Proof.
  intros dest m route d w w' Hrun.
  destruct (send_swap_update_cases dest m route d w)
    as [[e He]|(oi & di & nh & ch & Ho & Hd & Hn & Hc & Hs)];
    [rewrite He in Hrun; discriminate|].
  rewrite Hs in Hrun. injection Hrun as <-.
  exists oi, di, nh, ch. repeat split; try assumption.
  unfold subscript in Hn.
  destruct (Nat.ltb_spec oi di) as [Hlt|Hge].
  - destruct (Z.ltb_spec (Z.of_nat oi) (Z.of_nat di)); [|lia].
    destruct (Z.ltb_spec (Z.of_nat oi + 1) 0); [lia|].
    replace (Z.to_nat (Z.of_nat oi + 1)) with (S oi) in Hn by lia.
    exact Hn.
  - destruct (Z.ltb_spec (Z.of_nat oi) (Z.of_nat di)); [lia|].
    destruct oi as [|i].
    + change (Z.of_nat 0 - 1) with (-1) in Hn.
      change (Z.ltb (-1) 0) with true in Hn. cbv iota in Hn.
      destruct (Z.ltb_spec (-1 + Z.of_nat (length route)) 0) as [|Hpos];
        [discriminate|].
      rewrite last_lookup.
      replace (Nat.pred (length route))
        with (Z.to_nat (-1 + Z.of_nat (length route))) by lia.
      exact Hn.
    + destruct (Z.ltb_spec (Z.of_nat (S i) - 1) 0); [lia|].
      replace (Z.to_nat (Z.of_nat (S i) - 1)) with i in Hn by lia.
      exact Hn.
Qed.

(** X16. A node that is not the destination of a SWAP_UPDATE never touches
    its memories or its forwarder state.  With a rank above the sender's
    it does nothing at all; otherwise it either raises with the node
    unchanged or passes on exactly one packet, the same message with
    [fwd = True], addressed to the destination of the packet it
    received. *)
Theorem swap_update_transit_node_forwards :
  forall swapping (w : World) (packet : RecvClassicPacket) (m : SwapUpdate)
         (fib_entry : RouteEntry) (sender_rank own_rank : Z),
    msg (Net.packet packet) = SWAP_UPDATE m ->
    destination m <> own w ->
    outside_internal_phase w = false ->
    get_entry (su_path_id m) w = Some fib_entry ->
    rank_of fib_entry (swapping_node m) = Some sender_rank ->
    rank_of fib_entry (own w) = Some own_rank ->
    (sender_rank < own_rank ->
     handle_signaling swapping packet w = (Returned tt, w))
    /\ (own_rank <= sender_rank ->
        (exists e, handle_signaling swapping packet w = (Raised e, w))
        \/ exists ch next_hop delay,
             handle_signaling swapping packet w
             = (Returned tt,
                set_trace w
                  (trace w
                   ++ [ClassicSend ch
                         {| msg := SWAP_UPDATE (forwarded m);
                            pkt_src := own w; pkt_src_entity := IsQNode;
                            pkt_dest := pkt_dest (Net.packet packet) |}
                         next_hop delay]))).
Proof.
  intros swapping w packet m fib_entry sender_rank own_rank
    Hmsg Hdest Hphase Hfib Hs Ho.
  destruct (rank_of_run _ _ _ w Hs) as (si & Hsi & Hsr).
  destruct (rank_of_run _ _ _ w Ho) as (oi & Hoi & Hor).
  assert (Hhead : handle_signaling swapping packet w
    = if Z.leb own_rank sender_rank
      then send_swap_update (pkt_dest (Net.packet packet)) (forwarded m)
             (re_path_vector fib_entry) false w
      else (Returned tt, w)).
  { unfold handle_signaling. rewrite Hmsg.
    unfold bind, gets. rewrite Hphase, Hfib, Hsi, Hsr, Hoi, Hor.
    destruct (String.eqb_spec (destination m) (own w)); [contradiction|].
    destruct (Z.leb own_rank sender_rank); reflexivity. }
  rewrite Hhead. split.
  - intros Hlt. destruct (Z.leb_spec own_rank sender_rank); [lia|reflexivity].
  - intros Hle. destruct (Z.leb_spec own_rank sender_rank); [|lia].
    destruct (send_swap_update_cases (pkt_dest (Net.packet packet))
                (forwarded m) (re_path_vector fib_entry) false w)
      as [[e He]|(oi' & di & nh & ch & _ & _ & _ & _ & Hsend)].
    + left. eauto.
    + right. exists ch, nh, None. exact Hsend.
Qed.

(** X17. A SWAP_UPDATE addressed to the node itself by a sender of
    strictly higher rank changes nothing: the handler returns with the
    slot of the named EPR, the forwarder state and the event queue as
    they were, whether the message carries a new pair or not. *)
Theorem swap_update_from_higher_rank_ignored :
  forall swapping (w : World) (packet : RecvClassicPacket) (m : SwapUpdate)
         (fib_entry : RouteEntry) (sender_rank own_rank : Z),
    msg (Net.packet packet) = SWAP_UPDATE m ->
    destination m = own w ->
    outside_internal_phase w = false ->
    get_entry (su_path_id m) w = Some fib_entry ->
    rank_of fib_entry (swapping_node m) = Some sender_rank ->
    rank_of fib_entry (own w) = Some own_rank ->
    own_rank < sender_rank ->
    handle_signaling swapping packet w = (Returned tt, w).
Proof.
  intros swapping w packet m fib_entry sender_rank own_rank
    Hmsg Hdest Hphase Hfib Hs Ho Hlt.
  rewrite (handle_signaling_destination swapping w packet m fib_entry
             sender_rank own_rank Hmsg Hdest Hphase Hfib Hs Ho).
  destruct (Z.ltb_spec sender_rank own_rank); [lia|].
  destruct (Z.eqb_spec own_rank sender_rank); [lia|reflexivity].
Qed.

(** X18. What [handle_signaling] rejects, leaving the node unchanged: a
    SWAP_UPDATE for a path without FIB entry raises [Exception], one whose
    swapping node is not on the route of the entry raises [ValueError],
    and a controller message (no ["cmd"] key) raises [KeyError]; a
    heralding message of the link layer is ignored. *)
Theorem handle_signaling_rejections :
  forall swapping (w : World) (packet : RecvClassicPacket),
    (forall h, msg (Net.packet packet) = HERALD h ->
       handle_signaling swapping packet w = (Returned tt, w))
    /\ (forall p i, msg (Net.packet packet) = CONTROL p i ->
          handle_signaling swapping packet w = (Raised KeyError, w))
    /\ (forall m, msg (Net.packet packet) = SWAP_UPDATE m ->
          outside_internal_phase w = false ->
          (get_entry (su_path_id m) w = None ->
           handle_signaling swapping packet w
           = (Raised (Exception "FIB entry not found for path"), w))
          /\ (forall fib_entry,
                get_entry (su_path_id m) w = Some fib_entry ->
                swapping_node m ∉ re_path_vector fib_entry ->
                handle_signaling swapping packet w = (Raised ValueError, w))).
Proof.
  intros swapping w packet. unfold handle_signaling. split; [|split].
  - intros h ->. reflexivity.
  - intros p i ->. reflexivity.
  - intros m -> Hphase. unfold bind, gets, raise. rewrite Hphase. split.
    + intros ->. reflexivity.
    + intros fib_entry -> Hnot. apply list_index_None in Hnot.
      unfold index_of. rewrite Hnot. reflexivity.
Qed.

(** X19. [handle_entangled_qubit] leaves the node unchanged, the qubit
    staying ENTANGLED and waiting, when the neighbour's rank is strictly
    below the node's own rank, and when the qubit is bound to no path;
    for a qubit bound to a path without FIB entry it raises
    [Exception]. *)
Theorem entangled_qubit_waits_for_lower_rank :
  forall swapping (w : World) (neighbor : string) (qubit : QubitRef),
    (qubit_pid qubit w = None ->
     handle_entangled_qubit swapping neighbor qubit w = (Returned tt, w))
    /\ (forall p, qubit_pid qubit w = Some p -> get_entry p w = None ->
          handle_entangled_qubit swapping neighbor qubit w
          = (Raised (Exception "No FIB entry found for pid"), w))
    /\ (forall p fib_entry neighbor_rank own_rank,
          qubit_pid qubit w = Some p ->
          get_entry p w = Some fib_entry ->
          rank_of fib_entry neighbor = Some neighbor_rank ->
          rank_of fib_entry (own w) = Some own_rank ->
          neighbor_rank < own_rank ->
          handle_entangled_qubit swapping neighbor qubit w = (Returned tt, w)).
Proof.
  intros swapping w neighbor qubit.
  unfold handle_entangled_qubit, bind, gets, raise, ret.
  split; [|split].
  - intros ->. reflexivity.
  - intros p -> ->. reflexivity.
  - intros p fib_entry nr orank -> -> Hn Ho Hlt.
    destruct (rank_of_run _ _ _ w Hn) as (ni & Hni & Hnr).
    destruct (rank_of_run _ _ _ w Ho) as (oi & Hoi & Hor).
    unfold eval_swapping_conditions, bind, gets, ret.
    rewrite Hni, Hnr, Hoi, Hor.
    destruct (Z.leb_spec orank nr); [lia|reflexivity].
Qed.

Lemma item_nat {A} (xs : list A) (j : nat) (w : World) :
  item xs (Z.of_nat j) w
  = (match xs !! j with Some x => Returned x | None => Raised IndexError end, w).
Proof.
  unfold item, subscript.
  destruct (Z.ltb_spec (Z.of_nat j) 0); [lia|].
  rewrite Nat2Z.id. destruct (xs !! j); reflexivity.
Qed.

Lemma compute_qubit_allocation_eval (path : list string) (m_v : list Z)
    (node : string) (i : nat) (w : World) :
  list_index path node = Some i ->
  compute_qubit_allocation path m_v node w
  = match (match i with O => Some None | S j => option_map Some (m_v !! j) end) with
    | None => (Raised IndexError, w)
    | Some prev => (Returned (prev, m_v !! i), w)
    end.
Proof.
  intros Hi. unfold compute_qubit_allocation. rewrite Hi. cbv zeta.
  unfold bind, ret, item, subscript.
  remember (Z.of_nat i) as z eqn:Hz.
  destruct (Z.ltb_spec z 0) as [|_]; [lia|].
  replace (Z.to_nat z) with i by lia.
  assert (Hnext : forall s0 : World,
    (if Z.ltb z (Z.of_nat (length m_v))
     then fun s1 : World =>
            let (o, s') := match m_v !! i with
                           | Some x => (@Returned Z x, s1)
                           | None => (@Raised Z IndexError, s1)
                           end in
            match o with
            | Returned a => (@Returned (option Z) (Some a), s')
            | Raised e => (@Raised (option Z) e, s')
            end
     else fun s1 : World => (@Returned (option Z) None, s1)) s0
    = (Returned (m_v !! i), s0)).
  { intros s0.
    destruct (Z.ltb_spec z (Z.of_nat (length m_v))) as [Hin|Hout].
    - destruct (m_v !! i) as [x|] eqn:Hx; [reflexivity|].
      apply lookup_ge_None in Hx. lia.
    - rewrite (proj2 (lookup_ge_None m_v i)) by lia. reflexivity. }
  destruct i as [|j].
  - assert (z = 0) as -> by lia.
    change (Z.ltb 0 0) with false. cbv iota beta. rewrite Hnext.
    reflexivity.
  - destruct (Z.ltb_spec 0 z); [|lia].
    destruct (Z.ltb_spec (z - 1) 0); [lia|].
    replace (Z.to_nat (z - 1)) with j by lia.
    destruct (m_v !! j); simpl; [|reflexivity].
    rewrite Hnext. reflexivity.
Qed.

(** X20. [compute_qubit_allocation] for a node at position [i] of the
    path, with one count per link ([len(m_v) = len(path) - 1]): it returns
    the counts of the links before and after the node, nothing before the
    first node and nothing after the last one.  With an [m_v] too short to
    hold the count of the link before the node it raises [IndexError]. *)
Theorem compute_qubit_allocation_per_link :
  forall (path : list string) (m_v : list Z) (node : string) (i : nat)
         (w : World),
    list_index path node = Some i ->
    (S (length m_v) = length path ->
     exists prev next,
       compute_qubit_allocation path m_v node w = (Returned (prev, next), w)
       /\ prev = match i with O => None | S j => m_v !! j end
       /\ next = m_v !! i
       /\ (prev = None <-> i = O)
       /\ (next = None <-> S i = length path))
    /\ ((length m_v < i)%nat ->
        compute_qubit_allocation path m_v node w = (Raised IndexError, w)).
Proof.
  intros path m_v node i w Hi.
  rewrite (compute_qubit_allocation_eval path m_v node i w Hi).
  destruct (list_index_Some _ _ _ Hi) as [Hat _].
  apply lookup_lt_Some in Hat. split.
  - intros Hlen. destruct i as [|j].
    + exists None, (m_v !! O). repeat split; try reflexivity.
      * intros Hn. apply lookup_ge_None in Hn. lia.
      * intros Hn. apply lookup_ge_None. lia.
    + destruct (m_v !! j) as [x|] eqn:Hx;
        [|apply lookup_ge_None in Hx; lia].
      exists (Some x), (m_v !! S j). simpl. repeat split; try reflexivity.
      * discriminate.
      * discriminate.
      * intros Hn. apply lookup_ge_None in Hn. lia.
      * intros Hn. apply lookup_ge_None. lia.
  - intros Hshort. destruct i as [|j]; [lia|].
    rewrite (proj2 (lookup_ge_None m_v j)) by lia. reflexivity.
Qed.
End ForwarderMore.

Section ControlMore.
Import PyM Memory Net ProactiveRoutingApp.

Lemma only_memories_ret {A} (a : A) : only_memories (ret a).
Proof. intros [ ]. reflexivity. Qed.

Lemma only_memories_raise {A} (e : exn) : only_memories (@raise World A e).
Proof. intros [ ]. reflexivity. Qed.

Lemma only_memories_gets {A} (f : World -> A) : only_memories (gets f).
Proof. intros [ ]. reflexivity. Qed.

Lemma only_memories_bind {A B} (c : NodeM A) (k : A -> NodeM B) :
  only_memories c -> (forall a, only_memories (k a)) ->
  only_memories (bind c k).
Proof.
  intros Hc Hk w. unfold bind. specialize (Hc w).
  destruct (c w) as [[a|e] w1]; simpl in *.
  - rewrite (Hk a w1). rewrite Hc at 1. reflexivity.
  - exact Hc.
Qed.

Lemma only_memories_item {A} (xs : list A) (i : Z) : only_memories (item xs i).
Proof. intros [ ]. unfold item. destruct (subscript xs i); reflexivity. Qed.

Lemma only_memories_allocate (qmem : nat) (path_id : Z) :
  only_memories (qmem_allocate qmem path_id).
Proof.
  intros w. unfold qmem_allocate.
  destruct (Memory.allocate path_id (the_memory qmem w)). reflexivity.
Qed.

Lemma only_memories_allocate_times (n qmem : nat) (path_id : Z) :
  only_memories (allocate_times n qmem path_id).
Proof.
  induction n as [|n IH]; simpl.
  - apply only_memories_ret.
  - apply only_memories_bind; [apply only_memories_allocate|]. intros a.
    apply only_memories_bind; [exact IH|]. intros l. apply only_memories_ret.
Qed.

Lemma only_memories_allocate_requested (num : option Z) (qmem : option nat)
    (path_id : Z) :
  only_memories (allocate_requested num qmem path_id).
Proof.
  unfold allocate_requested.
  destruct num as [num|]; [|destruct qmem; apply only_memories_ret].
  destruct qmem as [qmem|]; [|apply only_memories_ret].
  destruct (Z.eqb num 0); [apply only_memories_ret|].
  apply only_memories_bind; [apply only_memories_gets|]. intros f.
  destruct (Z.leb f num);
    [apply only_memories_allocate_times|apply only_memories_raise].
Qed.

Lemma only_memories_allocate_all (qmem : option nat) (path_id : Z) :
  only_memories (allocate_all qmem path_id).
Proof.
  unfold allocate_all. destruct qmem as [qmem|]; [|apply only_memories_ret].
  apply only_memories_bind; [apply only_memories_gets|]. intros m.
  destruct (Z.eqb (free m) (capacity m));
    [apply only_memories_allocate_times|apply only_memories_raise].
Qed.

Lemma only_memories_compute (path : list string) (m_v : list Z)
    (node : string) :
  only_memories (compute_qubit_allocation path m_v node).
Proof.
  unfold compute_qubit_allocation.
  destruct (list_index path node); [|apply only_memories_ret].
  apply only_memories_bind.
  { destruct (Z.ltb 0 (Z.of_nat n)); [|apply only_memories_ret].
    apply only_memories_bind; [apply only_memories_item|].
    intros x. apply only_memories_ret. }
  intros prev. apply only_memories_bind.
  { destruct (Z.ltb (Z.of_nat n) (Z.of_nat (length m_v)));
      [|apply only_memories_ret].
    apply only_memories_bind; [apply only_memories_item|].
    intros x. apply only_memories_ret. }
  intros next. apply only_memories_ret.
Qed.

Lemma only_memories_allocation_block (instructions : Instructions)
    (prev_qmem next_qmem : option nat) (path_id : Z) :
  only_memories (allocation_block instructions prev_qmem next_qmem path_id).
Proof.
  intros w. unfold allocation_block.
  destruct (String.eqb (mux instructions) "B"); [|apply only_memories_ret].
  destruct (m_v instructions) as [|x l].
  - apply only_memories_bind; [apply only_memories_allocate_all|]. intros _.
    apply only_memories_bind; [apply only_memories_allocate_all|]. intros _.
    apply only_memories_ret.
  - apply only_memories_bind; [apply only_memories_compute|].
    intros [num_prev num_next].
    apply only_memories_bind; [apply only_memories_allocate_requested|].
    intros _.
    apply only_memories_bind; [apply only_memories_allocate_requested|].
    intros _. apply only_memories_ret.
Qed.

Lemma neighbor_memory_cases (n : option string) (w : World) :
  (exists e, neighbor_memory n w = (Raised e, w))
  \/ exists qmem, neighbor_memory n w = (Returned (resolved n, qmem), w).
Proof.
  unfold neighbor_memory, resolved.
  destruct n as [s|]; [|right; eexists; reflexivity].
  destruct s as [|c s]; [right; eexists; reflexivity|].
  change (String.eqb (String c s) "") with false. cbv iota.
  unfold bind, gets, get_node, memory_named, raise, ret.
  destruct (existsb (String.eqb (String c s)) (network w)); simpl.
  - destruct (List.find (channel_to (String c s)) (qchannels w)) as [ch|];
      [|left; eauto].
    destruct (memory_position (ch_name ch) (memories w)) as [i|];
      [right; eexists; reflexivity | left; eauto].
  - left. eauto.
Qed.

(** [handle_control] for a node at position [i] of the route, cut into
    its stages. *)
Lemma handle_control_stages (packet : RecvClassicPacket) (path_id : Z)
    (instructions : Instructions) (i : nat) (w : World) :
  msg (Net.packet packet) = CONTROL path_id instructions ->
  list_index (route instructions) (own w) = Some i ->
  (exists e, handle_control packet w = (Raised e, w))
  \/ exists prev_qmem next_qmem,
       let next_neighbor := resolved (route instructions !! S i) in
       let block :=
         allocation_block instructions prev_qmem next_qmem path_id w in
       handle_control packet w
       = match fst block with
         | Raised e => (Raised e, snd block)
         | Returned _ =>
             let w1 := snd block in
             let w2 :=
               set_net_layer w1
                 (set_fib (net_layer w1)
                    (<[path_id := installed path_id instructions]>
                       (fib (net_layer w1)))) in
             (Returned tt,
              match next_neighbor with
              | Some nn =>
                  set_trace w2
                    (trace w2
                     ++ [AddEvent (LinkLayerManageActiveChannels nn ADD (tc w2))])
              | None => w2
              end)
         end.
Proof.
  intros Hmsg Hi.
  destruct (list_index_Some _ _ _ Hi) as [Hat _].
  pose proof (lookup_lt_Some _ _ _ Hat) as Hlt.
  remember (handle_control packet w) as r eqn:Hr.
  unfold handle_control in Hr. rewrite Hmsg in Hr.
  unfold bind at 1, gets at 1 in Hr. rewrite Hi in Hr. cbv zeta in Hr.
  (* the two names read from the route *)
  assert (Hpn : exists pn,
    (if Z.ltb 0 (Z.of_nat i)
     then bind (item (route instructions) (Z.of_nat i - 1))
            (fun x => ret (Some x))
     else ret None) w = (Returned pn, w)).
  { destruct i as [|j].
    - exists None. reflexivity.
    - destruct (Z.ltb_spec 0 (Z.of_nat (S j))); [|lia].
      replace (Z.of_nat (S j) - 1) with (Z.of_nat j) by lia.
      unfold bind. rewrite item_nat.
      destruct (route instructions !! j) as [x|] eqn:Hx;
        [eexists; reflexivity|].
      apply lookup_ge_None in Hx. lia. }
  assert (Hnn :
    (if Z.ltb (Z.of_nat i) (Z.of_nat (length (route instructions)) - 1)
     then bind (item (route instructions) (Z.of_nat i + 1))
            (fun x => ret (Some x))
     else ret None) w = (Returned (route instructions !! S i), w)).
  { destruct (Z.ltb_spec (Z.of_nat i)
                (Z.of_nat (length (route instructions)) - 1)) as [Hin|Hout].
    - replace (Z.of_nat i + 1) with (Z.of_nat (S i)) by lia.
      unfold bind. rewrite item_nat.
      destruct (route instructions !! S i) as [x|] eqn:Hx; [reflexivity|].
      apply lookup_ge_None in Hx. lia.
    - rewrite (proj2 (lookup_ge_None (route instructions) (S i))) by lia.
      reflexivity. }
  destruct Hpn as [pn Hpn].
  unfold bind at 1 in Hr. rewrite Hpn in Hr.
  unfold bind at 1 in Hr. rewrite Hnn in Hr.
  unfold bind at 1 in Hr.
  destruct (neighbor_memory_cases pn w) as [[e He]|[prev_qmem Hprev]];
    [rewrite He in Hr; left; eauto|].
  rewrite Hprev in Hr. unfold bind at 1 in Hr.
  destruct (neighbor_memory_cases (route instructions !! S i) w)
    as [[e He]|[next_qmem Hnext]]; [rewrite He in Hr; left; eauto|].
  rewrite Hnext in Hr. right. exists prev_qmem, next_qmem. cbv zeta.
  unfold bind at 1 in Hr.
  change ((if String.eqb (mux instructions) "B" then _ else _) w)
    with (allocation_block instructions prev_qmem next_qmem path_id w) in Hr.
  destruct (allocation_block instructions prev_qmem next_qmem path_id w)
    as [[[]|e] w1]; simpl; [|exact Hr].
  rewrite Hr.
  unfold bind, gets, delete_entry, add_entry, modify, add_event, modify, ret.
  unfold get_entry.
  destruct (fib (net_layer w1) !! path_id) as [old|] eqn:Hold; simpl.
  - rewrite insert_delete_eq.
    destruct (resolved (route instructions !! S i)); reflexivity.
  - destruct (resolved (route instructions !! S i)); reflexivity.
Qed.
End ControlMore.

Section ControlClaims.
Import PyM Memory Net ProactiveRoutingApp.

Lemma only_memories_fields {A} (c : NodeM A) (w : World) :
  only_memories c ->
  net_layer (snd (c w)) = net_layer w /\ trace (snd (c w)) = trace w
  /\ tc (snd (c w)) = tc w /\ link_layer (snd (c w)) = link_layer w.
Proof. intros H. rewrite (H w). repeat split; reflexivity. Qed.

(** X21. [handle_control] on a controller message.  A node that is not in
    the route raises [Exception] and is unchanged.  Whenever the handler
    raises, the FIB, the other forwarder attributes and the event queue are
    as before: no path is installed by a failed call.  When it returns,
    the FIB maps [path_id] to the entry built from the message (an entry
    already there is replaced, the other paths are kept), and the only
    event handed to the simulator is the request to the link layer to
    activate the channel to the next node of the route, at the current
    time; the last node of the route hands over none. *)
Theorem handle_control_installs_path :
  forall (w : World) (packet : RecvClassicPacket) (path_id : Z)
         (instructions : Instructions),
    msg (Net.packet packet) = CONTROL path_id instructions ->
    (own w ∉ route instructions ->
     handle_control packet w
     = (Raised (Exception "Node not found in route vector"), w))
    /\ (forall e w',
          handle_control packet w = (Raised e, w') ->
          net_layer w' = net_layer w /\ trace w' = trace w)
    /\ (forall w',
          handle_control packet w = (Returned tt, w') ->
          get_entry path_id w' = Some (installed path_id instructions)
          /\ (forall p, p <> path_id -> get_entry p w' = get_entry p w)
          /\ parallel_swappings (net_layer w') = parallel_swappings (net_layer w)
          /\ exists i,
               list_index (route instructions) (own w) = Some i
               /\ trace w'
                  = trace w
                    ++ match resolved (route instructions !! S i) with
                       | Some next =>
                           [AddEvent (LinkLayerManageActiveChannels next ADD (tc w))]
                       | None => []
                       end
               /\ (S i = length (route instructions) -> trace w' = trace w)).
Proof.
  intros w packet path_id instructions Hmsg.
  destruct (list_index (route instructions) (own w)) as [i|] eqn:Hi.
  - destruct (handle_control_stages packet path_id instructions i w Hmsg Hi)
      as [[e0 He0]|(prev_qmem & next_qmem & Hrun)].
    + split; [|split].
      * intros Hnot. apply list_index_None in Hnot. congruence.
      * intros e w' H. rewrite He0 in H. injection H as _ <-.
        split; reflexivity.
      * intros w' H. rewrite He0 in H. discriminate.
    + cbv zeta in Hrun.
      pose proof (only_memories_fields _ w
                    (only_memories_allocation_block instructions prev_qmem
                       next_qmem path_id)) as (Hnl & Htr & Htc & _).
      destruct (allocation_block instructions prev_qmem next_qmem path_id w)
        as [[[]|e1] w1]; simpl in *.
      * split; [|split].
        -- intros Hnot. apply list_index_None in Hnot. congruence.
        -- intros e w' H. rewrite Hrun in H. discriminate.
        -- intros w' H. rewrite Hrun in H. injection H as <-.
           assert (Hfib : forall p,
             get_entry p
               (match resolved (route instructions !! S i) with
                | Some nn =>
                    set_trace
                      (set_net_layer w1
                         (set_fib (net_layer w1)
                            (<[path_id := installed path_id instructions]>
                               (fib (net_layer w1)))))
                      (trace w1
                       ++ [AddEvent (LinkLayerManageActiveChannels nn ADD (tc w1))])
                | None =>
                    set_net_layer w1
                      (set_fib (net_layer w1)
                         (<[path_id := installed path_id instructions]>
                            (fib (net_layer w1))))
                end)
             = <[path_id := installed path_id instructions]>
                 (fib (net_layer w)) !! p).
           { intros p. rewrite <- Hnl.
             destruct (resolved (route instructions !! S i)); reflexivity. }
           split; [rewrite Hfib; apply lookup_insert_eq|].
           split; [intros p Hne; rewrite Hfib; unfold get_entry;
                   apply lookup_insert_ne; congruence|].
           split.
           { rewrite <- Hnl.
             destruct (resolved (route instructions !! S i)); reflexivity. }
           exists i. split; [reflexivity|]. split.
           ++ rewrite <- Htr, <- Htc.
              destruct (resolved (route instructions !! S i)); simpl;
                [reflexivity|rewrite app_nil_r; reflexivity].
           ++ intros Hlast.
              rewrite (proj2 (lookup_ge_None (route instructions) (S i)))
                by lia.
              simpl. exact Htr.
      * split; [|split].
        -- intros Hnot. apply list_index_None in Hnot. congruence.
        -- intros e w' H. rewrite Hrun in H. injection H as _ <-.
           split; assumption.
        -- intros w' H. rewrite Hrun in H. discriminate.
  - assert (Hraise : handle_control packet w
                     = (Raised (Exception "Node not found in route vector"), w)).
    { unfold handle_control. rewrite Hmsg. unfold bind, gets. rewrite Hi.
      reflexivity. }
    split; [intros _; exact Hraise|]. split.
    + intros e w' H. rewrite Hraise in H. injection H as _ <-.
      split; reflexivity.
    + intros w' H. rewrite Hraise in H. discriminate.
Qed.
End ControlClaims.

Section SwapMore.
Import PyM Memory Net ProactiveRoutingApp.

Lemma bind_returned {A B} (c : NodeM A) (k : A -> NodeM B) (w w' : World)
    (b : B) :
  bind c k w = (Returned b, w') ->
  exists a w1, c w = (Returned a, w1) /\ k a w1 = (Returned b, w').
Proof.
  unfold bind. destruct (c w) as [[a|e] w1]; [|discriminate].
  intros H. exists a, w1. split; [reflexivity|exact H].
Qed.

Lemma emits_refl (w : World) : emits w w [].
Proof. unfold emits. rewrite app_nil_r. repeat split; reflexivity. Qed.

Lemma emits_trans (w w1 w2 : World) (l1 l2 : list Action) :
  emits w w1 l1 -> emits w1 w2 l2 -> emits w w2 (l1 ++ l2).
Proof.
  unfold emits. intros (H1 & H2 & H3 & H4 & H5 & H6) (K1 & K2 & K3 & K4 & K5 & K6).
  rewrite K1, H1, <- app_assoc. repeat split; congruence.
Qed.

Lemma emits_quiet (w w1 w2 : World) (l : list Action) :
  emits w w1 [] -> emits w1 w2 l -> emits w w2 l.
Proof. intros H1 H2. apply (emits_trans w w1 w2 [] l); assumption. Qed.

Lemma set_cell_epr_quiet (q : QubitRef) (e : Epr) (w : World) :
  emits w (snd (set_cell_epr q e w)) [].
Proof.
  unfold set_cell_epr, modify, emits. simpl.
  destruct (storage (the_memory (fst q) w) !! snd q) as [[mq [x|]]|];
    simpl; rewrite app_nil_r; repeat split; reflexivity.
Qed.

Lemma parallel_set_quiet (k : string) (r : Epr * Epr * Epr) (w : World) :
  emits w (snd (parallel_set k r w)) [].
Proof.
  unfold parallel_set, modify, emits. simpl. rewrite app_nil_r.
  repeat split; reflexivity.
Qed.

Lemma qmem_read_quiet (qmem : nat) (sel : selector) (w : World) :
  emits w (snd (qmem_read qmem sel w)) [].
Proof.
  unfold qmem_read, emits.
  destruct (Memory.read sel (the_memory qmem w)) as [[[[i q] e]|] m'];
    simpl; rewrite app_nil_r; repeat split; reflexivity.
Qed.

Lemma qubit_fsm_quiet (f : MemoryQubit -> MemoryQubit) (q : QubitRef)
    (w : World) :
  emits w (snd (qubit_fsm f q w)) [].
Proof.
  unfold qubit_fsm, modify, emits. simpl. rewrite app_nil_r.
  repeat split; reflexivity.
Qed.

Lemma add_event_emits (ev : Event) (w : World) :
  emits w (snd (add_event ev w)) [AddEvent ev].
Proof. unfold add_event, modify, emits. simpl. repeat split; reflexivity. Qed.

Lemma send_swap_update_emits (dest : string) (m : SwapUpdate)
    (route : list string) (w w' : World) :
  send_swap_update dest m route false w = (Returned tt, w') ->
  exists ch next_hop,
    emits w w'
      [ClassicSend ch
         {| msg := SWAP_UPDATE m; pkt_src := own w;
            pkt_src_entity := IsQNode; pkt_dest := dest |}
         next_hop None].
Proof.
  intros Hrun.
  destruct (send_swap_update_cases dest m route false w)
    as [[e He]|(oi & di & nh & ch & _ & _ & _ & _ & Hs)];
    [rewrite He in Hrun; discriminate|].
  rewrite Hs in Hrun. injection Hrun as <-.
  exists ch, nh. unfold emits. simpl. repeat split; reflexivity.
Qed.

(** The ranks looked up and the records kept after a successful swap. *)
Lemma swap_records_quiet (fib_entry : RouteEntry) (own_idx : Z)
    (pp np : string) (prev next ne : Epr) (w w' : World) (r : option Epr) :
  (own_rank <- item (re_swap_sequence fib_entry) own_idx ;;
   prev_p_idx <- index_of (re_path_vector fib_entry) pp ;;
   prev_p_rank <- item (re_swap_sequence fib_entry) prev_p_idx ;;
   (if Z.eqb own_rank prev_p_rank then
      parallel_set (epr_name prev) (prev, next, ne)
    else ret tt) ;;;
   next_p_idx <- index_of (re_path_vector fib_entry) np ;;
   next_p_rank <- item (re_swap_sequence fib_entry) next_p_idx ;;
   (if Z.eqb own_rank next_p_rank then
      parallel_set (epr_name next) (next, prev, ne)
    else ret tt) ;;;
   ret (Some ne))%py w = (Returned r, w') ->
  r = Some ne /\ emits w w' [].
Proof.
  unfold bind, index_of, item, ret.
  destruct (subscript (re_swap_sequence fib_entry) own_idx) as [orank|];
    [|discriminate].
  destruct (list_index (re_path_vector fib_entry) pp) as [pi|];
    [|discriminate].
  destruct (subscript (re_swap_sequence fib_entry) (Z.of_nat pi)) as [pr|];
    [|discriminate].
  pose proof (parallel_set_quiet (epr_name prev) (prev, next, ne) w) as Q1.
  destruct (Z.eqb orank pr).
  - destruct (parallel_set (epr_name prev) (prev, next, ne) w) as [[[]|] w1] eqn:H1;
      [|discriminate]. simpl in Q1.
    destruct (list_index (re_path_vector fib_entry) np) as [ni|];
      [|discriminate].
    destruct (subscript (re_swap_sequence fib_entry) (Z.of_nat ni)) as [nr|];
      [|discriminate].
    pose proof (parallel_set_quiet (epr_name next) (next, prev, ne) w1) as Q2.
    destruct (Z.eqb orank nr).
    + destruct (parallel_set (epr_name next) (next, prev, ne) w1) as [[[]|] w2];
        [|discriminate]. simpl in Q2.
      intros [= <- <-]. split; [reflexivity|].
      apply (emits_quiet w w1 w2); assumption.
    + intros [= <- <-]. split; [reflexivity|assumption].
  - destruct (list_index (re_path_vector fib_entry) np) as [ni|];
      [|discriminate].
    destruct (subscript (re_swap_sequence fib_entry) (Z.of_nat ni)) as [nr|];
      [|discriminate].
    pose proof (parallel_set_quiet (epr_name next) (next, prev, ne) w) as Q2.
    destruct (Z.eqb orank nr).
    + destruct (parallel_set (epr_name next) (next, prev, ne) w) as [[[]|] w2];
        [|discriminate]. simpl in Q2.
      intros [= <- <-]. split; [reflexivity|assumption].
    + intros [= <- <-]. split; [reflexivity|apply emits_refl].
Qed.

Tactic Notation "bind_step" hyp(H) ident(a) ident(w1) ident(Ha) :=
  apply bind_returned in H as (a & w1 & Ha & H).

Tactic Notation "gets_step" hyp(H) ident(a) :=
  let w1 := fresh "w" in
  let Ha := fresh "Ha" in
  apply bind_returned in H as (a & w1 & Ha & H);
  unfold gets in Ha; injection Ha as <- <-.

Lemma emits_quiet_r (w w1 w2 : World) (l : list Action) :
  emits w w1 l -> emits w1 w2 [] -> emits w w2 l.
Proof.
  intros H1 H2. pose proof (emits_trans w w1 w2 l [] H1 H2) as H.
  rewrite app_nil_r in H. exact H.
Qed.

Lemma emits_fields (w w' : World) (l : list Action) :
  emits w w' l ->
  own w' = own w /\ tc w' = tc w
  /\ time_slots_per_us w' = time_slots_per_us w.
Proof. intros (_ & H1 & H2 & H3 & _). repeat split; assumption. Qed.

Lemma epr_name_tagged (e : Epr) (i : option Z) :
  epr_name match orig_eprs e with
           | [] => epr_set_ch_index e i
           | _ :: _ => e
           end = epr_name e.
Proof. destruct (orig_eprs e); reflexivity. Qed.

Lemma emits_of_run {A} (c : NodeM A) (w w1 : World) (a : A) (l : list Action) :
  emits w (snd (c w)) l -> c w = (Returned a, w1) -> emits w w1 l.
Proof. intros H Hc. rewrite Hc in H. exact H. Qed.

(** What a returning [eligible_swap] that found a partner qubit hands
    over. *)
Lemma eligible_swap_emits swapping (w w' : World) (qmem : nat)
    (qubit : QubitRef) (fib_entry : RouteEntry) (own_idx : Z)
    (other_qmem : nat) (other_qubit : QubitRef) (other_epr : Epr)
    (rest : list (QubitRef * Epr)) :
  check_eligible_qubit qmem (Some (re_path_id fib_entry)) w
    = Some (other_qmem, (other_qubit, other_epr) :: rest) ->
  eligible_swap swapping qmem qubit fib_entry own_idx w = (Returned tt, w') ->
  exists this_cell this_epr prev_msg next_msg ch1 ch2 hop1 hop2 q1 q2 m1 m2,
    qmem_get qmem (ByAddr (qubit_addr qubit)) w = Some (this_cell, this_epr)
    /\ emits w w'
         [ClassicSend ch1
            {| msg := SWAP_UPDATE prev_msg; pkt_src := own w;
               pkt_src_entity := IsQNode; pkt_dest := destination prev_msg |}
            hop1 None;
          ClassicSend ch2
            {| msg := SWAP_UPDATE next_msg; pkt_src := own w;
               pkt_src_entity := IsQNode; pkt_dest := destination next_msg |}
            hop2 None;
          AddEvent (QubitReleasedEvent q1 false (tc w) m1);
          AddEvent (QubitReleasedEvent q2 false
                      (tc w + time_slots_per_us w) m2)]
    /\ (swapping_node prev_msg = own w /\ swapping_node next_msg = own w)
    /\ (su_path_id prev_msg = re_path_id fib_entry
        /\ su_path_id next_msg = re_path_id fib_entry)
    /\ (fwd prev_msg = false /\ fwd next_msg = false)
    /\ (partner prev_msg = destination next_msg
        /\ partner next_msg = destination prev_msg)
    /\ new_epr prev_msg = new_epr next_msg
    /\ (forall ne, new_epr prev_msg = Some ne ->
          epr_src ne = destination prev_msg
          /\ epr_dst ne = destination next_msg)
    /\ ((epr_dst this_epr = own w
         /\ (q1, m1, q2, m2) = (qubit, qmem, other_qubit, other_qmem)
         /\ (epr prev_msg, destination prev_msg)
            = (epr_name this_epr, epr_src this_epr)
         /\ (epr next_msg, destination next_msg)
            = (epr_name other_epr, epr_dst other_epr))
        \/ (epr_dst this_epr <> own w /\ epr_src this_epr = own w
            /\ (q1, m1, q2, m2) = (other_qubit, other_qmem, qubit, qmem)
            /\ (epr prev_msg, destination prev_msg)
               = (epr_name other_epr, epr_src other_epr)
            /\ (epr next_msg, destination next_msg)
               = (epr_name this_epr, epr_dst this_epr))).
Proof.
  intros Hfound Hrun. unfold eligible_swap in Hrun.
  gets_step Hrun own_name. gets_step Hrun found.
  rewrite Hfound in Hrun. cbv zeta in Hrun.
  gets_step Hrun this.
  destruct (qmem_get qmem (ByAddr (qubit_addr qubit)) w)
    as [[this_cell this_epr]|] eqn:Hthis; [|discriminate].
  bind_step Hrun order w1 Horder.
  assert (Hcase :
    w1 = w
    /\ ((epr_dst this_epr = own w
         /\ order = (mkSwapOrder (epr_src this_epr) this_epr
                       (epr_dst other_epr) other_epr
                       qubit other_qubit qmem other_qmem, true))
        \/ (epr_dst this_epr <> own w /\ epr_src this_epr = own w
            /\ order = (mkSwapOrder (epr_src other_epr) other_epr
                          (epr_dst this_epr) this_epr
                          other_qubit qubit other_qmem qmem, false)))).
  { destruct (String.eqb_spec (epr_dst this_epr) (own w)) as [Hd|Hd].
    - injection Horder as <- <-.
      split; [reflexivity|left; split; [exact Hd|reflexivity]].
    - destruct (String.eqb_spec (epr_src this_epr) (own w)) as [Hs|Hs];
        [|discriminate].
      injection Horder as <- <-.
      split; [reflexivity|right; repeat split; assumption]. }
  destruct Hcase as [-> Horder'].
  exists this_cell, this_epr.
  destruct Horder' as [[Hd ->] | (Hd & Hs & ->)];
    cbv iota beta zeta in Hrun; simpl in Hrun.
  all: bind_step Hrun u1 w1 Hc1.
  all: pose proof (emits_of_run _ _ _ _ _ (set_cell_epr_quiet _ _ _) Hc1) as E1.
  all: bind_step Hrun u2 w2 Hc2.
  all: pose proof (emits_of_run _ _ _ _ _ (set_cell_epr_quiet _ _ _) Hc2) as E2.
  all: gets_step Hrun p.
  all: bind_step Hrun ne w3 Hne.
  all: match type of Hne with
       | match ?s with _ => _ end _ = _ => destruct s as [x|] eqn:Hsw
       end.
  all: try (eapply swap_records_quiet in Hne as [Hnew E3]).
  all: try (injection Hne as Hnew Hw3; symmetry in Hnew; subst w3;
            pose proof (emits_refl w2) as E3).
  all: bind_step Hrun u3 w4 Hs1.
  all: destruct u3; apply send_swap_update_emits in Hs1 as (ch1 & hop1 & E4).
  all: bind_step Hrun u4 w5 Hs2.
  all: destruct u4; apply send_swap_update_emits in Hs2 as (ch2 & hop2 & E5).
  all: bind_step Hrun r1 w6 Hr1.
  all: pose proof (emits_of_run _ _ _ _ _ (qmem_read_quiet _ _ _) Hr1) as E6.
  all: bind_step Hrun r2 w7 Hr2.
  all: pose proof (emits_of_run _ _ _ _ _ (qmem_read_quiet _ _ _) Hr2) as E7.
  all: bind_step Hrun u5 w8 Hf1.
  all: pose proof (emits_of_run _ _ _ _ _ (qubit_fsm_quiet _ _ _) Hf1) as E8.
  all: bind_step Hrun u6 w9 Hf2.
  all: pose proof (emits_of_run _ _ _ _ _ (qubit_fsm_quiet _ _ _) Hf2) as E9.
  all: gets_step Hrun now.
  all: gets_step Hrun us.
  all: bind_step Hrun u7 w10 Ha1.
  all: pose proof (emits_of_run _ _ _ _ _ (add_event_emits _ _) Ha1) as E10.
  all: pose proof (emits_of_run _ _ _ _ _ (add_event_emits _ _) Hrun) as E11.
  all: clear Hc1 Hc2 Hr1 Hr2 Hf1 Hf2 Ha1 Hrun Horder.
  all: pose proof (emits_quiet _ _ _ _ E1 (emits_quiet _ _ _ _ E2 E3)) as T3.
  all: pose proof (emits_trans _ _ _ _ _ T3 E4) as T4.
  all: pose proof (emits_trans _ _ _ _ _ T4 E5) as T5.
  all: pose proof (emits_quiet_r _ _ _ _
         (emits_quiet_r _ _ _ _
            (emits_quiet_r _ _ _ _ (emits_quiet_r _ _ _ _ T5 E6) E7) E8) E9)
         as T9.
  all: pose proof (emits_trans _ _ _ _ _ (emits_trans _ _ _ _ _ T9 E10) E11)
         as T.
  all: destruct (emits_fields _ _ _ T3) as (O3 & _ & _).
  all: destruct (emits_fields _ _ _ T4) as (O4 & _ & _).
  all: destruct (emits_fields _ _ _ T9) as (_ & C9 & U9).
  all: rewrite O3, O4, C9, U9 in T; simpl in T.
  all: match type of E4 with context [SWAP_UPDATE ?m] => exists m end.
  all: match type of E5 with context [SWAP_UPDATE ?m] => exists m end.
  all: exists ch1, ch2, hop1, hop2.
  all: match type of E10 with
       | context [QubitReleasedEvent ?q _ _ ?m] => exists q end.
  all: match type of E11 with
       | context [QubitReleasedEvent ?q _ _ ?m] => exists q end.
  all: match type of E10 with
       | context [QubitReleasedEvent ?q _ _ ?m] => exists m end.
  all: match type of E11 with
       | context [QubitReleasedEvent ?q _ _ ?m] => exists m end.
  all: split; [reflexivity|]; split; [exact T|]; simpl.
  all: rewrite !epr_name_tagged.
  all: repeat match goal with |- _ /\ _ => split end; try reflexivity.
  all: try (intros ne0 Hne0; rewrite Hnew in Hne0;
            first [discriminate
                  | injection Hne0 as <-; split; reflexivity]).
  all: try (left; repeat split; [exact Hd]).
  all: try (right; repeat split; [exact Hd|exact Hs]).
Qed.
End SwapMore.

Section EligibleMore.
Import PyM Net Memory ProactiveRoutingApp.
Local Open Scope py_scope.
Variable swapping : Epr -> Epr -> Q -> option Epr.

Lemma check_eligible_from_None (i : nat) (ms : list QuantumMemory)
    (name : string) (p : option Z) :
  check_eligible_from i ms name p = None <->
  (forall qm, In qm ms -> mem_name qm <> name ->
     search_eligible_qubits p qm = []).
Proof.
  revert i. induction ms as [|qm ms IH]; intros i; simpl.
  - split; [intros _ qm []|reflexivity].
  - destruct (String.eqb (mem_name qm) name) eqn:Hn; simpl.
    + apply String.eqb_eq in Hn. rewrite IH. split.
      * intros H q [<-|Hin] Hq; [contradiction|apply H; assumption].
      * intros H q Hin. apply H. right. exact Hin.
    + apply String.eqb_neq in Hn.
      destruct (search_eligible_qubits p qm) as [|x l] eqn:Hs.
      * rewrite IH. split.
        -- intros H q [<-|Hin] Hq; [exact Hs|apply H; assumption].
        -- intros H q Hin. apply H. right. exact Hin.
      * split; [discriminate|].
        intros H. specialize (H qm (or_introl eq_refl) Hn).
        rewrite Hs in H. discriminate.
Qed.

Lemma check_eligible_from_Some (i : nat) (ms : list QuantumMemory)
    (name : string) (p : option Z) (j : nat) (l : list (QubitRef * Epr)) :
  check_eligible_from i ms name p = Some (j, l) ->
  exists k qm,
    j = (i + k)%nat /\ ms !! k = Some qm /\ mem_name qm <> name
    /\ l <> []
    /\ l = map (fun r => ((j, fst (fst r)), snd r))
             (search_eligible_qubits p qm)
    /\ (forall k' qm', (k' < k)%nat -> ms !! k' = Some qm' ->
          mem_name qm' <> name -> search_eligible_qubits p qm' = []).
Proof.
  revert i. induction ms as [|qm ms IH]; intros i; simpl; [discriminate|].
  assert (Hrec : check_eligible_from (S i) ms name p = Some (j, l) ->
    (mem_name qm <> name -> search_eligible_qubits p qm = []) ->
    exists k qm0,
      j = (i + k)%nat /\ (qm :: ms) !! k = Some qm0 /\ mem_name qm0 <> name
      /\ l <> []
      /\ l = map (fun r => ((j, fst (fst r)), snd r))
               (search_eligible_qubits p qm0)
      /\ (forall k' qm', (k' < k)%nat -> (qm :: ms) !! k' = Some qm' ->
            mem_name qm' <> name -> search_eligible_qubits p qm' = [])).
  { intros H Hq. destruct (IH _ H) as (k & q & -> & Hk & Hn & Hl & Hm & Hf).
    exists (S k), q. repeat split; try assumption; [lia|].
    intros [|k'] qm' Hlt Hk' Hn'.
    - injection Hk' as <-. apply Hq. exact Hn'.
    - apply (Hf k' qm'); [lia|exact Hk'|exact Hn']. }
  destruct (String.eqb (mem_name qm) name) eqn:Hn; simpl.
  - apply String.eqb_eq in Hn. intros H. apply Hrec; [exact H|].
    intros Hq. contradiction.
  - apply String.eqb_neq in Hn.
    destruct (search_eligible_qubits p qm) as [|x xs] eqn:Hs.
    + intros H. apply Hrec; [exact H|]. intros _. reflexivity.
    + intros [= <- <-]. exists O, qm.
      repeat split; try assumption; [lia|discriminate| |].
      * rewrite Hs. reflexivity.
      * intros k' qm' Hlt. lia.
Qed.

(** X22. [check_eligible_qubit] looks through the memories of the node in
    their order and skips every memory that has the name of the memory it
    was called with: it returns [None] exactly when no memory of another
    name has an eligible qubit on the path, and otherwise the position of
    the first such memory together with all its eligible qubits, none of
    them being left out and the list never being empty. *)
Theorem check_eligible_qubit_first_other_memory (qmem : nat)
    (path_id : option Z) (w : World) :
  (check_eligible_qubit qmem path_id w = None <->
   forall qm, In qm (memories w) ->
     mem_name qm <> mem_name (the_memory qmem w) ->
     search_eligible_qubits path_id qm = [])
  /\ (forall j l, check_eligible_qubit qmem path_id w = Some (j, l) ->
      exists qm,
        memories w !! j = Some qm
        /\ mem_name qm <> mem_name (the_memory qmem w)
        /\ l <> []
        /\ l = map (fun r => ((j, fst (fst r)), snd r))
                 (search_eligible_qubits path_id qm)
        /\ (forall k' qm', (k' < j)%nat -> memories w !! k' = Some qm' ->
              mem_name qm' <> mem_name (the_memory qmem w) ->
              search_eligible_qubits path_id qm' = [])).
Proof.
  unfold check_eligible_qubit. split.
  - apply check_eligible_from_None.
  - intros j l H.
    destruct (check_eligible_from_Some _ _ _ _ _ _ H)
      as (k & qm & -> & Hk & Hn & Hl & Hm & Hf).
    exists qm. simpl in *. repeat split; assumption.
Qed.

Lemma eligible_intermediate (qmem : nat) (qubit : QubitRef)
    (fib_entry : RouteEntry) (w : World) (i : nat) :
  outside_internal_phase w = false ->
  list_index (re_path_vector fib_entry) (own w) = Some i ->
  (0 < i)%nat -> (S i < length (re_path_vector fib_entry))%nat ->
  eligible swapping qmem qubit fib_entry w
  = eligible_swap swapping qmem qubit fib_entry (Z.of_nat i) w.
Proof.
  intros Hgate Hidx H0 Hlast.
  unfold eligible, bind, gets, index_of. rewrite Hgate. simpl.
  rewrite Hidx. simpl.
  replace (Z.ltb 0 (Z.of_nat i)) with true by (symmetry; apply Z.ltb_lt; lia).
  replace (Z.ltb (Z.of_nat i)
             (Z.of_nat (length (re_path_vector fib_entry)) - 1))
    with true by (symmetry; apply Z.ltb_lt; lia).
  reflexivity.
Qed.

(** X23. A qubit that becomes eligible at an intermediate node of its path
    while no memory of another name holds an eligible qubit of that path
    is left waiting: [eligible] returns, and nothing of the node changes
    (no message, no event, the slot kept). *)
Theorem eligible_without_partner_waits (qmem : nat) (qubit : QubitRef)
    (fib_entry : RouteEntry) (w : World) (i : nat) :
  outside_internal_phase w = false ->
  list_index (re_path_vector fib_entry) (own w) = Some i ->
  (0 < i)%nat -> (S i < length (re_path_vector fib_entry))%nat ->
  (forall qm, In qm (memories w) ->
     mem_name qm <> mem_name (the_memory qmem w) ->
     search_eligible_qubits (Some (re_path_id fib_entry)) qm = []) ->
  eligible swapping qmem qubit fib_entry w = (Returned tt, w).
Proof.
  intros Hgate Hidx H0 Hlast Hnone.
  rewrite (eligible_intermediate _ _ _ _ i) by assumption.
  apply (proj2 (check_eligible_from_None O _ _ _)) in Hnone.
  unfold eligible_swap, bind, gets. simpl.
  unfold check_eligible_qubit. rewrite Hnone. reflexivity.
Qed.

(** X24. A swap at an intermediate node.  When [eligible] runs at an
    intermediate node of the path, finds an eligible qubit of the path in
    another memory and returns, the node has sent exactly two SWAP_UPDATE
    messages and scheduled exactly two [QubitReleasedEvent]s, in this order
    and nothing else: one message to each outer end of the two pairs (the
    source of the pair that ends at this node, the destination of the pair
    that starts at it), each naming this node as the swapping node, the
    other end as partner, the path and the pair held by its addressee,
    both carrying the same new pair (whose ends are the two addressees)
    and [fwd = False]; the two
    events are for the two qubits of the swap, with [e2e = False], the
    first at the current time and the second one microsecond later; the
    count of end-to-end pairs is unchanged. *)
Theorem eligible_intermediate_swap_notifies_both_ends (qmem : nat)
    (qubit : QubitRef) (fib_entry : RouteEntry) (w w' : World) (i : nat)
    (other_qmem : nat) (other_qubit : QubitRef) (other_epr : Epr)
    (rest : list (QubitRef * Epr)) :
  outside_internal_phase w = false ->
  list_index (re_path_vector fib_entry) (own w) = Some i ->
  (0 < i)%nat -> (S i < length (re_path_vector fib_entry))%nat ->
  check_eligible_qubit qmem (Some (re_path_id fib_entry)) w
    = Some (other_qmem, (other_qubit, other_epr) :: rest) ->
  eligible swapping qmem qubit fib_entry w = (Returned tt, w') ->
  exists this_cell this_epr prev_msg next_msg ch1 ch2 hop1 hop2 q1 q2 m1 m2,
    qmem_get qmem (ByAddr (qubit_addr qubit)) w = Some (this_cell, this_epr)
    /\ emits w w'
         [ClassicSend ch1
            {| msg := SWAP_UPDATE prev_msg; pkt_src := own w;
               pkt_src_entity := IsQNode; pkt_dest := destination prev_msg |}
            hop1 None;
          ClassicSend ch2
            {| msg := SWAP_UPDATE next_msg; pkt_src := own w;
               pkt_src_entity := IsQNode; pkt_dest := destination next_msg |}
            hop2 None;
          AddEvent (QubitReleasedEvent q1 false (tc w) m1);
          AddEvent (QubitReleasedEvent q2 false
                      (tc w + time_slots_per_us w) m2)]
    /\ (swapping_node prev_msg = own w /\ swapping_node next_msg = own w)
    /\ (su_path_id prev_msg = re_path_id fib_entry
        /\ su_path_id next_msg = re_path_id fib_entry)
    /\ (fwd prev_msg = false /\ fwd next_msg = false)
    /\ (partner prev_msg = destination next_msg
        /\ partner next_msg = destination prev_msg)
    /\ new_epr prev_msg = new_epr next_msg
    /\ (forall ne, new_epr prev_msg = Some ne ->
          epr_src ne = destination prev_msg
          /\ epr_dst ne = destination next_msg)
    /\ ((epr_dst this_epr = own w
         /\ (q1, m1, q2, m2) = (qubit, qmem, other_qubit, other_qmem)
         /\ (epr prev_msg, destination prev_msg)
            = (epr_name this_epr, epr_src this_epr)
         /\ (epr next_msg, destination next_msg)
            = (epr_name other_epr, epr_dst other_epr))
        \/ (epr_dst this_epr <> own w /\ epr_src this_epr = own w
            /\ (q1, m1, q2, m2) = (other_qubit, other_qmem, qubit, qmem)
            /\ (epr prev_msg, destination prev_msg)
               = (epr_name other_epr, epr_src other_epr)
            /\ (epr next_msg, destination next_msg)
               = (epr_name this_epr, epr_dst this_epr))).
Proof.
  intros Hgate Hidx H0 Hlast Hfound Hrun.
  rewrite (eligible_intermediate _ _ _ _ i) in Hrun by assumption.
  exact (eligible_swap_emits swapping _ _ _ _ _ _ _ _ _ _ Hfound Hrun).
Qed.
End EligibleMore.

Section LinkLayerMore.
Import PyM Memory Net LinkLayerApp.
Local Open Scope py_scope.
Variable uuid4_hex : nat -> string.
Variable WernerStateEntanglement : Q -> string -> Epr.

Lemma memory_position_lookup (name : string) (ms : list QuantumMemory)
    (i : nat) :
  memory_position name ms = Some i ->
  exists m, ms !! i = Some m /\ mem_name m = name.
Proof.
  revert i. induction ms as [|m ms IH]; intros i; simpl; [discriminate|].
  destruct (String.eqb (mem_name m) name) eqn:Hn.
  - intros [= <-]. exists m. split; [reflexivity|].
    apply String.eqb_eq. exact Hn.
  - destruct (memory_position name ms) as [j|]; simpl; [|discriminate].
    intros [= <-]. apply (IH j). reflexivity.
Qed.

Lemma get_lookup (sel : selector) (m : QuantumMemory) (i : nat)
    (q : MemoryQubit) (e : Epr) :
  Memory.get sel m = Some (i, q, e) -> storage m !! i = Some (q, Some e).
Proof.
  unfold Memory.get. destruct (search sel m) as [j|]; [|discriminate].
  destruct (storage m !! j) as [[q' [e'|]]|] eqn:Hj; try discriminate.
  intros [= <- <- <-]. exact Hj.
Qed.

(** A run of [generate_entanglement] for a slot that can take the pair. *)
Lemma generate_entanglement_run (qchannel : Channel) (next_hop : string)
    (qmemory : nat) (address : option Z) (w : World) (m0 : QuantumMemory)
    (i : nat) (q : MemoryQubit) :
  outside_external_phase w = false ->
  is_active qchannel w = true ->
  memories w !! qmemory = Some m0 ->
  write_slot None address m0 = Some i ->
  storage m0 !! i = Some (q, None) ->
  let epr := epr_set_path_id (next_epr_of uuid4_hex WernerStateEntanglement next_hop w) (pid q) in
  exists w',
    generate_entanglement uuid4_hex WernerStateEntanglement
      qchannel next_hop qmemory address w = (Returned tt, w')
    /\ trace w' = trace w
         ++ [AddEvent (QubitDecoherenceTimer (qmemory, i) (epr_name epr)
                         (tc w + coherence m0));
             QubitSend qchannel epr next_hop]
    /\ memories w' !! qmemory
       = Some (mem_set_storage m0
                 (<[i := (qubit_set_fsm q OCCUPIED, Some epr)]> (storage m0)))
    /\ (forall j, j <> qmemory -> memories w' !! j = memories w !! j)
    /\ uuid_calls (link_layer w') = S (uuid_calls (link_layer w))
    /\ own w' = own w /\ tc w' = tc w.
Proof.
  intros Hgate Hact Hm Hslot Hcell epr.
  assert (Hlt : (qmemory < length (memories w))%nat)
    by (eapply lookup_lt_Some; exact Hm).
  assert (Hi : (i < length (storage m0))%nat)
    by (eapply lookup_lt_Some; exact Hcell).
  unfold generate_entanglement, bind, gets. rewrite Hgate, Hact. simpl.
  unfold qmem_write, the_memory. simpl. rewrite Hm. simpl.
  unfold Memory.write. rewrite Hslot, Hcell. simpl.
  unfold qubit_pid, set_cell_epr, modify, the_memory, put_memory. simpl.
  rewrite !list_lookup_insert_eq by assumption. simpl.
  rewrite !list_lookup_insert_eq by assumption. simpl.
  eexists. split; [reflexivity|]. simpl.
  rewrite !list_insert_insert_eq, <- app_assoc. simpl.
  split; [reflexivity|].
  split; [rewrite list_lookup_insert_eq by assumption; reflexivity|].
  split; [|repeat split; reflexivity].
  intros j Hj. rewrite list_lookup_insert_ne by congruence. reflexivity.
Qed.

(** X27. A successful attempt of [generate_entanglement].  Past the phase
    test and the test of the active channels, when the slot [write]
    selects is empty, the call returns, has drawn exactly one uuid, and
    the pair it hands to the quantum channel for [next_hop] is the pair it
    stored in that slot: named by the uuid, with [src] the node itself and
    [dst = next_hop], and flagged with the path id of the slot.  No other
    memory is touched. *)
Theorem generate_entanglement_sends_stored_pair (qchannel : Channel)
    (next_hop : string) (qmemory : nat) (address : option Z) (w : World)
    (m0 : QuantumMemory) (i : nat) (q : MemoryQubit) :
  outside_external_phase w = false ->
  is_active qchannel w = true ->
  memories w !! qmemory = Some m0 ->
  write_slot None address m0 = Some i ->
  storage m0 !! i = Some (q, None) ->
  exists w' epr,
    generate_entanglement uuid4_hex WernerStateEntanglement
      qchannel next_hop qmemory address w = (Returned tt, w')
    /\ (exists timer,
          trace w' = trace w
            ++ [AddEvent (QubitDecoherenceTimer (qmemory, i) (epr_name epr)
                            timer);
                QubitSend qchannel epr next_hop])
    /\ storage (the_memory qmemory w') !! i
       = Some (qubit_set_fsm q OCCUPIED, Some epr)
    /\ epr_name epr = epr_name (WernerStateEntanglement
                                  (init_fidelity (link_layer w))
                                  (uuid4_hex (uuid_calls (link_layer w))))
    /\ epr_src epr = own w /\ epr_dst epr = next_hop
    /\ epr_path_id epr = pid q
    /\ uuid_calls (link_layer w') = S (uuid_calls (link_layer w))
    /\ (forall j, j <> qmemory -> memories w' !! j = memories w !! j).
Proof.
  intros Hgate Hact Hm Hslot Hcell.
  destruct (generate_entanglement_run qchannel next_hop qmemory address w
              m0 i q Hgate Hact Hm Hslot Hcell)
    as (w' & Hrun & Htr & Hmem & Hoth & Huuid & _ & _).
  exists w', (epr_set_path_id (next_epr_of uuid4_hex WernerStateEntanglement next_hop w) (pid q)).
  split; [exact Hrun|].
  split; [eexists; exact Htr|].
  split.
  { unfold the_memory. rewrite Hmem. simpl.
    apply list_lookup_insert_eq. eapply lookup_lt_Some; exact Hcell. }
  repeat split; try reflexivity; assumption.
Qed.

(** X26. [handle_distribution] answers every half-EPR with exactly one
    herald.  Past the phase test, with a classic channel to the sender and
    a memory named after the quantum channel, the handler returns after
    sending one herald addressed to the sender, the node at the other end
    of the quantum channel the qubit arrived on, on the classic channel
    to it: [epr_failed] when the pair is flagged as decohered (the
    memory is then not even written) or the write finds no slot,
    [epr_succeeded] otherwise.  In the latter case the pair sits in the
    slot the write selected, the qubit is ENTANGLED, and one
    [QubitEntangledEvent] for it is scheduled after the herald, at the
    current time plus the delay of the classic channel. *)
Theorem handle_distribution_heralds_once (packet : RecvQubitPacket)
    (sender : string) (cchannel : Channel) (qmemory : nat) (w : World) :
  let epr := rq_qubit packet in
  (node_list (rq_qchannel packet) = (sender, own w)
   \/ node_list (rq_qchannel packet) = (own w, sender)) ->
  outside_external_phase w = false ->
  get_cchannel (Some sender) w = Some cchannel ->
  memory_position (ch_name (rq_qchannel packet)) (memories w) = Some qmemory ->
  exists w' cmd pre post,
    handle_distribution packet w = (Returned tt, w')
    /\ trace w' = trace w ++ pre
         ++ [ClassicSend cchannel
               {| msg := HERALD {| h_cmd := cmd;
                                   h_path_id := epr_path_id epr;
                                   epr_id := epr_name epr |};
                  pkt_src := own w; pkt_src_entity := IsQNode;
                  pkt_dest := sender |}
               sender None] ++ post
    /\ (cmd = epr_succeeded <->
        is_decoherenced epr = false
        /\ fst (Memory.write epr (epr_path_id epr) None
                  (the_memory qmemory w)) <> None)
    /\ (cmd = epr_failed ->
        pre = [] /\ post = [] /\ memories w' = memories w)
    /\ (cmd = epr_succeeded ->
        exists i q timer,
          fst (Memory.write epr (epr_path_id epr) None
                 (the_memory qmemory w)) = Some (i, q)
          /\ pre = [AddEvent (QubitDecoherenceTimer (qmemory, i)
                                (epr_name epr) timer)]
          /\ post = [AddEvent (QubitEntangledEvent sender (qmemory, i)
                                 (tc w + delay cchannel))]
          /\ storage (the_memory qmemory w') !! i
             = Some (to_entangled q, Some epr)).
Proof.
  intros epr Hends Hgate Hch Hmem.
  apply other_end_sender in Hends. subst sender.
  set (from_node := other_end (rq_qchannel packet) w) in *.
  destruct (memory_position_lookup _ _ _ Hmem) as (m0 & Hm0 & _).
  assert (Hlt : (qmemory < length (memories w))%nat)
    by (eapply lookup_lt_Some; exact Hm0).
  unfold handle_distribution, bind, gets, ret.
  rewrite Hgate. fold from_node. rewrite Hch. fold epr.
  unfold cchannel_send, modify.
  destruct (is_decoherenced epr) eqn:Hdec.
  { eexists _, epr_failed, [], []. split; [reflexivity|].
    split; [reflexivity|].
    split; [split; [discriminate|intros [? _]; discriminate]|].
    split; [intros _; repeat split; reflexivity|discriminate]. }
  unfold memory_named. rewrite Hmem. unfold qmem_write.
  destruct (Memory.write epr (epr_path_id epr) None (the_memory qmemory w))
    as [[[i q']|] m'] eqn:Hw; simpl.
  - assert (Hcell : storage m' !! i = Some (q', Some epr)).
    { revert Hw. unfold Memory.write.
      destruct (write_slot (epr_path_id epr) None (the_memory qmemory w))
        as [k|]; [|discriminate].
      destruct (storage (the_memory qmemory w) !! k) as [[q0 [x|]]|] eqn:Hk;
        try discriminate.
      intros [= <- <- <-]. simpl. apply list_lookup_insert_eq.
      eapply lookup_lt_Some; exact Hk. }
    unfold notify_entangled_qubit, bind, gets, qubit_fsm, modify, add_event,
      modify. simpl.
    eexists _, epr_succeeded, [_], [_]. split; [reflexivity|]. simpl.
    split; [rewrite <- !app_assoc; reflexivity|].
    split; [split; [intros _; split; [reflexivity|discriminate]|reflexivity]|].
    split; [discriminate|]. intros _.
    exists i, q', (tc w + coherence m'). repeat split.
    unfold the_memory, put_memory, on_qubit. simpl.
    rewrite !list_lookup_insert_eq by (try rewrite length_insert; assumption).
    simpl. rewrite Hcell. simpl.
    apply list_lookup_insert_eq. eapply lookup_lt_Some; exact Hcell.
  - eexists _, epr_failed, [], []. split; [reflexivity|].
    split; [reflexivity|].
    split; [split; [discriminate|intros [_ H]; contradiction H; reflexivity]|].
    split; [intros _; repeat split; reflexivity|discriminate].
Qed.

(** The start of [handle_signaling] on a herald: the quantum channel to
    the sender and the memory named after it. *)
Lemma handle_signaling_herald (packet : RecvClassicPacket) (h : Herald)
    (qchannel : Channel) (qmemory : nat) (w : World) :
  let from_node := other_end (cchannel packet) w in
  outside_external_phase w = false ->
  msg (Net.packet packet) = HERALD h ->
  get_qchannel (Some from_node) w = Some qchannel ->
  memory_position (ch_name qchannel) (memories w) = Some qmemory ->
  handle_signaling uuid4_hex WernerStateEntanglement packet w
  = (if negb (is_active qchannel w) then
       res <- qmem_read qmemory (ByName (epr_id h)) ;;
       match res with
       | None => raise TypeError
       | Some _ => ret tt
       end
     else
       match h_cmd h with
       | epr_succeeded =>
           res <- gets (qmem_get qmemory (ByName (epr_id h))) ;;
           match res with
           | None => raise TypeError
           | Some (qubit, _) => notify_entangled_qubit from_node qubit 0
           end
       | epr_failed =>
           res <- qmem_read qmemory (ByName (epr_id h)) ;;
           match res with
           | None => raise TypeError
           | Some (qubit, _) =>
               generate_entanglement uuid4_hex WernerStateEntanglement
                 qchannel from_node qmemory (Some (qubit_addr qubit))
           end
       end) w.
Proof.
  intros from_node Hgate Hmsg Hq Hmem.
  unfold handle_signaling. unfold bind at 1. unfold gets at 1.
  rewrite Hgate, Hmsg.
  unfold bind at 1. unfold gets at 1. fold from_node.
  unfold bind at 1. unfold gets at 1. rewrite Hq.
  unfold bind at 1. unfold memory_named. rewrite Hmem.
  unfold bind at 1. unfold gets at 1. reflexivity.
Qed.

(** X28. A herald that names a pair the memory of the channel does not
    hold makes [handle_signaling] raise [TypeError], whatever the command
    and whether the channel is active or not: the handler unpacks or
    subscripts the [None] that [read] and [get] answer.  Nothing of the
    node has changed by then. *)
Theorem herald_for_unknown_pair_raises_TypeError (packet : RecvClassicPacket)
    (h : Herald) (qchannel : Channel) (qmemory : nat) (w : World) :
  outside_external_phase w = false ->
  msg (Net.packet packet) = HERALD h ->
  get_qchannel (Some (other_end (cchannel packet) w)) w = Some qchannel ->
  memory_position (ch_name qchannel) (memories w) = Some qmemory ->
  Memory.get (ByName (epr_id h)) (the_memory qmemory w) = None ->
  handle_signaling uuid4_hex WernerStateEntanglement packet w
  = (Raised TypeError, w).
Proof.
  intros Hgate Hmsg Hq Hmem Hget.
  rewrite (handle_signaling_herald packet h qchannel qmemory w Hgate Hmsg Hq Hmem).
  destruct (is_active qchannel w); simpl; [destruct (h_cmd h)|].
  all: unfold bind, gets, qmem_read, qmem_get, Memory.read; rewrite Hget.
  all: reflexivity.
Qed.

(** X29. A herald that arrives on a channel that is no longer active
    frees the slot of the pair it names and nothing more, whatever its
    command: the handler returns, no message or event is emitted, no new
    attempt is made (no uuid drawn), the slot keeps its qubit and holds no
    pair, and a pair confirmed by [epr_succeeded] is dropped as well. *)
Theorem herald_on_inactive_channel_frees_slot (packet : RecvClassicPacket)
    (h : Herald) (qchannel : Channel) (qmemory : nat) (w : World)
    (i : nat) (q : MemoryQubit) (e : Epr) :
  outside_external_phase w = false ->
  msg (Net.packet packet) = HERALD h ->
  get_qchannel (Some (other_end (cchannel packet) w)) w = Some qchannel ->
  memory_position (ch_name qchannel) (memories w) = Some qmemory ->
  is_active qchannel w = false ->
  Memory.get (ByName (epr_id h)) (the_memory qmemory w) = Some (i, q, e) ->
  exists w',
    handle_signaling uuid4_hex WernerStateEntanglement packet w
    = (Returned tt, w')
    /\ trace w' = trace w
    /\ link_layer w' = link_layer w
    /\ storage (the_memory qmemory w') !! i = Some (q, None)
    /\ (forall j, j <> i ->
          storage (the_memory qmemory w') !! j
          = storage (the_memory qmemory w) !! j).
Proof.
  intros Hgate Hmsg Hq Hmem Hact Hget.
  destruct (memory_position_lookup _ _ _ Hmem) as (m0 & Hm0 & _).
  pose proof (get_lookup _ _ _ _ _ Hget) as Hcell.
  rewrite (handle_signaling_herald packet h qchannel qmemory w Hgate Hmsg Hq Hmem).
  rewrite Hact. simpl.
  unfold bind, qmem_read, Memory.read. rewrite Hget. simpl.
  eexists. split; [reflexivity|].
  split; [reflexivity|]. split; [reflexivity|].
  rewrite (the_memory_put _ _ _ _ Hm0). simpl. split.
  - apply list_lookup_insert_eq. eapply lookup_lt_Some; exact Hcell.
  - intros j Hj. apply list_lookup_insert_ne. congruence.
Qed.

(** X25. [epr_succeeded] on an active channel confirms the pair in place:
    the handler returns, the qubit that holds the named pair is ENTANGLED
    and still holds it, exactly one [QubitEntangledEvent] for it and the
    sender of the herald (the node at the other end of the classic channel
    it arrived on) is scheduled at the current time, and no new attempt is
    made. *)
Theorem herald_succeeded_marks_entangled (packet : RecvClassicPacket)
    (h : Herald) (sender : string) (qchannel : Channel) (qmemory : nat)
    (w : World) (i : nat) (q : MemoryQubit) (e : Epr) :
  (node_list (cchannel packet) = (sender, own w)
   \/ node_list (cchannel packet) = (own w, sender)) ->
  outside_external_phase w = false ->
  msg (Net.packet packet) = HERALD h ->
  h_cmd h = epr_succeeded ->
  get_qchannel (Some sender) w = Some qchannel ->
  memory_position (ch_name qchannel) (memories w) = Some qmemory ->
  is_active qchannel w = true ->
  Memory.get (ByName (epr_id h)) (the_memory qmemory w) = Some (i, q, e) ->
  exists w',
    handle_signaling uuid4_hex WernerStateEntanglement packet w
    = (Returned tt, w')
    /\ trace w' = trace w
         ++ [AddEvent (QubitEntangledEvent sender (qmemory, i) (tc w))]
    /\ link_layer w' = link_layer w
    /\ storage (the_memory qmemory w') !! i = Some (to_entangled q, Some e)
    /\ (forall j, j <> i ->
          storage (the_memory qmemory w') !! j
          = storage (the_memory qmemory w) !! j).
Proof.
  intros Hends Hgate Hmsg Hcmd Hq Hmem Hact Hget.
  apply other_end_sender in Hends. subst sender.
  destruct (memory_position_lookup _ _ _ Hmem) as (m0 & Hm0 & _).
  pose proof (get_lookup _ _ _ _ _ Hget) as Hcell.
  rewrite (handle_signaling_herald packet h qchannel qmemory w Hgate Hmsg Hq Hmem).
  rewrite Hact, Hcmd. simpl.
  unfold bind, gets, qmem_get. rewrite Hget.
  unfold notify_entangled_qubit, bind, gets, qubit_fsm, modify, add_event,
    modify. simpl.
  eexists. split; [reflexivity|]. simpl.
  split; [rewrite Z.add_0_r; reflexivity|]. split; [reflexivity|].
  match goal with
  | |- context [the_memory qmemory (set_trace ?w0 ?t)] =>
      change (the_memory qmemory (set_trace w0 t)) with (the_memory qmemory w0)
  end.
  rewrite (the_memory_put _ _ _ _ Hm0).
  unfold on_qubit. rewrite Hcell. simpl. split.
  - apply list_lookup_insert_eq. eapply lookup_lt_Some; exact Hcell.
  - intros j Hj. apply list_lookup_insert_ne. congruence.
Qed.

(** X30. [epr_failed] on an active channel retries in the same slot: the
    handler returns, the slot of the failed pair is read out and written
    again with a fresh pair (a new uuid, [src] the node, [dst] the sender
    of the herald, the path id of the slot), and that pair is the one
    handed to the quantum channel for the sender, the node at the other
    end of the classic channel the herald arrived on. *)
Theorem herald_failed_retries_same_slot (packet : RecvClassicPacket)
    (h : Herald) (sender : string) (qchannel : Channel) (qmemory : nat)
    (w : World) (i : nat) (q : MemoryQubit) (e : Epr) :
  (node_list (cchannel packet) = (sender, own w)
   \/ node_list (cchannel packet) = (own w, sender)) ->
  outside_external_phase w = false ->
  msg (Net.packet packet) = HERALD h ->
  h_cmd h = epr_failed ->
  get_qchannel (Some sender) w = Some qchannel ->
  memory_position (ch_name qchannel) (memories w) = Some qmemory ->
  is_active qchannel w = true ->
  Memory.get (ByName (epr_id h)) (the_memory qmemory w) = Some (i, q, e) ->
  exists w' epr,
    handle_signaling uuid4_hex WernerStateEntanglement packet w
    = (Returned tt, w')
    /\ (exists timer,
          trace w' = trace w
            ++ [AddEvent (QubitDecoherenceTimer (qmemory, i) (epr_name epr)
                            timer);
                QubitSend qchannel epr sender])
    /\ storage (the_memory qmemory w') !! i
       = Some (qubit_set_fsm q OCCUPIED, Some epr)
    /\ epr_name epr = epr_name (WernerStateEntanglement
                                  (init_fidelity (link_layer w))
                                  (uuid4_hex (uuid_calls (link_layer w))))
    /\ epr_src epr = own w
    /\ epr_dst epr = sender
    /\ epr_path_id epr = pid q
    /\ uuid_calls (link_layer w') = S (uuid_calls (link_layer w)).
Proof.
  intros Hends Hgate Hmsg Hcmd Hq Hmem Hact Hget.
  apply other_end_sender in Hends. subst sender.
  destruct (memory_position_lookup _ _ _ Hmem) as (m0 & Hm0 & _).
  pose proof (get_lookup _ _ _ _ _ Hget) as Hcell.
  pose proof (the_memory_lookup _ _ _ Hm0) as Hthe.
  assert (Hi : (i < length (storage m0))%nat)
    by (rewrite <- Hthe; eapply lookup_lt_Some; exact Hcell).
  rewrite (handle_signaling_herald packet h qchannel qmemory w Hgate Hmsg Hq Hmem).
  rewrite Hact, Hcmd. simpl.
  unfold bind at 1. unfold qmem_read, Memory.read. rewrite Hget.
  set (m1 := mem_set_storage (the_memory qmemory w)
               (<[i := (q, None)]> (storage (the_memory qmemory w)))).
  set (w1 := put_memory qmemory m1 w).
  assert (Hm1 : memories w1 !! qmemory = Some m1)
    by (apply (put_memory_lookup _ _ _ _ Hm0)).
  assert (Hslot : write_slot None (Some (qubit_addr (qmemory, i))) m1 = Some i).
  { unfold write_slot, qubit_addr. simpl.
    destruct (Z.ltb_spec (Z.of_nat i) 0) as [Hneg|_]; [lia|].
    rewrite Nat2Z.id. reflexivity. }
  assert (Hc1 : storage m1 !! i = Some (q, None)).
  { unfold m1. simpl. apply list_lookup_insert_eq.
    rewrite Hthe. exact Hi. }
  destruct (generate_entanglement_run qchannel (other_end (cchannel packet) w)
              qmemory (Some (qubit_addr (qmemory, i))) w1 m1 i q
              Hgate Hact Hm1 Hslot Hc1)
    as (w' & Hrun & Htr & Hmem' & _ & Huuid & _ & _).
  exists w', (epr_set_path_id
                (next_epr_of uuid4_hex WernerStateEntanglement (other_end (cchannel packet) w) w1) (pid q)).
  split; [exact Hrun|].
  split; [eexists; exact Htr|].
  split.
  { unfold the_memory. rewrite Hmem'. simpl.
    apply list_lookup_insert_eq. rewrite length_insert, Hthe. exact Hi. }
  repeat split; try reflexivity. exact Huuid.
Qed.
End LinkLayerMore.

(** ** The further properties on the sample nodes *)

Section MoreRuns.
Import PyM Memory Net ProactiveRoutingApp LinkLayerApp Scenario.

Lemma send_swap_update_goes_one_hop_witness :
  exists own_idx dest_idx next_hop ch,
    list_index (re_path_vector path5) (own R2_async) = Some own_idx
    /\ list_index (re_path_vector path5) "S" = Some dest_idx
    /\ (if Nat.ltb own_idx dest_idx
        then re_path_vector path5 !! S own_idx = Some next_hop
        else match own_idx with
             | O => last (re_path_vector path5) = Some next_hop
             | S i => re_path_vector path5 !! i = Some next_hop
             end)
    /\ get_cchannel (Some next_hop) R2_async = Some ch
    /\ snd (send_swap_update "S" swap_failed (re_path_vector path5) false
              R2_async)
       = set_trace R2_async
           (trace R2_async
            ++ [ClassicSend ch
                  {| msg := SWAP_UPDATE swap_failed; pkt_src := own R2_async;
                     pkt_src_entity := IsQNode; pkt_dest := "S" |}
                  next_hop None]).
Proof.
  apply (send_swap_update_goes_one_hop "S" swap_failed
           (re_path_vector path5) false R2_async).
  reflexivity.
Defined.

Lemma swap_update_transit_node_forwards_witness :
  exists ch next_hop delay,
    ProactiveRoutingApp.handle_signaling swap_ok (via_R2 transit_update)
      R2_async
    = (Returned tt,
       set_trace R2_async
         (trace R2_async
          ++ [ClassicSend ch
                {| msg := SWAP_UPDATE (forwarded transit_update);
                   pkt_src := own R2_async; pkt_src_entity := IsQNode;
                   pkt_dest := "R3" |}
                next_hop delay])).
Proof.
  destruct (swap_update_transit_node_forwards swap_ok R2_async
              (via_R2 transit_update) transit_update path5 1 1)
    as [_ Hfwd]; try reflexivity; [discriminate|].
  destruct Hfwd as [[e He]|H]; [lia| |exact H].
  vm_compute in He. discriminate He.
Defined.

Lemma swap_update_from_higher_rank_ignored_witness :
  ProactiveRoutingApp.handle_signaling swap_ok update_from_S R_installed
  = (Returned tt, R_installed).
Proof.
  apply (swap_update_from_higher_rank_ignored swap_ok R_installed
           update_from_S (mkSwapUpdate 2 "S" "D" "e" None "R" false)
           (installed 2 (mkInstructions ["S"; "R"; "D"] [1; 0; 1] ∅ "B" [2; 1]))
           1 0);
    reflexivity.
Defined.

Lemma compute_qubit_allocation_per_link_witness :
  compute_qubit_allocation ["S"; "R"; "D"] [2; 1] "R" R_fresh
  = (Returned (Some 2, Some 1), R_fresh)
  /\ compute_qubit_allocation ["A"; "B"; "C"; "D"] [7] "D" R_fresh
     = (Raised IndexError, R_fresh).
Proof.
  split.
  - destruct (proj1 (compute_qubit_allocation_per_link
                       ["S"; "R"; "D"] [2; 1] "R" 1 R_fresh eq_refl) eq_refl)
      as (prev & next & H & Hp & Hn & _).
    rewrite Hp, Hn in H. exact H.
  - apply (proj2 (compute_qubit_allocation_per_link
                    ["A"; "B"; "C"; "D"] [7] "D" 3 R_fresh eq_refl)).
    simpl. lia.
Defined.

Lemma handle_control_installs_path_witness :
  get_entry 2 R_installed
  = Some (installed 2 (mkInstructions ["S"; "R"; "D"] [1; 0; 1] ∅ "B" [2; 1]))
  /\ trace R_installed
     = [AddEvent (LinkLayerManageActiveChannels "D" ADD 0)].
Proof.
  destruct (handle_control_installs_path R_fresh (install [2; 1]) 2
              (mkInstructions ["S"; "R"; "D"] [1; 0; 1] ∅ "B" [2; 1])
              eq_refl)
    as (_ & _ & H).
  destruct (H R_installed) as (Hfib & _ & _ & i & Hi & Htr & _);
    [vm_compute; reflexivity|].
  split; [exact Hfib|].
  injection Hi as <-. exact Htr.
Defined.

Lemma eligible_without_partner_waits_witness :
  eligible swap_ok O (O, O) path5 R2_async = (Returned tt, R2_async).
Proof.
  apply (eligible_without_partner_waits swap_ok O (O, O) path5 R2_async 2);
    try reflexivity; try (simpl; lia).
  intros qm [<-|[<-|[]]] _; reflexivity.
Defined.

Lemma eligible_intermediate_swap_notifies_both_ends_witness :
  exists this_cell this_epr prev_msg next_msg ch1 ch2 hop1 hop2 q1 q2 m1 m2,
    qmem_get 1 (ByAddr (qubit_addr (1%nat, O))) R2_left_eligible
    = Some (this_cell, this_epr)
    /\ emits R2_left_eligible
         (snd (eligible swap_ok 1 (1%nat, O) path5 R2_left_eligible))
         [ClassicSend ch1
            {| msg := SWAP_UPDATE prev_msg; pkt_src := own R2_left_eligible;
               pkt_src_entity := IsQNode; pkt_dest := destination prev_msg |}
            hop1 None;
          ClassicSend ch2
            {| msg := SWAP_UPDATE next_msg; pkt_src := own R2_left_eligible;
               pkt_src_entity := IsQNode; pkt_dest := destination next_msg |}
            hop2 None;
          AddEvent (QubitReleasedEvent q1 false (tc R2_left_eligible) m1);
          AddEvent (QubitReleasedEvent q2 false
                      (tc R2_left_eligible
                       + time_slots_per_us R2_left_eligible) m2)]
    /\ (swapping_node prev_msg = own R2_left_eligible
        /\ swapping_node next_msg = own R2_left_eligible)
    /\ (su_path_id prev_msg = re_path_id path5
        /\ su_path_id next_msg = re_path_id path5)
    /\ (fwd prev_msg = false /\ fwd next_msg = false)
    /\ (partner prev_msg = destination next_msg
        /\ partner next_msg = destination prev_msg)
    /\ new_epr prev_msg = new_epr next_msg
    /\ (forall ne, new_epr prev_msg = Some ne ->
          epr_src ne = destination prev_msg
          /\ epr_dst ne = destination next_msg)
    /\ ((epr_dst this_epr = own R2_left_eligible
         /\ (q1, m1, q2, m2) = ((1%nat, O), 1%nat, (O, O), O)
         /\ (epr prev_msg, destination prev_msg)
            = (epr_name this_epr, epr_src this_epr)
         /\ (epr next_msg, destination next_msg)
            = (epr_name e12, epr_dst e12))
        \/ (epr_dst this_epr <> own R2_left_eligible
            /\ epr_src this_epr = own R2_left_eligible
            /\ (q1, m1, q2, m2) = ((O, O), O, (1%nat, O), 1%nat)
            /\ (epr prev_msg, destination prev_msg)
               = (epr_name e12, epr_src e12)
            /\ (epr next_msg, destination next_msg)
               = (epr_name this_epr, epr_dst this_epr))).
Proof.
  refine (eligible_intermediate_swap_notifies_both_ends swap_ok 1%nat
            (1%nat, O) path5 R2_left_eligible
            (snd (eligible swap_ok 1 (1%nat, O) path5 R2_left_eligible))
            2%nat O (O, O) e12 [] _ _ _ _ _ _).
  - reflexivity.
  - reflexivity.
  - lia.
  - simpl. lia.
  - vm_compute. reflexivity.
  - vm_compute. reflexivity.
Defined.

Lemma generate_entanglement_sends_stored_pair_witness :
  exists w' epr,
    generate_entanglement uuid_sample epr_sample q_R2_R3 "R3" 1 None
      R2_free_right = (Returned tt, w')
    /\ (exists timer,
          trace w' = trace R2_free_right
            ++ [AddEvent (QubitDecoherenceTimer (1%nat, O) (epr_name epr)
                            timer);
                QubitSend q_R2_R3 epr "R3"])
    /\ storage (the_memory 1 w') !! O
       = Some (qubit_set_fsm free_qubit OCCUPIED, Some epr)
    /\ epr_name epr
       = epr_name (epr_sample (init_fidelity (link_layer R2_free_right))
                     (uuid_sample (uuid_calls (link_layer R2_free_right))))
    /\ epr_src epr = own R2_free_right /\ epr_dst epr = "R3"
    /\ epr_path_id epr = pid free_qubit
    /\ uuid_calls (link_layer w') = S (uuid_calls (link_layer R2_free_right))
    /\ (forall j, j <> 1%nat ->
          memories w' !! j = memories R2_free_right !! j).
Proof.
  apply (generate_entanglement_sends_stored_pair uuid_sample epr_sample
           q_R2_R3 "R3" 1 None R2_free_right
           (mkMemory "q_R2_R3" [(free_qubit, None)] 50) O free_qubit);
    reflexivity.
Defined.

Lemma handle_distribution_heralds_once_witness :
  exists w' cmd pre post,
    handle_distribution qubit_from_R3 R2_reserved_right = (Returned tt, w')
    /\ trace w' = trace R2_reserved_right ++ pre
         ++ [ClassicSend c_R2_R3
               {| msg := HERALD {| h_cmd := cmd; h_path_id := epr_path_id e_in;
                                   epr_id := epr_name e_in |};
                  pkt_src := own R2_reserved_right; pkt_src_entity := IsQNode;
                  pkt_dest := "R3" |}
               "R3" None]
         ++ post
    /\ (cmd = epr_succeeded <->
        is_decoherenced e_in = false
        /\ fst (Memory.write e_in (epr_path_id e_in) None
                  (the_memory 1 R2_reserved_right)) <> None)
    /\ (cmd = epr_failed ->
        pre = [] /\ post = [] /\ memories w' = memories R2_reserved_right)
    /\ (cmd = epr_succeeded ->
        exists i q timer,
          fst (Memory.write e_in (epr_path_id e_in) None
                 (the_memory 1 R2_reserved_right)) = Some (i, q)
          /\ pre = [AddEvent (QubitDecoherenceTimer (1%nat, i)
                                (epr_name e_in) timer)]
          /\ post = [AddEvent (QubitEntangledEvent "R3" (1%nat, i)
                                 (tc R2_reserved_right + delay c_R2_R3))]
          /\ storage (the_memory 1 w') !! i
             = Some (to_entangled q, Some e_in)).
Proof.
  apply (handle_distribution_heralds_once qubit_from_R3 "R3" c_R2_R3 1
           R2_reserved_right);
    try reflexivity.
  right. reflexivity.
Defined.

Lemma herald_for_unknown_pair_raises_TypeError_witness :
  LinkLayerApp.handle_signaling uuid_sample epr_sample
    (herald_from_R3 epr_succeeded "lost") R2_async
  = (Raised TypeError, R2_async).
Proof.
  apply (herald_for_unknown_pair_raises_TypeError uuid_sample epr_sample
           (herald_from_R3 epr_succeeded "lost")
           (mkHerald epr_succeeded (Some 0) "lost") q_R2_R3 1 R2_async);
    reflexivity.
Defined.

Lemma herald_on_inactive_channel_frees_slot_witness :
  exists w',
    LinkLayerApp.handle_signaling uuid_sample epr_sample
      (herald_from_R1 epr_succeeded "e12") R2_async = (Returned tt, w')
    /\ trace w' = trace R2_async
    /\ link_layer w' = link_layer R2_async
    /\ storage (the_memory O w') !! O = Some (reserved_for 0 ENTANGLED, None)
    /\ (forall j, j <> O ->
          storage (the_memory O w') !! j
          = storage (the_memory O R2_async) !! j).
Proof.
  apply (herald_on_inactive_channel_frees_slot uuid_sample epr_sample
           (herald_from_R1 epr_succeeded "e12")
           (mkHerald epr_succeeded (Some 0) "e12") q_R1_R2 O R2_async
           O (reserved_for 0 ENTANGLED) e12);
    reflexivity.
Defined.

Lemma herald_succeeded_marks_entangled_witness :
  exists w',
    LinkLayerApp.handle_signaling uuid_sample epr_sample
      (herald_from_R3 epr_succeeded "e23") R2_free_left = (Returned tt, w')
    /\ trace w' = trace R2_free_left
         ++ [AddEvent (QubitEntangledEvent "R3" (1%nat, O) (tc R2_free_left))]
    /\ link_layer w' = link_layer R2_free_left
    /\ storage (the_memory 1 w') !! O
       = Some (to_entangled (reserved_for 0 OCCUPIED), Some e23)
    /\ (forall j, j <> O ->
          storage (the_memory 1 w') !! j
          = storage (the_memory 1 R2_free_left) !! j).
Proof.
  apply (herald_succeeded_marks_entangled uuid_sample epr_sample
           (herald_from_R3 epr_succeeded "e23")
           (mkHerald epr_succeeded (Some 0) "e23") "R3" q_R2_R3 1 R2_free_left
           O (reserved_for 0 OCCUPIED) e23);
    try reflexivity.
  right. reflexivity.
Defined.

Lemma herald_failed_retries_same_slot_witness :
  exists w' epr,
    LinkLayerApp.handle_signaling uuid_sample epr_sample
      (herald_from_R3 epr_failed "e23") R2_free_left = (Returned tt, w')
    /\ (exists timer,
          trace w' = trace R2_free_left
            ++ [AddEvent (QubitDecoherenceTimer (1%nat, O) (epr_name epr)
                            timer);
                QubitSend q_R2_R3 epr "R3"])
    /\ storage (the_memory 1 w') !! O
       = Some (qubit_set_fsm (reserved_for 0 OCCUPIED) OCCUPIED, Some epr)
    /\ epr_name epr
       = epr_name (epr_sample (init_fidelity (link_layer R2_free_left))
                     (uuid_sample (uuid_calls (link_layer R2_free_left))))
    /\ epr_src epr = own R2_free_left
    /\ epr_dst epr = "R3"
    /\ epr_path_id epr = pid (reserved_for 0 OCCUPIED)
    /\ uuid_calls (link_layer w') = S (uuid_calls (link_layer R2_free_left)).
Proof.
  apply (herald_failed_retries_same_slot uuid_sample epr_sample
           (herald_from_R3 epr_failed "e23")
           (mkHerald epr_failed (Some 0) "e23") "R3" q_R2_R3 1 R2_free_left
           O (reserved_for 0 OCCUPIED) e23);
    try reflexivity.
  right. reflexivity.
Defined.
End MoreRuns.
